(** * cooltools.dotfinder: tiling, local enrichment scoring, histogram
      merging and final filtering, embedded shallowly.

    Integers are Python integers ([Z], with [//] and [%] as [Z.div] and
    [Z.modulo], which round the same way), sequences are lists, dictionaries
    are finite maps or association lists where the iteration order is
    observable, and every Python exception is a value of [exn] carried by the
    [result] monad. *)

From Stdlib Require Import ZArith List Lia Bool String Ascii.
From Stdlib Require Import Floats Sorted.
From stdpp Require Import base list gmap strings.
From stdpp Require sorting.
Import ListNotations.
Local Open Scope Z_scope.

(** ** Exceptions and the error monad *)

Inductive exn : Type :=
| ZeroDivisionError
| KeyError (label : string)
| TypeError
| ValueError
| RuntimeError
| IndexError
| AssertionError (msg : string).

Inductive result (A : Type) : Type :=
| Ok (a : A)
| Raise (e : exn).
Arguments Ok {A} a.
Arguments Raise {A} e.

Definition bind {A B : Type} (m : result A) (k : A -> result B) : result B :=
  match m with
  | Ok a => k a
  | Raise e => Raise e
  end.

Notation "'let*' x ':=' m 'in' k" := (bind m (fun x => k))
  (at level 10, x name, m at level 100, k at level 200).

(** ** Tiling generators *)

Module Tiling.

(** Python's [range(lo, hi)]: empty when [hi <= lo]. *)
Definition range (lo hi : Z) : list Z :=
  map (fun i => lo + Z.of_nat i) (seq 0 (Z.to_nat (hi - lo))).

(** Python's [bool(n)] read as an integer in an addition. *)
Definition py_bool (n : Z) : Z := if n =? 0 then 0 else 1.

(** [size // step + bool(size % step)]; [//] by zero raises. *)
Definition tile_count (size step : Z) : result Z :=
  if step =? 0 then Raise ZeroDivisionError
  else Ok (size / step + py_bool (size mod step)).

(** [diagonal_matrix_tiling(start, stop, bandwidth, edge)]: the spans
    [(lw+start, rw+start)] the generator yields, in order. *)
Definition diagonal_matrix_tiling (start stop bandwidth edge : Z)
  : result (list (Z * Z)) :=
  let size := stop - start in
  let* tiles := tile_count size bandwidth in
  Ok (map (fun t =>
             let lw := Z.max 0 (bandwidth * (t - 1) - edge) in
             let rw := Z.min size (bandwidth * (t + 1) + edge) in
             (lw + start, rw + start))
          (range 1 tiles)).

(** One axis of [square_matrix_tiling]: the window of tile number [t]. *)
Definition square_window (size step edge : Z) (square : bool) (t : Z) : Z * Z :=
  let lw := Z.max 0 (step * t - edge) in
  let rw := Z.min size (step * (t + 1) + edge) in
  let lw := if square && (size <=? rw) then size - step - edge else lw in
  (lw, rw).

(** [square_matrix_tiling(start, stop, step, edge, square)]: the pairs of
    spans yielded by the two nested loops, [tx] outermost. *)
Definition square_matrix_tiling (start stop step edge : Z) (square : bool)
  : result (list ((Z * Z) * (Z * Z))) :=
  let size := stop - start in
  let* tiles := tile_count size step in
  Ok (flat_map (fun tx =>
        map (fun ty =>
               let '(lwx, rwx) := square_window size step edge square tx in
               let '(lwy, rwy) := square_window size step edge square ty in
               ((lwx + start, rwx + start), (lwy + start, rwy + start)))
            (range 0 tiles))
        (range 0 tiles)).

(** A pixel [(i, j)] lies in the square tile fetched for the span [(lw, rw)]. *)
Definition covers (i j : Z) (span : Z * Z) : Prop :=
  fst span <= i /\ j < snd span.

(** A span that reaches the right matrix boundary [stop] has side [side]. *)
Definition boundary_side_is (stop side : Z) (span : Z * Z) : Prop :=
  snd span = stop -> snd span - fst span = side.

Lemma in_range (lo hi t : Z) : In t (range lo hi) <-> lo <= t < hi.
Proof.
  unfold range. rewrite List.in_map_iff. split.
  - intros (n & <- & Hn). apply List.in_seq in Hn. lia.
  - intros H. exists (Z.to_nat (t - lo)). split; [lia|].
    apply List.in_seq. lia.
Qed.

Lemma tile_count_ceil (size step : Z) :
  0 < step -> 0 <= size ->
  exists tiles, tile_count size step = Ok tiles /\
    step * (tiles - 1) < size <= step * tiles \/
    tile_count size step = Ok 0 /\ size = 0.
Proof.
  intros Hs Hz. unfold tile_count, py_bool.
  destruct (Z.eqb_spec step 0); [lia|].
  pose proof (Z.div_mod size step ltac:(lia)) as Hdm.
  pose proof (Z.mod_pos_bound size step Hs) as Hb.
  destruct (Z.eqb_spec (size mod step) 0) as [E|E].
  - destruct (Z.eq_dec size 0) as [->|Hne].
    + exists 0. right. rewrite Z.div_0_l by lia. split; [reflexivity|lia].
    + exists (size / step + 0). left. split; [reflexivity|]. nia.
  - exists (size / step + 1). left. split; [reflexivity|]. nia.
Qed.

(** X1. Coverage of the diagonal band once the span is longer than one
    bandwidth: every pixel within [bandwidth] of the diagonal lies in a
    yielded tile. *)
Lemma diagonal_tiling_covers_band (start stop bandwidth edge i j : Z) :
  0 < bandwidth -> 0 <= edge -> bandwidth < stop - start ->
  start <= i -> i <= j -> j < stop -> j - i <= bandwidth ->
  exists tiles, diagonal_matrix_tiling start stop bandwidth edge = Ok tiles /\
    Exists (covers i j) tiles.
Proof.
  intros Hb He Hlong Hi Hij Hj Hband.
  unfold diagonal_matrix_tiling.
  destruct (tile_count_ceil (stop - start) bandwidth Hb ltac:(lia))
    as (tiles & [[Ht Hc] | [_ Hz]]); [|lia].
  rewrite Ht. cbn [bind]. eexists. split; [reflexivity|].
  apply List.Exists_exists.
  set (t0 := (i - start) / bandwidth).
  assert (Ht0 : bandwidth * t0 <= i - start < bandwidth * (t0 + 1)).
  { pose proof (Z.div_mod (i - start) bandwidth ltac:(lia)).
    pose proof (Z.mod_pos_bound (i - start) bandwidth Hb). subst t0. nia. }
  assert (0 <= t0 <= tiles - 1) by nia.
  assert (2 <= tiles) by nia.
  destruct (Z_lt_dec (t0 + 1) tiles) as [Hlt|Hge].
  - exists (Z.max 0 (bandwidth * (t0 + 1 - 1) - edge) + start,
            Z.min (stop - start) (bandwidth * (t0 + 1 + 1) + edge) + start).
    split.
    + apply List.in_map_iff. exists (t0 + 1). split; [reflexivity|].
      apply in_range. lia.
    + unfold covers; cbn [fst snd]. split; [nia|]. nia.
  - assert (t0 = tiles - 1) by lia.
    exists (Z.max 0 (bandwidth * (t0 - 1) - edge) + start,
            Z.min (stop - start) (bandwidth * (t0 + 1) + edge) + start).
    split.
    + apply List.in_map_iff. exists t0. split; [reflexivity|].
      apply in_range. lia.
    + unfold covers; cbn [fst snd]. split; [nia|]. nia.
Qed.

(** The tiling of [[0, 100)] with [bandwidth = 10] and [edge = 2] covers the
    pixel [(37, 45)]. *)
Lemma diagonal_tiling_covers_band_witness :
  exists tiles, diagonal_matrix_tiling 0 100 10 2 = Ok tiles /\
    Exists (covers 37 45) tiles.
Proof. apply (diagonal_tiling_covers_band 0 100 10 2 37 45); lia. Defined.

(** A span no longer than one bandwidth yields no tile. *)
Lemma diagonal_tiling_short_span_empty (start stop bandwidth edge : Z) :
  0 < bandwidth -> 0 <= stop - start <= bandwidth ->
  diagonal_matrix_tiling start stop bandwidth edge = Ok [].
Proof.
  intros Hb Hs. unfold diagonal_matrix_tiling.
  destruct (tile_count_ceil (stop - start) bandwidth Hb ltac:(lia))
    as (tiles & [[Ht Hc] | [Ht Hz]]); rewrite Ht; cbn [bind]; [|reflexivity].
  assert (tiles <= 1) by nia.
  unfold range. replace (Z.to_nat (tiles - 1)) with 0%nat by lia. reflexivity.
Qed.

(** C1. At [start = 0], [stop = 5], [bandwidth = 10], [edge = 0] the
    generator yields nothing, so the pixel [(0, 0)], which is inside the
    span and on the diagonal, lies in no yielded tile. *)
Theorem diagonal_tiling_misses_short_span :
  diagonal_matrix_tiling 0 5 10 0 = Ok [] /\
  (0 <= 0 <= 0 /\ 0 < 5 /\ 0 - 0 <= 10) /\
  forall tiles, diagonal_matrix_tiling 0 5 10 0 = Ok tiles ->
    ~ Exists (covers 0 0) tiles.
Proof.
  split; [reflexivity|]. split; [lia|].
  intros tiles H. cbv in H. injection H as <-. intros E. inversion E.
Qed.

Lemma square_window_boundary (size step edge t : Z) :
  let w := square_window size step edge true t in
  snd w = size -> snd w - fst w = step + edge.
Proof.
  unfold square_window; cbn [fst snd andb]. intros H.
  destruct (Z.leb_spec size (Z.min size (step * (t + 1) + edge))); lia.
Qed.

(** C9 (as amended). With [square=True], every yielded span whose right end
    is the matrix boundary [stop] has side [step + edge]: its left end is
    moved to [stop - step - edge]. *)
Theorem square_tiling_boundary_side (start stop step edge : Z)
    (tiles : list ((Z * Z) * (Z * Z))) :
  square_matrix_tiling start stop step edge true = Ok tiles ->
  Forall (fun t => boundary_side_is stop (step + edge) (fst t) /\
                   boundary_side_is stop (step + edge) (snd t)) tiles.
Proof.
  unfold square_matrix_tiling. destruct (tile_count _ _) as [n|e]; [|discriminate].
  cbn [bind]. intros [= <-]. apply List.Forall_forall. intros t Ht.
  apply List.in_flat_map in Ht as (tx & _ & Ht).
  apply List.in_map_iff in Ht as (ty & <- & _).
  pose proof (square_window_boundary (stop - start) step edge tx) as Hx.
  pose proof (square_window_boundary (stop - start) step edge ty) as Hy.
  unfold square_window in *. cbn [fst snd andb] in *.
  unfold boundary_side_is; cbn [fst snd]. split; lia.
Qed.

(** Witness for C9: the tiling of [[0, 10)] with [step = 4], [edge = 1]. *)
Lemma square_tiling_boundary_side_witness :
  { tiles | square_matrix_tiling 0 10 4 1 true = Ok tiles /\
    Forall (fun t => boundary_side_is 10 (4 + 1) (fst t) /\
                     boundary_side_is 10 (4 + 1) (snd t)) tiles }.
Proof.
  eexists. split; [reflexivity|].
  apply (square_tiling_boundary_side 0 10 4 1). reflexivity.
Defined.

(** C9 (as stated) fails: for [[0, 10)], [step = 4], [edge = 1] the last
    row span is [(5, 10)], which reaches the boundary and has side 5. *)
Lemma square_tiling_boundary_side_not_step :
  exists tiles, square_matrix_tiling 0 10 4 1 true = Ok tiles /\
    In ((5, 10), (0, 5)) tiles /\
    ~ Forall (fun t => boundary_side_is 10 4 (fst t) /\
                       boundary_side_is 10 4 (snd t)) tiles.
Proof.
  eexists. split; [reflexivity|]. split.
  - cbv. tauto.
  - intros H. rewrite List.Forall_forall in H.
    destruct (H ((5, 10), (0, 5))) as [Hx _]; [cbv; tauto|].
    unfold boundary_side_is in Hx; cbn [fst snd] in Hx. lia.
Qed.

End Tiling.

(** ** Floating-point numbers

    The arithmetic of numpy's [float64] arrays is an interface, [FloatOps],
    instantiated by [binary64], IEEE 754 double precision as the kernel's
    primitive floats compute it.  The code is embedded once, over the
    interface; statements that need a property of the arithmetic take it
    from [FloatLaws] and [SortLaws], which [binary64] is proved to
    satisfy. *)

Class FloatOps (F : Type) : Type := {
  of_Z : Z -> F;
  fnan : F;
  fadd : F -> F -> F;
  fmul : F -> F -> F;
  fdiv : F -> F -> F;
  fabs : F -> F;
  feqb : F -> F -> bool;
  fltb : F -> F -> bool;
  fleb : F -> F -> bool;
  isnan : F -> bool;
  isfinite : F -> bool
}.

(** The order numpy sorts floats by: [a < b], with not-a-number last. *)
Definition sort_lt {F} `{FloatOps F} (a b : F) : bool :=
  fltb a b || (isnan b && negb (isnan a)).

(** The decimal literal [n/d] as the correctly rounded quotient. *)
Definition lit {F} `{FloatOps F} (n d : Z) : F := fdiv (of_Z n) (of_Z d).

(** [bool(x)] of a Python float. *)
Definition truthy {F} `{FloatOps F} (x : F) : bool := negb (feqb x (of_Z 0)).


(** The order floats are sorted by is a strict weak order. *)
Class SortLaws {F} (ops : FloatOps F) : Prop := {
  sort_lt_asym : forall a b : F, sort_lt a b = true -> sort_lt b a = false;
  sort_lt_negtrans : forall a b c : F,
    sort_lt b a = false -> sort_lt c b = false -> sort_lt c a = false
}.

Module Binary64.

(** The nearest double to an integer ([+/-inf] beyond the range). *)
Definition b64_of_Z (z : Z) : float :=
  SF2Prim (binary_normalize prec emax z 0 false).

#[export] Instance binary64 : FloatOps float := {|
  of_Z := b64_of_Z;
  fnan := PrimFloat.nan;
  fadd := PrimFloat.add;
  fmul := PrimFloat.mul;
  fdiv := PrimFloat.div;
  fabs := PrimFloat.abs;
  feqb := PrimFloat.eqb;
  fltb := PrimFloat.ltb;
  fleb := PrimFloat.leb;
  isnan := PrimFloat.is_nan;
  isfinite := PrimFloat.is_finite
|}.

(** *** The laws, from the specification of the primitive operations *)



Lemma Prim2SF_zero : Prim2SF (b64_of_Z 0) = S754_zero false.
Proof. vm_compute. reflexivity. Qed.






Definition snan (s : spec_float) : bool := negb (SFeqb s s).

Definition slt (a b : spec_float) : bool :=
  SFltb a b || (snan b && negb (snan a)).

Lemma is_nan_spec (x : float) : PrimFloat.is_nan x = snan (Prim2SF x).
Proof. unfold PrimFloat.is_nan, snan. now rewrite FloatAxioms.eqb_spec. Qed.




Ltac fold_pos_compare :=
  repeat match goal with
  | |- context [PosDef.Pos.compare_cont Eq ?a ?b] =>
      change (PosDef.Pos.compare_cont Eq a b) with (Pos.compare a b)
  end.

Ltac compare_cases :=
  repeat match goal with
  | |- context [Z.compare ?a ?b] => destruct (Z.compare_spec a b)
  | |- context [Pos.compare ?a ?b] => destruct (Pos.compare_spec a b)
  end.

Lemma slt_asym (a b : spec_float) : slt a b = true -> slt b a = false.
Proof.
  unfold slt, snan, SFltb, SFeqb.
  destruct a as [sa|sa| |sa ma ea], b as [sb|sb| |sb mb eb]; cbn;
    try destruct sa; try destruct sb; cbn; try reflexivity; try discriminate;
    fold_pos_compare; rewrite ?Z.compare_refl, ?Pos.compare_refl; cbn;
    compare_cases; cbn; intros; try reflexivity; try congruence; try lia.
Qed.

Lemma slt_negtrans (a b c : spec_float) :
  slt b a = false -> slt c b = false -> slt c a = false.
Proof.
  unfold slt, snan, SFltb, SFeqb.
  destruct a as [sa|sa| |sa ma ea], b as [sb|sb| |sb mb eb],
           c as [sc|sc| |sc mc ec]; cbn;
    try destruct sa; try destruct sb; try destruct sc; cbn;
    try reflexivity; try discriminate;
    fold_pos_compare; rewrite ?Z.compare_refl, ?Pos.compare_refl; cbn;
    compare_cases; cbn; intros; try reflexivity; try congruence; try lia.
Qed.

Lemma sort_lt_spec (a b : float) : sort_lt a b = slt (Prim2SF a) (Prim2SF b).
Proof.
  unfold sort_lt, slt. cbn [fltb isnan binary64].
  now rewrite FloatAxioms.ltb_spec, !is_nan_spec.
Qed.


#[export] Instance binary64_sort_laws : SortLaws binary64.
Proof.
  split.
  - intros a b. rewrite !sort_lt_spec. apply slt_asym.
  - intros a b c. rewrite !sort_lt_spec. apply slt_negtrans.
Qed.

End Binary64.

(** ** Benjamini-Hochberg q-values *)

Module QVals.

Section WithFloat.
Context {F : Type} {ops : FloatOps F}.

(** Each element with its position, as [enumerate] pairs them. *)
Definition enumerate {A} (l : list A) : list (nat * A) :=
  combine (seq 0 (length l)) l.

(** Insertion of one keyed element into a list sorted by [sort_lt], after
    every element that is not greater (so equal keys keep their order). *)
Fixpoint insert_sorted (x : nat * F) (l : list (nat * F)) : list (nat * F) :=
  match l with
  | [] => [x]
  | y :: l' =>
      if sort_lt (snd x) (snd y) then x :: l else y :: insert_sorted x l'
  end.

Definition sort_pairs (l : list (nat * F)) : list (nat * F) :=
  fold_left (fun acc x => insert_sorted x acc) l [].

(** Sorting by insertion: one order [np.argsort] may return, the one in
    which equal values keep the order of the input. *)
Definition insertion_argsort (pvals : list F) : list nat :=
  map fst (sort_pairs (enumerate pvals)).

(** What numpy promises of [np.argsort(pvals)]: the positions of the
    array, each once, listed so that the values ascend, not-a-number last.
    The default sort is not stable, so the order among equal values is not
    promised. *)
Definition sorts (pvals : list F) (porder : list nat) : Prop :=
  Permutation porder (seq 0 (length pvals)) /\
  forall (r1 r2 i1 i2 : nat) (p1 p2 : F),
    (r1 < r2)%nat -> porder !! r1 = Some i1 -> porder !! r2 = Some i2 ->
    pvals !! i1 = Some p1 -> pvals !! i2 = Some p2 ->
    sort_lt p2 p1 = false.

(** [np.argsort]: any function that keeps the promise. *)
Class ArgSort : Type := {
  argsort : list F -> list nat;
  argsort_sorts : forall pvals : list F, sorts pvals (argsort pvals)
}.

Context {sorter : ArgSort}.

(** [prank[porder] = np.arange(k+1, ...)]: position [porder[r]] receives
    [k + r + 1], assignments made from left to right. *)
Fixpoint scatter_ranks (k : nat) (porder : list nat) (prank : list Z) : list Z :=
  match porder with
  | [] => prank
  | i :: rest => scatter_ranks (S k) rest (<[i := Z.of_nat k + 1]> prank)
  end.

(** [get_qvals(pvals)]. [np.empty_like] is modelled as zeros: every
    position is overwritten before it is read. *)
Definition get_qvals (pvals : list F) : list F :=
  let n_obs := length pvals in
  let porder := argsort pvals in
  let prank := scatter_ranks 0 porder (replicate (length porder) 0) in
  zip_with (fun p r => fdiv (fmul (of_Z (Z.of_nat n_obs)) p) (of_Z r))
           pvals prank.

(** Ascending order of keyed elements: no later key sorts before an
    earlier one. *)
Definition key_le (x y : nat * F) : Prop := sort_lt (snd y) (snd x) = false.

Lemma enumerate_fst {A} (l : list A) : map fst (enumerate l) = seq 0 (length l).
Proof.
  unfold enumerate. generalize 0%nat. induction l as [|a l IH]; intros k.
  - reflexivity.
  - cbn. f_equal. apply IH.
Qed.

Lemma enumerate_lookup {A} (l : list A) (i : nat) (a : A) :
  In (i, a) (enumerate l) -> l !! i = Some a.
Proof.
  unfold enumerate.
  assert (G : forall k, In (i, a) (combine (seq k (length l)) l) ->
                        (k <= i)%nat /\ l !! (i - k)%nat = Some a).
  { induction l as [|b l IH]; intros k; cbn; [tauto|].
    intros [[= <- <-]|Hin].
    - split; [lia|]. replace (k - k)%nat with 0%nat by lia. reflexivity.
    - destruct (IH _ Hin) as [Hk Hl]. split; [lia|].
      replace (i - k)%nat with (S (i - S k)) by lia. exact Hl. }
  intros Hin. destruct (G 0%nat Hin) as [_ Hl].
  now replace (i - 0)%nat with i in Hl by lia.
Qed.

Lemma insert_sorted_perm (x : nat * F) (l : list (nat * F)) :
  Permutation (insert_sorted x l) (x :: l).
Proof.
  induction l as [|y l IH]; cbn; [reflexivity|].
  destruct (sort_lt _ _); [reflexivity|].
  rewrite IH. apply perm_swap.
Qed.

Lemma sort_pairs_perm (l : list (nat * F)) : Permutation (sort_pairs l) l.
Proof.
  unfold sort_pairs.
  assert (G : forall acc, Permutation (fold_left (fun acc x => insert_sorted x acc) l acc)
                                      (acc ++ l)).
  { induction l as [|x l IH]; intros acc; cbn.
    - now rewrite app_nil_r.
    - rewrite IH, insert_sorted_perm. cbn.
      now rewrite Permutation_middle. }
  apply (G []).
Qed.

Lemma insertion_argsort_perm (pvals : list F) :
  Permutation (insertion_argsort pvals) (seq 0 (length pvals)).
Proof.
  unfold insertion_argsort. rewrite sort_pairs_perm. now rewrite enumerate_fst.
Qed.

Lemma argsort_perm (pvals : list F) :
  Permutation (argsort pvals) (seq 0 (length pvals)).
Proof. apply argsort_sorts. Qed.

Lemma argsort_length (pvals : list F) : length (argsort pvals) = length pvals.
Proof.
  rewrite (Permutation_length (argsort_perm pvals)). apply length_seq.
Qed.

Lemma scatter_ranks_length (k : nat) (porder : list nat) (prank : list Z) :
  length (scatter_ranks k porder prank) = length prank.
Proof.
  revert k prank. induction porder as [|i rest IH]; intros k prank; cbn.
  - reflexivity.
  - rewrite IH. apply length_insert.
Qed.

Lemma scatter_ranks_other (k : nat) (porder : list nat) (prank : list Z) (i : nat) :
  ~ In i porder -> scatter_ranks k porder prank !! i = prank !! i.
Proof.
  revert k prank. induction porder as [|j rest IH]; intros k prank Hni; cbn.
  - reflexivity.
  - rewrite IH by (cbn in Hni; tauto).
    apply list_lookup_insert_ne. cbn in Hni. intros ->. tauto.
Qed.

Lemma scatter_ranks_lookup (k : nat) (porder : list nat) (prank : list Z)
    (r i : nat) :
  List.NoDup porder -> porder !! r = Some i -> (i < length prank)%nat ->
  scatter_ranks k porder prank !! i = Some (Z.of_nat (k + r) + 1).
Proof.
  revert k prank r. induction porder as [|j rest IH]; intros k prank r Hnd Hr Hi.
  - discriminate.
  - apply List.NoDup_cons_iff in Hnd as [Hnj Hnd]. destruct r as [|r]; cbn in *.
    + injection Hr as ->. rewrite scatter_ranks_other by assumption.
      rewrite list_lookup_insert_eq by assumption.
      do 2 f_equal. lia.
    + rewrite (IH (S k) _ r Hnd Hr) by (rewrite length_insert; assumption).
      do 2 f_equal. lia.
Qed.

End WithFloat.

Section Sorted.
Context {F : Type} {ops : FloatOps F} {laws : SortLaws ops}.

Lemma insert_sorted_sorted (x : nat * F) (l : list (nat * F)) :
  StronglySorted key_le l -> StronglySorted key_le (insert_sorted x l).
Proof.
  induction 1 as [|y l Hs IH Hy]; cbn.
  - repeat constructor.
  - destruct (sort_lt (snd x) (snd y)) eqn:E.
    + constructor; [constructor; assumption|].
      assert (Hxy : key_le x y) by (apply sort_lt_asym; exact E).
      constructor; [exact Hxy|].
      rewrite List.Forall_forall in Hy |- *. intros z Hz.
      unfold key_le in *. eapply sort_lt_negtrans; [exact Hxy|]. now apply Hy.
    + constructor; [exact IH|].
      rewrite List.Forall_forall in Hy |- *. intros z Hz.
      apply (Permutation_in _ (insert_sorted_perm x l)) in Hz.
      destruct Hz as [<-|Hz]; [exact E|now apply Hy].
Qed.

Lemma sort_pairs_sorted (l : list (nat * F)) : StronglySorted key_le (sort_pairs l).
Proof.
  unfold sort_pairs.
  assert (G : forall acc, StronglySorted key_le acc ->
    StronglySorted key_le (fold_left (fun acc x => insert_sorted x acc) l acc)).
  { induction l as [|x l IH]; intros acc Hacc; cbn; [exact Hacc|].
    apply IH. now apply insert_sorted_sorted. }
  apply G. constructor.
Qed.

Lemma strongly_sorted_lookup {A} (R : A -> A -> Prop) (l : list A)
    (r1 r2 : nat) (x y : A) :
  StronglySorted R l -> (r1 < r2)%nat ->
  l !! r1 = Some x -> l !! r2 = Some y -> R x y.
Proof.
  intros Hs. revert r1 r2. induction Hs as [|a l Hs IH Ha]; intros r1 r2 Hlt H1 H2.
  - discriminate.
  - destruct r2 as [|r2]; [lia|]. cbn in H2. destruct r1 as [|r1]; cbn in H1.
    + injection H1 as ->. rewrite List.Forall_forall in Ha. apply Ha.
      apply list_elem_of_In. eapply list_elem_of_lookup_2. exact H2.
    + apply (IH r1 r2); [lia|assumption..].
Qed.

Lemma insertion_argsort_ascending (pvals : list F) (r1 r2 i1 i2 : nat)
    (p1 p2 : F) :
  (r1 < r2)%nat ->
  insertion_argsort pvals !! r1 = Some i1 ->
  insertion_argsort pvals !! r2 = Some i2 ->
  pvals !! i1 = Some p1 -> pvals !! i2 = Some p2 ->
  sort_lt p2 p1 = false.
Proof.
  unfold insertion_argsort. intros Hlt H1 H2 Hp1 Hp2.
  rewrite list_lookup_fmap in H1, H2.
  destruct (sort_pairs (enumerate pvals) !! r1) as [[j1 q1]|] eqn:E1; [|discriminate].
  destruct (sort_pairs (enumerate pvals) !! r2) as [[j2 q2]|] eqn:E2; [|discriminate].
  cbn in H1, H2. injection H1 as ->. injection H2 as ->.
  pose proof (strongly_sorted_lookup key_le _ _ _ _ _
                (sort_pairs_sorted (enumerate pvals)) Hlt E1 E2) as Hle.
  assert (Hin : forall r j q, sort_pairs (enumerate pvals) !! r = Some (j, q) ->
                              pvals !! j = Some q).
  { intros r j q E. apply enumerate_lookup.
    apply (Permutation_in _ (sort_pairs_perm _)).
    apply list_elem_of_In. eapply list_elem_of_lookup_2. exact E. }
  rewrite (Hin _ _ _ E1) in Hp1. rewrite (Hin _ _ _ E2) in Hp2.
  injection Hp1 as <-. injection Hp2 as <-. exact Hle.
Qed.

End Sorted.

(** Sorting by insertion keeps the promise of [np.argsort]. *)
#[export] Instance insertion_sorter {F : Type} (ops : FloatOps F)
    (laws : SortLaws ops) : ArgSort (ops := ops) :=
  {| argsort := insertion_argsort;
     argsort_sorts := fun pvals =>
       conj (insertion_argsort_perm pvals) (insertion_argsort_ascending pvals) |}.

(** *** Arrays without ties *)

Lemma lookup_strongly_sorted {A} (R : A -> A -> Prop) (l : list A) :
  (forall (r1 r2 : nat) (x y : A),
     (r1 < r2)%nat -> l !! r1 = Some x -> l !! r2 = Some y -> R x y) ->
  StronglySorted R l.
Proof.
  induction l as [|a l IH]; intros H; constructor.
  - apply IH. intros r1 r2 x y Hlt H1 H2. apply (H (S r1) (S r2)); [lia|assumption..].
  - apply List.Forall_forall. intros y Hy.
    apply list_elem_of_In, list_elem_of_lookup_1 in Hy as [r Hr].
    apply (H 0%nat (S r)); [lia|reflexivity|exact Hr].
Qed.

Lemma seq_strongly_sorted (k n : nat) : StronglySorted lt (seq k n).
Proof.
  revert k. induction n as [|n IH]; intros k; cbn; constructor; [apply IH|].
  apply List.Forall_forall. intros y Hy. apply List.in_seq in Hy. lia.
Qed.

(** On an array that is strictly ascending already, every sort that keeps
    the promise returns the positions in their order. *)
Lemma sorts_ascending_input {F : Type} {ops : FloatOps F}
    (pvals : list F) (porder : list nat) :
  sorts pvals porder ->
  (forall (i1 i2 : nat) (p1 p2 : F),
     (i1 < i2)%nat -> pvals !! i1 = Some p1 -> pvals !! i2 = Some p2 ->
     sort_lt p1 p2 = true) ->
  porder = seq 0 (length pvals).
Proof.
  intros [Hperm Hasc] Hstrict.
  assert (Hnd : List.NoDup porder).
  { apply (Permutation_NoDup (Permutation_sym Hperm)). apply List.seq_NoDup. }
  assert (Hin : forall r i, porder !! r = Some i -> exists p, pvals !! i = Some p).
  { intros r i Hr. apply lookup_lt_is_Some_2.
    assert (Hi : In i (seq 0 (length pvals))).
    { apply (Permutation_in _ Hperm).
      apply list_elem_of_In. eapply list_elem_of_lookup_2. exact Hr. }
    apply List.in_seq in Hi. lia. }
  assert (Hanti : AntiSymm eq lt) by (intros x y ? ?; lia).
  apply (@sorting.StronglySorted_unique nat lt Hanti porder
           (seq 0 (length pvals)));
    [|apply seq_strongly_sorted|exact Hperm].
  apply lookup_strongly_sorted. intros r1 r2 i1 i2 Hlt H1 H2.
  destruct (Hin _ _ H1) as [p1 Hp1]. destruct (Hin _ _ H2) as [p2 Hp2].
  pose proof (Hasc _ _ _ _ _ _ Hlt H1 H2 Hp1 Hp2) as Hle.
  destruct (Nat.lt_trichotomy i1 i2) as [Hl|[->|Hg]]; [exact Hl| |].
  - apply NoDup_ListNoDup in Hnd.
    pose proof (NoDup_lookup _ _ _ _ Hnd H1 H2). lia.
  - rewrite (Hstrict _ _ _ _ Hg Hp2 Hp1) in Hle. discriminate.
Qed.

Import Binary64.

(** C7. Whatever order [np.argsort] gives to equal values, [get_qvals]
    returns one q-value per p-value, in the order of the input; the entry
    for the p-value at sorted position [r] (0-based, so of 1-based ascending
    rank [r + 1], [porder] being a permutation of the positions that lists
    the p-values in ascending order) is [N * p / (r + 1)]; and in double
    precision the p-values 0.01, 0.02, 0.03, 0.5 give 0.04, 0.04, 0.04,
    0.5. *)
Theorem get_qvals_rank_formula {F : Type} (ops : FloatOps F)
    (sorter : ArgSort (ops := ops)) (pvals : list F) :
  let n := length pvals in
  let porder := argsort pvals in
  Permutation porder (seq 0 n) /\
  length (get_qvals pvals) = n /\
  (forall (r i : nat) (p : F),
     porder !! r = Some i -> pvals !! i = Some p ->
     get_qvals pvals !! i =
       Some (fdiv (fmul (of_Z (Z.of_nat n)) p) (of_Z (Z.of_nat r + 1)))) /\
  (forall (r1 r2 i1 i2 : nat) (p1 p2 : F),
     (r1 < r2)%nat -> porder !! r1 = Some i1 -> porder !! r2 = Some i2 ->
     pvals !! i1 = Some p1 -> pvals !! i2 = Some p2 ->
     sort_lt p2 p1 = false) /\
  (forall sorter64 : ArgSort (ops := binary64),
     get_qvals (ops := binary64) (sorter := sorter64)
       [lit 1 100; lit 2 100; lit 3 100; lit 1 2] =
       [lit 4 100; lit 4 100; lit 4 100; lit 1 2]).
Proof.
  intros n porder.
  assert (Hperm : Permutation porder (seq 0 n)) by apply argsort_perm.
  assert (Hlen : length porder = n) by apply argsort_length.
  split; [exact Hperm|]. split; [|split; [|split]].
  - unfold get_qvals. rewrite length_zip_with, scatter_ranks_length, length_replicate.
    fold porder. fold n. lia.
  - intros r i p Hr Hp. unfold get_qvals. fold porder. fold n.
    apply lookup_zip_with_Some. exists p, (Z.of_nat r + 1). split; [reflexivity|].
    split; [exact Hp|].
    replace (Z.of_nat r) with (Z.of_nat (0 + r)) by (f_equal; lia).
    apply scatter_ranks_lookup.
    + apply (Permutation_NoDup (Permutation_sym Hperm)). apply List.seq_NoDup.
    + exact Hr.
    + rewrite length_replicate, Hlen. now apply lookup_lt_Some in Hp.
  - apply (proj2 (argsort_sorts pvals)).
  - intros sorter64. unfold get_qvals.
    rewrite (sorts_ascending_input _ _ (argsort_sorts _)).
    + vm_compute. reflexivity.
    + intros i1 i2 p1 p2 Hlt H1 H2.
      destruct i2 as [|[|[|[|i2]]]]; try discriminate; try lia;
        destruct i1 as [|[|[|[|i1]]]]; try discriminate; try lia;
        cbn in H1, H2; injection H1 as <-; injection H2 as <-;
        vm_compute; reflexivity.
Qed.

(** Witness for C7: the third of the four p-values, in double precision,
    sorted by insertion. *)
Lemma get_qvals_rank_formula_witness :
  get_qvals (ops := binary64)
    (sorter := insertion_sorter binary64 binary64_sort_laws)
    [lit 1 100; lit 2 100; lit 3 100; lit 1 2] !! 2%nat =
    Some (fdiv (fmul (of_Z 4) (lit 3 100)) (of_Z 3)).
Proof.
  apply (proj1 (proj2 (proj2
           (get_qvals_rank_formula binary64
              (insertion_sorter binary64 binary64_sort_laws)
              [lit 1 100; lit 2 100; lit 3 100; lit 1 2]))) 2%nat 2%nat).
  - vm_compute. reflexivity.
  - reflexivity.
Defined.

(** With tied p-values the ranks still differ: one of two equal p-values
    gets the larger rank and so the smaller q-value.  Sorting by insertion
    gives it to the later one; numpy may give it to either. *)
Example get_qvals_ties :
  get_qvals (ops := binary64)
    (sorter := insertion_sorter binary64 binary64_sort_laws)
    [lit 1 10; lit 1 10] = [lit 2 10; lit 1 10].
Proof. vm_compute. reflexivity. Qed.

End QVals.

(** ** Tables

    A pandas [DataFrame] is its row labels and its columns in order, each
    column a typed [Series]; all columns of a table have as many entries
    as there are row labels. *)

Module Frame.

(** [xs[mask]] for a boolean mask. *)
Fixpoint select {A} (mask : list bool) (xs : list A) : list A :=
  match mask, xs with
  | b :: mask', x :: xs' => if b then x :: select mask' xs' else select mask' xs'
  | _, _ => []
  end.

(** The position in the original of the [i]-th selected row. *)
Fixpoint nth_true (mask : list bool) (i : nat) : option nat :=
  match mask with
  | [] => None
  | true :: mask' =>
      match i with
      | O => Some O
      | S i' => S <$> nth_true mask' i'
      end
  | false :: mask' => S <$> nth_true mask' i
  end.

(** The positions of the selected rows, in order, counted from [k]. *)
Fixpoint true_positions (k : nat) (mask : list bool) : list nat :=
  match mask with
  | [] => []
  | b :: mask' =>
      if b then k :: true_positions (S k) mask' else true_positions (S k) mask'
  end.

Section WithFloat.
Context {F : Type}.

Inductive Series : Type :=
| IntS (v : list Z)
| FloatS (v : list F)
| BoolS (v : list bool)
| ObjS (v : list string).

Definition series_length (s : Series) : nat :=
  match s with
  | IntS v => length v
  | FloatS v => length v
  | BoolS v => length v
  | ObjS v => length v
  end.

Definition series_select (mask : list bool) (s : Series) : Series :=
  match s with
  | IntS v => IntS (select mask v)
  | FloatS v => FloatS (select mask v)
  | BoolS v => BoolS (select mask v)
  | ObjS v => ObjS (select mask v)
  end.

(** One entry of a column, as a one-entry column of the same type. *)
Definition series_cell (s : Series) (i : nat) : option Series :=
  match s with
  | IntS v => (fun x => IntS [x]) <$> v !! i
  | FloatS v => (fun x => FloatS [x]) <$> v !! i
  | BoolS v => (fun x => BoolS [x]) <$> v !! i
  | ObjS v => (fun x => ObjS [x]) <$> v !! i
  end.

Record DataFrame : Type := mkDataFrame {
  index : list Z;
  columns : list (string * Series)
}.

Definition nrows (df : DataFrame) : nat := length (index df).

(** Every column is as long as the index. *)
Definition well_formed (df : DataFrame) : Prop :=
  Forall (fun c => series_length (snd c) = nrows df) (columns df).

Fixpoint lookup_col (name : string) (cols : list (string * Series))
  : option Series :=
  match cols with
  | [] => None
  | (n, s) :: rest => if String.eqb n name then Some s else lookup_col name rest
  end.

(** Assignment replaces the column of that name in place, or appends. *)
Fixpoint assign_col (name : string) (s : Series) (cols : list (string * Series))
  : list (string * Series) :=
  match cols with
  | [] => [(name, s)]
  | (n, s') :: rest =>
      if String.eqb n name then (n, s) :: rest
      else (n, s') :: assign_col name s rest
  end.

(** [df[name]] *)
Definition getitem (df : DataFrame) (name : string) : result Series :=
  match lookup_col name (columns df) with
  | Some s => Ok s
  | None => Raise (KeyError name)
  end.

(** [df[name] = s] *)
Definition setitem (df : DataFrame) (name : string) (s : Series) : DataFrame :=
  {| index := index df; columns := assign_col name s (columns df) |}.

(** [df[mask]] *)
Definition select_rows (mask : list bool) (df : DataFrame) : DataFrame :=
  {| index := select mask (index df);
     columns := map (fun c => (fst c, series_select mask (snd c))) (columns df) |}.

(** [df.reset_index(drop=True)] *)
Definition reset_index (df : DataFrame) : DataFrame :=
  {| index := map Z.of_nat (seq 0 (nrows df)); columns := columns df |}.

(** [df[names]] for a list of column names: the first absent one raises. *)
Fixpoint take_columns (df : DataFrame) (names : list string)
  : result (list (string * Series)) :=
  match names with
  | [] => Ok []
  | n :: rest =>
      let* s := getitem df n in
      let* cols := take_columns df rest in
      Ok ((n, s) :: cols)
  end.

Definition project (df : DataFrame) (names : list string) : result DataFrame :=
  let* cols := take_columns df names in
  Ok {| index := index df; columns := cols |}.

(** Typed access to one cell. *)
Definition int_at (df : DataFrame) (name : string) (i : nat) : option Z :=
  match lookup_col name (columns df) with
  | Some (IntS v) => v !! i
  | _ => None
  end.

Definition float_at (df : DataFrame) (name : string) (i : nat) : option F :=
  match lookup_col name (columns df) with
  | Some (FloatS v) => v !! i
  | _ => None
  end.

(** One cell with its type: the entry of column [name] in row [i]. *)
Definition cell_at (df : DataFrame) (name : string) (i : nat) : option Series :=
  lookup_col name (columns df) ≫= (fun s => series_cell s i).

End WithFloat.

Arguments Series : clear implicits.
Arguments DataFrame : clear implicits.

Section Lemmas.
Context {F : Type}.
Implicit Types (df : DataFrame F) (s : Series F).

Lemma select_length_le {A} (mask : list bool) (xs : list A) :
  (length (select mask xs) <= length xs)%nat.
Proof.
  revert xs. induction mask as [|b mask IH]; intros [|x xs]; cbn; try lia.
  destruct b; cbn; specialize (IH xs); lia.
Qed.

Lemma nth_true_Some (mask : list bool) (i j : nat) :
  nth_true mask i = Some j -> mask !! j = Some true.
Proof.
  revert i j. induction mask as [|b mask IH]; intros i j; cbn; [discriminate|].
  destruct b.
  - destruct i as [|i]; [intros [= <-]; reflexivity|].
    destruct (nth_true mask i) as [j'|] eqn:E; [|discriminate].
    intros [= <-]. cbn. eapply IH; eassumption.
  - destruct (nth_true mask i) as [j'|] eqn:E; [|discriminate].
    intros [= <-]. cbn. eapply IH; eassumption.
Qed.

Lemma select_lookup {A} (mask : list bool) (xs : list A) (i : nat) :
  select mask xs !! i = nth_true mask i ≫= (xs !!.).
Proof.
  revert xs i. induction mask as [|b mask IH]; intros [|x xs] i;
    try reflexivity.
  - cbn [select nth_true]. destruct b.
    + destruct i as [|i]; [reflexivity|]. now destruct (nth_true mask i).
    + now destruct (nth_true mask i).
  - cbn [select nth_true]. destruct b.
    + destruct i as [|i]; [reflexivity|]. rewrite lookup_cons, (IH xs i).
      destruct (nth_true mask i); reflexivity.
    + rewrite (IH xs i). destruct (nth_true mask i); reflexivity.
Qed.

Lemma select_lookup_lt {A} (mask : list bool) (xs : list A) (i : nat) :
  (i < length (select mask xs))%nat ->
  exists j, nth_true mask i = Some j.
Proof.
  intros Hi. apply lookup_lt_is_Some_2 in Hi as [x Hx].
  rewrite select_lookup in Hx.
  destruct (nth_true mask i) as [j|]; [eauto|discriminate].
Qed.

Lemma nth_true_mono (mask : list bool) (i i' j j' : nat) :
  (i < i')%nat -> nth_true mask i = Some j -> nth_true mask i' = Some j' ->
  (j < j')%nat.
Proof.
  revert i i' j j'. induction mask as [|b mask IH]; intros i i' j j' Hlt;
    cbn [nth_true]; [discriminate|].
  destruct b.
  - destruct i' as [|i']; [lia|].
    destruct (nth_true mask i') as [q'|] eqn:E'; [|discriminate].
    cbn. intros Hj [= <-].
    destruct i as [|i]; [injection Hj as <-; lia|].
    destruct (nth_true mask i) as [q|] eqn:E; [|discriminate].
    cbn in Hj. injection Hj as <-.
    specialize (IH i i' q q' ltac:(lia) E E'). lia.
  - destruct (nth_true mask i) as [q|] eqn:E; [|discriminate].
    destruct (nth_true mask i') as [q'|] eqn:E'; [|discriminate].
    cbn. intros [= <-] [= <-].
    specialize (IH i i' q q' Hlt E E'). lia.
Qed.

Lemma true_positions_lookup (k : nat) (mask : list bool) (i : nat) :
  true_positions k mask !! i = (fun j => (k + j)%nat) <$> nth_true mask i.
Proof.
  revert k i. induction mask as [|b mask IH]; intros k i; [reflexivity|].
  cbn [true_positions nth_true]. destruct b.
  - destruct i as [|i]; [cbn; f_equal; lia|].
    rewrite lookup_cons, IH. destruct (nth_true mask i); cbn; [f_equal; lia|reflexivity].
  - rewrite IH. destruct (nth_true mask i); cbn; [f_equal; lia|reflexivity].
Qed.

Lemma true_positions_In (k : nat) (mask : list bool) (j : nat) :
  In j (true_positions k mask) <->
  (k <= j)%nat /\ mask !! (j - k)%nat = Some true.
Proof.
  revert k. induction mask as [|b mask IH]; intros k; cbn [true_positions].
  - cbn. split; [intros []|intros [_ [=]]].
  - assert (Hstep : forall j, (S k <= j)%nat ->
              (b :: mask) !! (j - k)%nat = mask !! (j - S k)%nat).
    { intros j' Hj'. replace (j' - k)%nat with (S (j' - S k)) by lia. reflexivity. }
    destruct b; cbn [In]; rewrite IH; split.
    + intros [<-|[Hk Hm]].
      * split; [lia|]. now replace (k - k)%nat with 0%nat by lia.
      * split; [lia|]. now rewrite Hstep.
    + intros [Hk Hm]. destruct (Nat.eq_dec k j) as [->|Hne]; [now left|].
      right. split; [lia|]. now rewrite <- Hstep by lia.
    + intros [Hk Hm]. split; [lia|]. now rewrite Hstep.
    + intros [Hk Hm]. destruct (Nat.eq_dec k j) as [->|Hne].
      * replace (j - j)%nat with 0%nat in Hm by lia. discriminate.
      * split; [lia|]. now rewrite <- Hstep by lia.
Qed.

Lemma series_select_cell_at (mask : list bool) s (i : nat) :
  series_cell (series_select mask s) i = nth_true mask i ≫= series_cell s.
Proof.
  destruct s; cbn [series_cell series_select]; rewrite select_lookup;
    destruct (nth_true mask i); reflexivity.
Qed.

Lemma lookup_assign_eq (name : string) s (cols : list (string * Series F)) :
  lookup_col name (assign_col name s cols) = Some s.
Proof.
  induction cols as [|[n s'] cols IH]; cbn.
  - now rewrite String.eqb_refl.
  - destruct (String.eqb n name) eqn:E; cbn; rewrite E; [reflexivity|exact IH].
Qed.

Lemma lookup_assign_ne (name other : string) s (cols : list (string * Series F)) :
  name <> other ->
  lookup_col other (assign_col name s cols) = lookup_col other cols.
Proof.
  intros Hne. induction cols as [|[n s'] cols IH]; cbn.
  - destruct (String.eqb_spec name other); [contradiction|reflexivity].
  - destruct (String.eqb_spec n name) as [->|Hn]; cbn.
    + destruct (String.eqb_spec name other); [contradiction|reflexivity].
    + destruct (String.eqb n other); [reflexivity|exact IH].
Qed.

Lemma lookup_select (mask : list bool) (name : string)
    (cols : list (string * Series F)) :
  lookup_col name (map (fun c => (fst c, series_select mask (snd c))) cols) =
    series_select mask <$> lookup_col name cols.
Proof.
  induction cols as [|[n s] cols IH]; cbn; [reflexivity|].
  destruct (String.eqb n name); [reflexivity|exact IH].
Qed.

Lemma series_select_cell (mask : list bool) s (i j : nat) :
  nth_true mask i = Some j ->
  series_cell (series_select mask s) i = series_cell s j.
Proof.
  intros Hj.
  destruct s; cbn [series_cell series_select];
    rewrite select_lookup, Hj; reflexivity.
Qed.

End Lemmas.

End Frame.

(** ** Local enrichment scorer *)

Module Scorer.
Import Frame.

(** A dense 2-D array, as the list of its rows. *)
Abbreviation matrix A := (list (list A)).

Definition ncols {A} (X : matrix A) : nat :=
  match X with
  | [] => 0
  | row :: _ => length row
  end.

Definition has_shape {A} (n m : nat) (X : matrix A) : bool :=
  (length X =? n)%nat && forallb (fun row => (length row =? m)%nat) X.

Definition cell {A} (X : matrix A) (r c : nat) : option A :=
  X !! r ≫= (.!! c).

(** Element-wise operation on two arrays of one shape. *)
Definition map2 {A B C} (f : A -> B -> C) (X : matrix A) (Y : matrix B)
  : matrix C :=
  zip_with (zip_with f) X Y.

(** Element-wise operation that also sees the position. *)
Definition mapi2 {A B} (f : nat -> nat -> A -> B) (X : matrix A) : matrix B :=
  imap (fun r row => imap (fun c x => f r c x) row) X.

(** [X.flatten()], row-major. *)
Definition flatten {A} (X : matrix A) : list A := concat X.

(** The entry at a position given by two integers, if it is inside the
    array. *)
Definition cell_z {A} (X : matrix A) (p : Z * Z) : option A :=
  if (0 <=? fst p) && (0 <=? snd p)
  then cell X (Z.to_nat (fst p)) (Z.to_nat (snd p))
  else None.

(** The entry at a possibly out-of-range position, [cval] outside the
    array ([mode='constant']). *)
Definition at_or {A} (cval : A) (X : matrix A) (p : Z * Z) : A :=
  default cval (cell_z X p).

(** The entries of a kernel with their positions, row-major. *)
Definition entries {W} (K : matrix W) : list (Z * Z * W) :=
  concat (imap (fun a row => imap (fun b w => (Z.of_nat a, Z.of_nat b, w)) row) K).

(** The kernel reversed along both axes. *)
Definition flip {W} (K : matrix W) : matrix W := rev (map (@rev W) K).

(** The filter origin scipy uses for a convolution along an axis of the
    given length: [-1] for an even length, [0] for an odd one. *)
Definition conv_origin (len : nat) : Z := if Z.even (Z.of_nat len) then -1 else 0.

(** The position read for kernel entry [(a, b)] when the output position is
    [(r, c)]. *)
Definition tap (K_rows K_cols : nat) (r c : nat) (a b : Z) : Z * Z :=
  (Z.of_nat r + a - (Z.of_nat K_rows / 2 + conv_origin K_rows),
   Z.of_nat c + b - (Z.of_nat K_cols / 2 + conv_origin K_cols)).

(** [scipy.ndimage.correlate] of the (already reversed) weights [K], with the
    origin of a convolution: at every position the running sum, started at
    [zero], of weight times input over the entries of [K] that belong to its
    footprint, in row-major order. *)
Definition correlate {W A} (in_fp : W -> bool) (zero : A)
    (madd : A -> W -> A -> A) (K : matrix W) (cval : A) (X : matrix A)
  : matrix A :=
  mapi2 (fun r c _ =>
    fold_left (fun acc e =>
                 let '(a, b, w) := e in
                 if in_fp w
                 then madd acc w (at_or cval X (tap (length K) (ncols K) r c a b))
                 else acc)
              (entries K) zero) X.

(** The positions a convolution with [K] reads for the output position
    [(r, c)]: one per weight of the footprint. *)
Definition footprint {W} (in_fp : W -> bool) (K : matrix W) (r c : nat)
  : list (Z * Z) :=
  map (fun e => let '(a, b, _) := e in
                tap (length (flip K)) (ncols (flip K)) r c a b)
      (List.filter (fun e => in_fp (snd e)) (entries (flip K))).

(** [scipy.ndimage.convolve(X, K, mode='constant', cval=cval, origin=0)]. *)
Definition convolve {W A} (in_fp : W -> bool) (zero : A)
    (madd : A -> W -> A -> A) (K : matrix W) (cval : A) (X : matrix A)
  : matrix A :=
  correlate in_fp zero madd (flip K) cval X.

Definition b2z (b : bool) : Z := if b then 1 else 0.

(** [bal_weights]: one vector for a tile on the diagonal, a couple of
    vectors for a tile with an arbitrary origin. *)
Inductive bal_weights (F : Type) : Type :=
| Shared (v : list F)
| Separate (v_i v_j : list F).
Arguments Shared {F} v.
Arguments Separate {F} v_i v_j.

Section WithFloat.
Context {F : Type} {ops : FloatOps F}.

(** [np.outer(u, v)] *)
Definition outer (u v : list F) : matrix F :=
  map (fun a => map (fun b => fmul a b) v) u.

(** [X[np.tril_indices_from(X, k)] = np.nan]: the entries with
    [c - r <= k]. *)
Definition tril_fill_nan (k : Z) (X : matrix F) : matrix F :=
  mapi2 (fun r c x => if Z.of_nat c - Z.of_nat r <=? k then fnan else x) X.

(** [X[N] = 0.0] *)
Definition fill_zero (N : matrix bool) (X : matrix F) : matrix F :=
  map2 (fun (n : bool) x => if n then of_Z 0 else x) N X.

(** scipy sums over the weights whose magnitude exceeds [DBL_EPSILON]. *)
Definition DBL_EPSILON : F := lit 1 (2 ^ 52).
Definition in_footprint (w : F) : bool := fltb DBL_EPSILON (fabs w).

Definition convolve_float (K : matrix F) (X : matrix F) : matrix F :=
  convolve in_footprint (of_Z 0) (fun acc w x => fadd acc (fmul w x)) K (of_Z 0) X.

(** The count of flagged entries under the nonzero weights of the kernel,
    everything outside the tile counting as flagged ([cval=1]). *)
Definition convolve_count (K : matrix F) (N : matrix bool) : matrix Z :=
  convolve (fun w => negb (w =? 0)) 0 (fun acc w x => acc + w * x)
           (map (map (fun w => b2z (negb (feqb w (of_Z 0))))) K)
           1 (map (map b2z) N).

(** [_convolve_and_count_nans(O_bal, E_bal, E_raw, N_bal, kernel)]: the
    locally adjusted expected [E_raw * (KO / KE)] and the count of
    not-a-number entries in the footprint. *)
Definition convolve_and_count_nans (O_bal E_bal E_raw : matrix F)
    (N_bal : matrix bool) (kernel : matrix F) : matrix F * matrix Z :=
  let KO := convolve_float kernel O_bal in
  let KE := convolve_float kernel E_bal in
  let NN := convolve_count kernel N_bal in
  let Ek_raw := map2 fmul E_raw (map2 fdiv KO KE) in
  (Ek_raw, NN).

(** The dense arrays prepared from one tile before the loop over the
    kernels. *)
Record tile_arrays : Type := mkTile {
  O_bal : matrix F;
  E_bal : matrix F;
  E_raw : matrix F;
  N_bal : matrix bool
}.

(** The balanced observed before masking: raw observed times the outer
    product of the weights. *)
Definition balance (O_raw : matrix Z) (v_bal_i v_bal_j : list F) : matrix F :=
  map2 (fun o w => fmul (of_Z o) w) O_raw (outer v_bal_i v_bal_j).

Definition prepare_tile (io jo : Z) (O_raw : matrix Z) (expected : matrix F)
    (v_bal_i v_bal_j : list F) : tile_arrays :=
  let O_bal := balance O_raw v_bal_i v_bal_j in
  let O_bal := tril_fill_nan (io - jo - 1) O_bal in
  let E_bal := tril_fill_nan (io - jo - 1) expected in
  let E_raw := map2 fdiv E_bal (outer v_bal_i v_bal_j) in
  let N_bal := map2 (fun o e => isnan o || isnan e) O_bal E_bal in
  {| O_bal := fill_zero N_bal O_bal;
     E_bal := fill_zero N_bal E_bal;
     E_raw := E_raw;
     N_bal := N_bal |}.

(** A kernel scipy accepts for a 2-D input: a 2-D array with no empty
    axis. *)
Definition kernel_ok (K : matrix F) : bool :=
  (0 <? length K)%nat && (0 <? ncols K)%nat && has_shape (length K) (ncols K) K.

(** One turn of the loop over the kernels: the columns it adds to
    [peaks_df]. *)
Definition score_kernel (t : tile_arrays) (balance_factor : option F)
    (peaks_df : DataFrame F) (kernel_name : string) (kernel : matrix F)
  : result (DataFrame F) :=
  if negb (kernel_ok kernel) then Raise RuntimeError else
  let KO := convolve_float kernel (O_bal t) in
  let '(Ek_raw, NN) :=
    convolve_and_count_nans (O_bal t) (E_bal t) (E_raw t) (N_bal t) kernel in
  let peaks_df :=
    match balance_factor with
    | Some f =>
        if truthy f && String.eqb kernel_name "lowleft"
        then setitem peaks_df ("factor_balance." +:+ kernel_name +:+ ".KerObs")
                     (FloatS (map (fun x => fmul f x) (flatten KO)))
        else peaks_df
    | None => peaks_df
    end in
  let peaks_df :=
    setitem peaks_df ("la_exp." +:+ kernel_name +:+ ".value")
            (FloatS (flatten Ek_raw)) in
  Ok (setitem peaks_df ("la_exp." +:+ kernel_name +:+ ".nnans")
              (IntS (flatten NN))).

Fixpoint score_kernels (t : tile_arrays) (balance_factor : option F)
    (peaks_df : DataFrame F) (kernels : list (string * matrix F))
  : result (DataFrame F) :=
  match kernels with
  | [] => Ok peaks_df
  | (kernel_name, kernel) :: rest =>
      let* peaks_df := score_kernel t balance_factor peaks_df kernel_name kernel in
      score_kernels t balance_factor peaks_df rest
  end.

(** [np.isfinite] of a column. *)
Definition series_isfinite (s : Series F) : result (list bool) :=
  match s with
  | IntS v => Ok (map (fun _ => true) v)
  | FloatS v => Ok (map isfinite v)
  | BoolS v => Ok (map (fun _ => true) v)
  | ObjS _ => Raise TypeError
  end.

(** [a < b] for two columns. *)
Definition series_lt (a b : Series F) : result (list bool) :=
  match a, b with
  | IntS x, IntS y => Ok (zip_with Z.ltb x y)
  | IntS x, FloatS y => Ok (zip_with (fun p q => fltb (of_Z p) q) x y)
  | FloatS x, IntS y => Ok (zip_with (fun p q => fltb p (of_Z q)) x y)
  | FloatS x, FloatS y => Ok (zip_with fltb x y)
  | _, _ => Raise TypeError
  end.

(** The loop that accumulates, over the kernels, the mask of the rows with
    a non-finite locally adjusted expected. *)
Fixpoint nonfinite_mask (peaks_df : DataFrame F) (mask_ndx : list bool)
    (kernels : list (string * matrix F)) : result (list bool) :=
  match kernels with
  | [] => Ok mask_ndx
  | (kernel_name, _) :: rest =>
      let* col := getitem peaks_df ("la_exp." +:+ kernel_name +:+ ".value") in
      let* fin := series_isfinite col in
      let mask_ndx_kernel := map negb fin in
      nonfinite_mask peaks_df (zip_with orb mask_ndx_kernel mask_ndx) rest
  end.

(** The table before the final filter: one row per cell of the tile,
    row-major, with the bin ids shifted by the origin, the columns of every
    kernel, and the raw expected and observed. *)
Definition scored_table (origin : Z * Z) (observed : matrix Z)
    (expected : matrix F) (weights : bal_weights F)
    (kernels : list (string * matrix F)) (balance_factor : option F)
  : result (DataFrame F) :=
  let '(io, jo) := origin in
  let '(v_bal_i, v_bal_j) :=
    match weights with
    | Shared v => (v, v)
    | Separate v_i v_j => (v_i, v_j)
    end in
  let n := length observed in
  let m := ncols observed in
  if negb (has_shape n m observed && has_shape n m expected &&
           (length v_bal_i =? n)%nat && (length v_bal_j =? m)%nat)
  then Raise ValueError else
  let t := prepare_tile io jo observed expected v_bal_i v_bal_j in
  let peaks_df :=
    {| index := map Z.of_nat (seq 0 (n * m));
       columns :=
         [("bin1_id", IntS (flatten (mapi2 (fun r _ _ => Z.of_nat r + io) observed)));
          ("bin2_id", IntS (flatten (mapi2 (fun _ c _ => Z.of_nat c + jo) observed)))]
    |} in
  let* peaks_df := score_kernels t balance_factor peaks_df kernels in
  let peaks_df := setitem peaks_df "exp.raw" (FloatS (flatten (E_raw t))) in
  Ok (setitem peaks_df "obs.raw" (IntS (flatten observed))).

(** The mask of the rows that are returned: finite for every kernel and
    strictly above the diagonal. *)
Definition keep_mask (peaks_df : DataFrame F)
    (kernels : list (string * matrix F)) : result (list bool) :=
  let* mask_ndx :=
    nonfinite_mask peaks_df (map (fun _ => false) (index peaks_df)) kernels in
  let* bin1 := getitem peaks_df "bin1_id" in
  let* bin2 := getitem peaks_df "bin2_id" in
  let* upper_band := series_lt bin1 bin2 in
  Ok (zip_with andb (map negb mask_ndx) upper_band).

(** [get_adjusted_expected_tile_some_nans(origin, observed, expected,
    bal_weights, kernels, balance_factor)]. *)
Definition get_adjusted_expected_tile_some_nans (origin : Z * Z)
    (observed : matrix Z) (expected : matrix F) (weights : bal_weights F)
    (kernels : list (string * matrix F)) (balance_factor : option F)
  : result (DataFrame F) :=
  let* peaks_df :=
    scored_table origin observed expected weights kernels balance_factor in
  let* keep := keep_mask peaks_df kernels in
  Ok (reset_index (select_rows keep peaks_df)).

End WithFloat.

(** *** Column names *)

Fixpoint last_char (s : string) : option ascii :=
  match s with
  | EmptyString => None
  | String c s' =>
      match s' with
      | EmptyString => Some c
      | String _ _ => last_char s'
      end
  end.

Lemma last_char_app (s t : string) :
  t <> EmptyString -> last_char (s +:+ t) = last_char t.
Proof.
  intros Ht. induction s as [|c s IH]; [reflexivity|].
  simpl. destruct (s +:+ t) eqn:E; [|exact IH].
  destruct s; simpl in E; [contradiction|discriminate].
Qed.

Definition value_name (k : string) : string := "la_exp." +:+ k +:+ ".value".
Definition nnans_name (k : string) : string := "la_exp." +:+ k +:+ ".nnans".
Definition kerobs_name (k : string) : string :=
  "factor_balance." +:+ k +:+ ".KerObs".

Lemma value_name_last (k : string) : last_char (value_name k) = Some "e"%char.
Proof.
  unfold value_name. rewrite !last_char_app; [reflexivity|discriminate|].
  destruct k; discriminate.
Qed.

Lemma nnans_name_last (k : string) : last_char (nnans_name k) = Some "s"%char.
Proof.
  unfold nnans_name. rewrite !last_char_app; [reflexivity|discriminate|].
  destruct k; discriminate.
Qed.

Lemma nnans_ne_value (k k' : string) : nnans_name k <> value_name k'.
Proof.
  intros H. apply (f_equal last_char) in H.
  rewrite nnans_name_last, value_name_last in H. discriminate.
Qed.

(** Two column names with different first characters differ. *)
Ltac first_char_differs :=
  let H := fresh in
  intros H; apply (f_equal (String.get 0)) in H; cbv in H; discriminate.

Section Rows.
Context {F : Type} {ops : FloatOps F}.
Implicit Types (df : DataFrame F) (t : @tile_arrays F).

(** The column is a float column. *)
Definition float_col df (name : string) : Prop :=
  exists v, lookup_col name (columns df) = Some (FloatS v).

(** Row [i] lies strictly above the main diagonal, in absolute bins. *)
Definition above_diagonal df (i : nat) : Prop :=
  exists b1 b2,
    int_at df "bin1_id" i = Some b1 /\
    int_at df "bin2_id" i = Some b2 /\ b1 < b2.

(** Row [i] has a finite locally adjusted expected for every kernel. *)
Definition finite_for df (kernels : list (string * matrix F)) (i : nat) : Prop :=
  forall k K, In (k, K) kernels ->
    exists v, float_at df ("la_exp." +:+ k +:+ ".value") i = Some v /\
              isfinite v = true.

(** Row [i] of [df] is some row [j] of [full], entry by entry. *)
Definition copied_from (full df : DataFrame F) (i : nat) : Prop :=
  exists j : nat, forall name s,
    lookup_col name (columns full) = Some s ->
    exists s', lookup_col name (columns df) = Some s' /\
               series_cell s' i = series_cell s j.

(** What one turn of the loop over the kernels does to the columns: the bin
    ids are untouched, the value column of the kernel is a float column, and
    the value columns of other kernels stay float columns. *)
Lemma score_kernel_columns t bf df df' (k : string) (K : matrix F) :
  score_kernel t bf df k K = Ok df' ->
  lookup_col "bin1_id" (columns df') = lookup_col "bin1_id" (columns df) /\
  lookup_col "bin2_id" (columns df') = lookup_col "bin2_id" (columns df) /\
  float_col df' (value_name k) /\
  (forall k0, float_col df (value_name k0) -> float_col df' (value_name k0)).
Proof.
  unfold score_kernel. destruct (negb (kernel_ok K)); [discriminate|].
  cbn [convolve_and_count_nans]. intros [= <-].
  fold (value_name k) (nnans_name k) (kerobs_name k).
  set (df1 := match bf with
              | Some f => if truthy f && String.eqb k "lowleft" then _ else df
              | None => df
              end).
  assert (H1 : forall name, name <> kerobs_name k ->
             lookup_col name (columns df1) = lookup_col name (columns df)).
  { intros name Hne. subst df1. destruct bf as [f|]; [|reflexivity].
    destruct (truthy f && String.eqb k "lowleft"); [|reflexivity].
    cbn [setitem columns]. apply lookup_assign_ne. congruence. }
  unfold float_col. cbn [setitem columns]. repeat split.
  - do 2 (rewrite lookup_assign_ne; [|first_char_differs]). apply H1.
    first_char_differs.
  - do 2 (rewrite lookup_assign_ne; [|first_char_differs]). apply H1.
    first_char_differs.
  - eexists. rewrite lookup_assign_ne by apply nnans_ne_value.
    apply lookup_assign_eq.
  - intros k0 [v Hv]. rewrite lookup_assign_ne by apply nnans_ne_value.
    destruct (String.eqb_spec (value_name k) (value_name k0)) as [E|E].
    + rewrite <- E. eexists. apply lookup_assign_eq.
    + rewrite lookup_assign_ne by exact E. exists v. rewrite H1; [exact Hv|].
      first_char_differs.
Qed.

Lemma score_kernels_columns t bf (kernels : list (string * matrix F)) df df' :
  score_kernels t bf df kernels = Ok df' ->
  lookup_col "bin1_id" (columns df') = lookup_col "bin1_id" (columns df) /\
  lookup_col "bin2_id" (columns df') = lookup_col "bin2_id" (columns df) /\
  (forall k K, In (k, K) kernels -> float_col df' (value_name k)) /\
  (forall k0, float_col df (value_name k0) -> float_col df' (value_name k0)).
Proof.
  revert df. induction kernels as [|[k K] rest IH]; intros df; cbn [score_kernels].
  - intros [= <-]. repeat split; [intros k K []|tauto].
  - destruct (score_kernel t bf df k K) as [df1|e] eqn:E1; [|discriminate].
    cbn [bind]. intros Hrest.
    destruct (score_kernel_columns _ _ _ _ _ _ E1) as (A1 & A2 & A3 & A4).
    destruct (IH _ Hrest) as (B1 & B2 & B3 & B4).
    repeat split; try congruence.
    + intros k' K' [[= <- <-]|Hin]; [now apply B4|now apply (B3 _ _ Hin)].
    + intros k0 H0. now apply B4, A4.
Qed.

(** A row the accumulated mask leaves unset was unset before and is finite
    in the value column of every kernel of the loop. *)
Lemma nonfinite_mask_false df (kernels : list (string * matrix F))
    (mask0 mask : list bool) (j : nat) :
  nonfinite_mask df mask0 kernels = Ok mask ->
  mask !! j = Some false ->
  mask0 !! j = Some false /\
  forall k K v, In (k, K) kernels ->
    lookup_col (value_name k) (columns df) = Some (FloatS v) ->
    exists x, v !! j = Some x /\ isfinite x = true.
Proof.
  revert mask0. induction kernels as [|[k K] rest IH]; intros mask0;
    cbn [nonfinite_mask].
  - intros [= <-] Hj. split; [exact Hj|]. intros k K v [].
  - fold (value_name k). unfold getitem.
    destruct (lookup_col (value_name k) (columns df)) as [col|] eqn:Ecol;
      [|discriminate].
    cbn [bind].
    destruct (series_isfinite col) as [fin|e] eqn:Efin; [|discriminate].
    cbn [bind]. intros Hrest Hj.
    destruct (IH _ Hrest Hj) as [H0 Hk].
    apply lookup_zip_with_Some in H0 as (a & b & Hab & Ha & Hb).
    symmetry in Hab. apply orb_false_iff in Hab as [-> ->].
    split; [exact Hb|].
    intros k' K' v [[= <- <-]|Hin] Hv; [|now apply (Hk _ _ _ Hin)].
    rewrite Hv in Ecol. injection Ecol as <-. cbn in Efin. injection Efin as <-.
    rewrite !list_lookup_fmap in Ha.
    destruct (v !! j) as [x|]; [|discriminate]. cbn in Ha.
    exists x. split; [reflexivity|]. injection Ha as Ha.
    now apply negb_false_iff in Ha.
Qed.

Lemma tril_fill_nan_cell (k : Z) (X : matrix F) (r c : nat) :
  cell (tril_fill_nan k X) r c =
    (fun x => if Z.of_nat c - Z.of_nat r <=? k then fnan else x) <$> cell X r c.
Proof.
  unfold cell, tril_fill_nan, mapi2. rewrite list_lookup_imap.
  destruct (X !! r) as [row|]; [|reflexivity]. cbn.
  now rewrite list_lookup_imap.
Qed.

Lemma scored_table_columns (origin : Z * Z) (observed : matrix Z)
    (expected : matrix F) (weights : bal_weights F)
    (kernels : list (string * matrix F)) (bf : option F) full :
  scored_table origin observed expected weights kernels bf = Ok full ->
  (exists b1 b2,
     lookup_col "bin1_id" (columns full) = Some (IntS b1) /\
     lookup_col "bin2_id" (columns full) = Some (IntS b2)) /\
  (forall k K, In (k, K) kernels -> float_col full (value_name k)).
Proof.
  unfold scored_table. destruct origin as [io jo].
  destruct (match weights with Shared v => (v, v) | Separate v_i v_j => (v_i, v_j) end)
    as [v_bal_i v_bal_j].
  destruct (negb _); [discriminate|].
  match goal with |- context [score_kernels ?t ?b ?d ?ks] =>
    destruct (score_kernels t b d ks) as [df1|e] eqn:E end; [|discriminate].
  cbn [bind]. intros [= <-].
  destruct (score_kernels_columns _ _ _ _ _ E) as (B1 & B2 & B3 & _).
  cbn [columns lookup_col] in B1, B2.
  rewrite String.eqb_refl in B1.
  change (String.eqb "bin1_id" "bin2_id") with false in B2.
  rewrite String.eqb_refl in B2.
  unfold float_col. cbn [setitem columns]. split.
  - do 2 eexists. split.
    + do 2 (rewrite lookup_assign_ne; [|first_char_differs]). exact B1.
    + do 2 (rewrite lookup_assign_ne; [|first_char_differs]). exact B2.
  - intros k K Hin. destruct (B3 _ _ Hin) as [v Hv]. exists v.
    do 2 (rewrite lookup_assign_ne; [|first_char_differs]). exact Hv.
Qed.

End Rows.

(** *** Cells of the prepared arrays and of a convolution *)

Lemma cell_map2 {A B C} (f : A -> B -> C) (X : matrix A) (Y : matrix B)
    (r c : nat) :
  cell (map2 f X Y) r c =
    match cell X r c, cell Y r c with
    | Some x, Some y => Some (f x y)
    | _, _ => None
    end.
Proof.
  unfold cell, map2. rewrite lookup_zip_with.
  destruct (X !! r) as [rx|]; cbn; [|reflexivity].
  destruct (Y !! r) as [ry|]; cbn.
  - rewrite lookup_zip_with. destruct (rx !! c), (ry !! c); reflexivity.
  - destruct (rx !! c); reflexivity.
Qed.

Lemma cell_mapi2 {A B} (f : nat -> nat -> A -> B) (X : matrix A) (r c : nat) :
  cell (mapi2 f X) r c = f r c <$> cell X r c.
Proof.
  unfold cell, mapi2. rewrite list_lookup_imap.
  destruct (X !! r) as [row|]; [|reflexivity]. cbn.
  now rewrite list_lookup_imap.
Qed.



Section Prepared.
Context {F : Type} {ops : FloatOps F}.

(** What masking and zero-filling leave at one position, from the two
    balanced entries there. *)
Definition masked (io jo : Z) (r c : nat) (x : F) : F :=
  if Z.of_nat c - Z.of_nat r <=? io - jo - 1 then fnan else x.

Definition filled (io jo : Z) (r c : nat) (o e x : F) : F :=
  if isnan (masked io jo r c o) || isnan (masked io jo r c e)
  then of_Z 0 else masked io jo r c x.

Lemma prepare_tile_cells (io jo : Z) (observed : matrix Z) (expected : matrix F)
    (v_bal_i v_bal_j : list F) (r c : nat) :
  let t := prepare_tile io jo observed expected v_bal_i v_bal_j in
  let O0 := balance observed v_bal_i v_bal_j in
  cell (O_bal t) r c =
    match cell O0 r c, cell expected r c with
    | Some o, Some e => Some (filled io jo r c o e o)
    | _, _ => None
    end /\
  cell (E_bal t) r c =
    match cell O0 r c, cell expected r c with
    | Some o, Some e => Some (filled io jo r c o e e)
    | _, _ => None
    end /\
  cell (E_raw t) r c =
    match cell expected r c, cell (outer v_bal_i v_bal_j) r c with
    | Some e, Some w => Some (fdiv (masked io jo r c e) w)
    | _, _ => None
    end.
Proof.
  cbn zeta. unfold prepare_tile. cbn [O_bal E_bal E_raw]. unfold fill_zero.
  rewrite !cell_map2, !tril_fill_nan_cell. unfold filled, masked.
  destruct (cell (balance observed v_bal_i v_bal_j) r c) as [o|],
           (cell expected r c) as [e|]; cbn; repeat split; try reflexivity;
    destruct (cell (outer v_bal_i v_bal_j) r c); reflexivity.
Qed.


End Prepared.

Import Binary64.

(** Every row of the table returned by
    [get_adjusted_expected_tile_some_nans] has [bin1_id < bin2_id] and, for
    every kernel [k], a finite [la_exp.k.value]; the row is a row of the
    unfiltered table with its entries unchanged. *)
Lemma kept_rows_upper_finite {F : Type} {ops : FloatOps F}
    (origin : Z * Z) (observed : matrix Z) (expected : matrix F)
    (weights : bal_weights F) (kernels : list (string * matrix F))
    (balance_factor : option F) (df : DataFrame F) :
  get_adjusted_expected_tile_some_nans origin observed expected weights
    kernels balance_factor = Ok df ->
  exists full keep,
    scored_table origin observed expected weights kernels balance_factor
      = Ok full /\
    df = reset_index (select_rows keep full) /\
    forall i : nat, (i < nrows df)%nat ->
      above_diagonal df i /\ finite_for df kernels i /\ copied_from full df i.
Proof.
  intros Hrun.
  unfold get_adjusted_expected_tile_some_nans in Hrun.
  destruct (scored_table _ _ _ _ _ _) as [full|e] eqn:Efull; [|discriminate].
  cbn [bind] in Hrun.
  destruct (keep_mask full kernels) as [keep|e] eqn:Ekeep; [|discriminate].
  cbn [bind] in Hrun. injection Hrun as <-.
  exists full, keep. split; [reflexivity|]. split; [reflexivity|].
  destruct (scored_table_columns _ _ _ _ _ _ _ Efull)
    as ((b1 & b2 & Hb1 & Hb2) & Hval).
  unfold keep_mask, getitem in Ekeep.
  destruct (nonfinite_mask full _ kernels) as [mask|e] eqn:Emask; [|discriminate].
  rewrite Hb1, Hb2 in Ekeep. cbn [bind series_lt] in Ekeep.
  injection Ekeep as <-.
  intros i Hi. unfold nrows, reset_index in Hi. cbn [index select_rows] in Hi.
  rewrite length_map, length_seq in Hi. unfold nrows in Hi. cbn [index] in Hi.
  destruct (select_lookup_lt _ _ _ Hi) as [j Hj].
  pose proof (nth_true_Some _ _ _ Hj) as Hkeep.
  apply lookup_zip_with_Some in Hkeep as (a & u & Hau & Ha & Hu).
  symmetry in Hau. apply andb_true_iff in Hau as [-> ->].
  rewrite list_lookup_fmap in Ha.
  destruct (mask !! j) as [mj|] eqn:Emj; [|discriminate].
  cbn in Ha. injection Ha as Ha. apply negb_true_iff in Ha. subst mj.
  apply lookup_zip_with_Some in Hu as (x & y & Hxy & Hx & Hy).
  symmetry in Hxy. apply Z.ltb_lt in Hxy.
  destruct (nonfinite_mask_false _ _ _ _ _ Emask Emj) as [_ Hfin].
  repeat split.
  + exists x, y. unfold int_at. cbn [reset_index select_rows columns].
    rewrite !lookup_select, Hb1, Hb2. cbn [fmap option_fmap option_map series_select].
    rewrite !select_lookup, Hj. cbn. auto.
  + intros k K Hin. destruct (Hval _ _ Hin) as [v Hv].
    destruct (Hfin _ _ _ Hin Hv) as (xv & Hxv & Hfv).
    exists xv. split; [|exact Hfv].
    unfold float_at. cbn [reset_index select_rows columns].
    fold (value_name k). rewrite lookup_select, Hv.
    cbn [fmap option_fmap option_map series_select].
    rewrite select_lookup, Hj. exact Hxv.
  + exists j. intros name s Hs.
    cbn [reset_index select_rows columns].
    rewrite lookup_select, Hs. eexists. split; [reflexivity|].
    now apply series_select_cell.
Qed.

(** A 4 x 4 tile on the diagonal with one elevated count, a uniform
    expected, unit weights and a donut-like kernel, in double precision. *)
Definition small_observed : matrix Z :=
  [[2; 2; 2; 2]; [2; 2; 8; 2]; [2; 8; 2; 2]; [2; 2; 2; 2]].
Definition small_expected : matrix float :=
  map (map (fun _ : Z => of_Z 2)) small_observed.
Definition unit_weights : list float := [of_Z 1; of_Z 1; of_Z 1; of_Z 1].
Definition donut3 : matrix float :=
  [[of_Z 1; of_Z 1; of_Z 1]; [of_Z 1; of_Z 0; of_Z 1]; [of_Z 1; of_Z 1; of_Z 1]].


(** A 3 x 3 tile far above the diagonal: every count is 2, every weight 1,
    the expected is 2 everywhere; and the all-ones 3 x 3 kernel. *)
Definition flat_observed : matrix Z := [[2; 2; 2]; [2; 2; 2]; [2; 2; 2]].
Definition flat_expected : matrix float :=
  map (map (fun _ : Z => of_Z 2)) flat_observed.
Definition flat_weights : list float := [of_Z 1; of_Z 1; of_Z 1].
Definition ones3 : matrix float :=
  map (map (fun _ : Z => of_Z 1)) flat_observed.



End Scorer.

(** ** Histograms of observed counts per lambda-bin

    The histogram of one kernel is a table with one column per lambda-bin, in
    the order of the bin edges, and one row per observed count [0, 1, ...]:
    a column is the [np.bincount] vector of its bin, padded with zeros to
    the common number of rows.  All tables of one run are built from the
    same edges, so they have the same columns; only the number of rows
    varies from tile to tile. *)

Module Hist.

(** A table, as the list of its columns. *)
Abbreviation table := (list (list Z)).

(** The dictionary from kernel name to table. *)
Abbreviation hists := (gmap string (list (list Z))).

(** Two count vectors added entry by entry, the shorter one continued with
    zeros ([fill_value=0]). *)
Fixpoint add_fill (x y : list Z) : list Z :=
  match x, y with
  | [], _ => y
  | _, [] => x
  | a :: x', b :: y' => (a + b) :: add_fill x' y'
  end.

(** [x.add(y, fill_value=0).astype(np.integer)] for two tables with the same
    columns.  With different columns pandas would leave not-a-number in the
    entries neither table has; such tables are never built here and the
    model raises. *)
Definition table_add (x y : table) : result table :=
  if decide (length x = length y) then Ok (zip_with add_fill x y)
  else Raise ValueError.

(** [h[k]] *)
Definition dict_get (h : hists) (k : string) : result table :=
  match h !! k with
  | Some t => Ok t
  | None => Raise (KeyError k)
  end.

Fixpoint sum_hists_loop (kernels : list string) (hx hy hxy : hists)
  : result hists :=
  match kernels with
  | [] => Ok hxy
  | k :: rest =>
      let* tx := dict_get hx k in
      let* ty := dict_get hy k in
      let* t := table_add tx ty in
      sum_hists_loop rest hx hy (<[k := t]> hxy)
  end.

(** [_sum_hists(hx, hy)], for the kernels of the enclosing call. *)
Definition _sum_hists (kernels : list string) (hx hy : hists) : result hists :=
  sum_hists_loop kernels hx hy ∅.

(** [functools.reduce(f, l)]: an empty sequence raises, a single element is
    returned as it is, and an exception of [f] ends the reduction. *)
Definition reduce {A} (f : A -> A -> result A) (l : list A) : result A :=
  match l with
  | [] => Raise TypeError
  | h :: rest => fold_left (fun acc x => let* a := acc in f a x) rest (Ok h)
  end.

(** The histograms of one tile: a table with [W] columns for every kernel,
    every column with the same number of rows. *)
Definition table_ok (W : nat) (t : table) : Prop :=
  length t = W /\ exists n, Forall (fun col => length col = n) t.

Definition hists_ok (kernels : list string) (W : nat) (h : hists) : Prop :=
  forall k, In k kernels -> exists t, h !! k = Some t /\ table_ok W t.

(** The merge without its error cases. *)
Definition merge_tables (x y : table) : table := zip_with add_fill x y.

Definition merge_hists (kernels : list string) (hx hy : hists) : hists :=
  list_to_map
    (map (fun k => (k, merge_tables (default [] (hx !! k)) (default [] (hy !! k))))
         kernels).

Lemma add_fill_comm (x y : list Z) : add_fill x y = add_fill y x.
Proof.
  revert y. induction x as [|a x IH]; intros [|b y]; cbn; try reflexivity.
  f_equal; [lia|apply IH].
Qed.

Lemma add_fill_assoc (x y z : list Z) :
  add_fill (add_fill x y) z = add_fill x (add_fill y z).
Proof.
  revert y z. induction x as [|a x IH]; intros [|b y] [|c z]; cbn;
    try reflexivity.
  f_equal; [lia|apply IH].
Qed.

Lemma add_fill_length (x y : list Z) :
  length (add_fill x y) = Nat.max (length x) (length y).
Proof.
  revert y. induction x as [|a x IH]; intros [|b y]; cbn; try reflexivity.
  now rewrite IH.
Qed.

Lemma merge_tables_comm (x y : table) : merge_tables x y = merge_tables y x.
Proof.
  unfold merge_tables. revert y.
  induction x as [|a x IH]; intros [|b y]; cbn; try reflexivity.
  f_equal; [apply add_fill_comm|apply IH].
Qed.

Lemma merge_tables_assoc (x y z : table) :
  merge_tables (merge_tables x y) z = merge_tables x (merge_tables y z).
Proof.
  unfold merge_tables. revert y z.
  induction x as [|a x IH]; intros [|b y] [|c z]; cbn; try reflexivity.
  f_equal; [apply add_fill_assoc|apply IH].
Qed.

Lemma merge_tables_ok (W : nat) (x y : table) :
  table_ok W x -> table_ok W y -> table_ok W (merge_tables x y).
Proof.
  intros [Hx [n Hn]] [Hy [m Hm]]. split.
  - unfold merge_tables. rewrite length_zip_with. lia.
  - exists (Nat.max n m). unfold merge_tables.
    clear Hx Hy. revert y Hm. induction Hn as [|a x Ha Hn IH]; intros y Hm.
    + constructor.
    + destruct Hm as [|b y Hb Hm]; cbn; constructor.
      * rewrite add_fill_length. lia.
      * now apply IH.
Qed.

Lemma merge_hists_lookup (kernels : list string) (hx hy : hists) (k : string) :
  (In k kernels ->
   merge_hists kernels hx hy !! k =
     Some (merge_tables (default [] (hx !! k)) (default [] (hy !! k)))) /\
  (~ In k kernels -> merge_hists kernels hx hy !! k = None).
Proof.
  unfold merge_hists. induction kernels as [|k0 rest [IH1 IH2]];
    cbn [map list_to_map foldr].
  - split; [intros []|intros _; apply lookup_empty].
  - destruct (decide (k0 = k)) as [->|Hne].
    + rewrite lookup_insert_eq. split; [reflexivity|].
      intros Hn. exfalso. apply Hn. now left.
    + rewrite lookup_insert_ne by exact Hne. split.
      * intros [?|Hin]; [congruence|now apply IH1].
      * intros Hn. apply IH2. intros Hin. apply Hn. now right.
Qed.

Lemma merge_hists_ok (kernels : list string) (W : nat) (hx hy : hists) :
  hists_ok kernels W hx -> hists_ok kernels W hy ->
  hists_ok kernels W (merge_hists kernels hx hy).
Proof.
  intros Hx Hy k Hk.
  rewrite (proj1 (merge_hists_lookup kernels hx hy k) Hk).
  destruct (Hx k Hk) as (tx & -> & Hox), (Hy k Hk) as (ty & -> & Hoy).
  eexists. split; [reflexivity|]. now apply merge_tables_ok.
Qed.

Lemma merge_hists_comm (kernels : list string) (hx hy : hists) :
  merge_hists kernels hx hy = merge_hists kernels hy hx.
Proof.
  apply map_eq. intros k.
  destruct (List.in_dec String.string_dec k kernels) as [Hin|Hnin].
  - rewrite !(proj1 (merge_hists_lookup _ _ _ _) Hin).
    f_equal. apply merge_tables_comm.
  - now rewrite !(proj2 (merge_hists_lookup _ _ _ _) Hnin).
Qed.

Lemma merge_hists_assoc (kernels : list string) (hx hy hz : hists) :
  merge_hists kernels (merge_hists kernels hx hy) hz =
  merge_hists kernels hx (merge_hists kernels hy hz).
Proof.
  apply map_eq. intros k.
  destruct (List.in_dec String.string_dec k kernels) as [Hin|Hnin].
  - rewrite !(proj1 (merge_hists_lookup _ _ _ _) Hin). cbn [default].
    f_equal. apply merge_tables_assoc.
  - now rewrite !(proj2 (merge_hists_lookup _ _ _ _) Hnin).
Qed.

(** On the histograms of tiles, [_sum_hists] does not raise and is the
    merge. *)
Lemma sum_hists_merge (kernels : list string) (W : nat) (hx hy : hists) :
  hists_ok kernels W hx -> hists_ok kernels W hy ->
  _sum_hists kernels hx hy = Ok (merge_hists kernels hx hy).
Proof.
  intros Hx Hy. unfold _sum_hists.
  set (entry := fun k : string =>
         merge_tables (default [] (hx !! k)) (default [] (hy !! k))).
  assert (G : forall ks acc, (forall k, In k ks -> In k kernels) ->
    sum_hists_loop ks hx hy acc =
      Ok (fold_left (fun m k => <[k := entry k]> m) ks acc)).
  { induction ks as [|k ks IH]; intros acc Hsub; cbn [sum_hists_loop fold_left];
      [reflexivity|].
    destruct (Hx k (Hsub k (or_introl eq_refl))) as (tx & Etx & [Hlx _]).
    destruct (Hy k (Hsub k (or_introl eq_refl))) as (ty & Ety & [Hly _]).
    unfold dict_get, table_add. rewrite Etx, Ety. cbn [bind].
    destruct (decide (length tx = length ty)) as [_|n]; [|lia].
    cbn [bind]. rewrite IH by (intros k' Hk'; apply Hsub; now right).
    subst entry. cbn beta. rewrite Etx, Ety. reflexivity. }
  rewrite G by auto. f_equal. apply map_eq. intros k.
  assert (L : forall ks (acc : hists),
    (In k ks -> fold_left (fun m k0 => <[k0 := entry k0]> m) ks acc !! k
                = Some (entry k)) /\
    (~ In k ks -> fold_left (fun m k0 => <[k0 := entry k0]> m) ks acc !! k
                  = acc !! k)).
  { induction ks as [|k0 ks IH]; intros acc; cbn [fold_left].
    - split; [intros []|reflexivity].
    - destruct (IH (<[k0 := entry k0]> acc)) as [IH1 IH2].
      destruct (List.in_dec String.string_dec k ks) as [Hin|Hnin].
      + split; [intros _; now apply IH1|].
        intros Hn. exfalso. apply Hn. now right.
      + rewrite (IH2 Hnin). destruct (decide (k0 = k)) as [->|Hne].
        * rewrite lookup_insert_eq. split; [reflexivity|].
          intros Hn. exfalso. apply Hn. now left.
        * rewrite lookup_insert_ne by exact Hne. split; [|reflexivity].
          intros [?|?]; [congruence|contradiction]. }
  destruct (L kernels ∅) as [L1 L2].
  destruct (List.in_dec String.string_dec k kernels) as [Hin|Hnin].
  - rewrite (L1 Hin), (proj1 (merge_hists_lookup _ _ _ _) Hin). reflexivity.
  - rewrite (L2 Hnin), (proj2 (merge_hists_lookup _ _ _ _) Hnin).
    apply lookup_empty.
Qed.

Lemma reduce_merge (kernels : list string) (W : nat) (h : hists)
    (rest : list hists) :
  hists_ok kernels W h -> Forall (hists_ok kernels W) rest ->
  reduce (_sum_hists kernels) (h :: rest) =
    Ok (fold_left (merge_hists kernels) rest h) /\
  hists_ok kernels W (fold_left (merge_hists kernels) rest h).
Proof.
  cbn [reduce]. revert h. induction rest as [|x rest IH]; intros h Hh Hrest.
  - split; [reflexivity|exact Hh].
  - apply List.Forall_cons_iff in Hrest as [Hx Hrest]. cbn [fold_left bind].
    rewrite (sum_hists_merge kernels W h x Hh Hx).
    apply IH; [now apply merge_hists_ok|exact Hrest].
Qed.

Lemma fold_merge_perm (kernels : list string) (W : nat) (l l' : list hists) :
  Permutation l l' -> Forall (hists_ok kernels W) l ->
  forall a, hists_ok kernels W a ->
  fold_left (merge_hists kernels) l a = fold_left (merge_hists kernels) l' a.
Proof.
  induction 1 as [|x l l' Hp IH|x y l|l1 l2 l3 Hp1 IH1 Hp2 IH2];
    intros Hok a Ha; cbn [fold_left].
  - reflexivity.
  - apply List.Forall_cons_iff in Hok as [Hx Hok].
    apply IH; [exact Hok|now apply merge_hists_ok].
  - f_equal. rewrite !merge_hists_assoc. f_equal. apply merge_hists_comm.
  - rewrite IH1 by assumption. apply IH2; [|exact Ha].
    eapply Permutation_Forall; eassumption.
Qed.

Lemma reduce_perm (kernels : list string) (W : nat) (l l' : list hists) :
  Permutation l l' -> Forall (hists_ok kernels W) l ->
  reduce (_sum_hists kernels) l = reduce (_sum_hists kernels) l'.
Proof.
  induction 1 as [|x l l' Hp IH|x y l|l1 l2 l3 Hp1 IH1 Hp2 IH2]; intros Hok.
  - reflexivity.
  - apply List.Forall_cons_iff in Hok as [Hx Hok].
    assert (Hok' : Forall (hists_ok kernels W) l')
      by (eapply Permutation_Forall; eassumption).
    rewrite (proj1 (reduce_merge kernels W x l Hx Hok)).
    rewrite (proj1 (reduce_merge kernels W x l' Hx Hok')).
    f_equal. now apply (fold_merge_perm kernels W).
  - apply List.Forall_cons_iff in Hok as [Hy Hok].
    apply List.Forall_cons_iff in Hok as [Hx Hok].
    rewrite (proj1 (reduce_merge kernels W y (x :: l) Hy
                      ltac:(constructor; assumption))).
    rewrite (proj1 (reduce_merge kernels W x (y :: l) Hx
                      ltac:(constructor; assumption))).
    cbn [fold_left]. now rewrite merge_hists_comm.
  - rewrite IH1 by assumption. apply IH2.
    eapply Permutation_Forall; eassumption.
Qed.

(** C4. On the histograms of tiles (one table per kernel, all with the
    columns of the same lambda-bins) [_sum_hists] never raises, is
    commutative and associative, and reducing a sequence of them gives the
    same final histogram for every ordering of the sequence. *)
Theorem sum_hists_order_independent (kernels : list string) (W : nat)
    (hchunks hchunks' : list hists) :
  Forall (hists_ok kernels W) hchunks ->
  Permutation hchunks hchunks' ->
  reduce (_sum_hists kernels) hchunks = reduce (_sum_hists kernels) hchunks' /\
  (hchunks <> [] ->
   exists final, reduce (_sum_hists kernels) hchunks = Ok final /\
                 hists_ok kernels W final) /\
  (forall hx hy hz : hists,
     hists_ok kernels W hx -> hists_ok kernels W hy -> hists_ok kernels W hz ->
     _sum_hists kernels hx hy = _sum_hists kernels hy hx /\
     (let* a := _sum_hists kernels hx hy in _sum_hists kernels a hz) =
     (let* b := _sum_hists kernels hy hz in _sum_hists kernels hx b)).
Proof.
  intros Hok Hperm. split; [now apply (reduce_perm kernels W)|]. split.
  - destruct hchunks as [|h rest]; [congruence|]. intros _.
    apply List.Forall_cons_iff in Hok as [Hh Hrest].
    destruct (reduce_merge kernels W h rest Hh Hrest) as [-> Hfin]. eauto.
  - intros hx hy hz Hx Hy Hz. split.
    + rewrite (sum_hists_merge kernels W hx hy Hx Hy),
              (sum_hists_merge kernels W hy hx Hy Hx).
      f_equal. apply merge_hists_comm.
    + rewrite (sum_hists_merge kernels W hx hy Hx Hy),
              (sum_hists_merge kernels W hy hz Hy Hz). cbn [bind].
      rewrite (sum_hists_merge kernels W _ hz (merge_hists_ok _ _ _ _ Hx Hy) Hz),
              (sum_hists_merge kernels W hx _ Hx (merge_hists_ok _ _ _ _ Hy Hz)).
      f_equal. apply merge_hists_assoc.
Qed.

(** The histograms of three tiles for two kernels and two lambda-bins. *)
Definition tile_a : hists :=
  {[ "donut"%string := [[1; 2]; [0; 1]]; "lowleft"%string := [[3; 0]; [0; 0]] ]}.
Definition tile_b : hists :=
  {[ "donut"%string := [[0; 1; 1]; [0; 0; 0]];
     "lowleft"%string := [[1; 1; 1]; [0; 0; 0]] ]}.
Definition tile_c : hists :=
  {[ "donut"%string := [[5]; [0]]; "lowleft"%string := [[2]; [0]] ]}.
Definition two_kernels : list string := ["donut"%string; "lowleft"%string].

Lemma tiles_ok :
  Forall (hists_ok two_kernels 2) [tile_a; tile_b; tile_c].
Proof.
  repeat constructor; intros k [<-|[<-|[]]]; eexists;
    (split; [vm_compute; reflexivity|]);
    (split; [reflexivity|]); eexists; repeat constructor.
Qed.

(** Witness for C4: three tiles reduced in two orders. *)
Lemma sum_hists_order_independent_witness :
  reduce (_sum_hists two_kernels) [tile_a; tile_b; tile_c] =
  reduce (_sum_hists two_kernels) [tile_c; tile_a; tile_b].
Proof.
  assert (Hperm : Permutation [tile_a; tile_b; tile_c] [tile_c; tile_a; tile_b])
    by apply (Permutation_app_comm [tile_a; tile_b] [tile_c]).
  exact (proj1 (sum_hists_order_independent two_kernels 2
                  [tile_a; tile_b; tile_c] [tile_c; tile_a; tile_b]
                  tiles_ok Hperm)).
Defined.

(** *** The check of the top bin *)

Definition sum_list (l : list Z) : Z := fold_right Z.add 0 l.

(** The total count in the last column of the table of kernel [k]. *)
Definition top_sum (h : hists) (k : string) : Z :=
  match h !! k ≫= last with
  | Some col => sum_list col
  | None => 0
  end.

(** [t.drop(columns=t.columns[-1])] *)
Definition drop_last (t : table) : table := removelast t.

Section TopBin.
(** How the label of the column of a lambda-bin is printed. *)
Variable format_bin : nat -> string.

Definition top_bin_message (k : string) (bin : nat) : string :=
  "There are la_exp." +:+ k +:+ ".value in " +:+ format_bin bin
    +:+ ", please check the histogram".

(** The loop over the kernels after the reduction: assert that the last
    column sums to zero, then drop it. *)
Fixpoint check_top_bins (kernels : list string) (final_hist : hists)
  : result hists :=
  match kernels with
  | [] => Ok final_hist
  | k :: rest =>
      let* t := dict_get final_hist k in
      match last t with
      | None => Raise IndexError
      | Some last_la_exp_vals =>
          let last_la_exp_bin := (length t - 1)%nat in
          if sum_list last_la_exp_vals =? 0
          then check_top_bins rest (<[k := drop_last t]> final_hist)
          else Raise (AssertionError (top_bin_message k last_la_exp_bin))
      end
  end.

(** [scoring_and_histogramming_step], from the histograms of the tiles
    ([hchunks], what mapping the per-tile job returns) onwards. *)
Definition scoring_and_histogramming_step (kernels : list string)
    (hchunks : list hists) : result hists :=
  let* final_hist := reduce (_sum_hists kernels) hchunks in
  check_top_bins kernels final_hist.

Lemma top_sum_insert_ne (h : hists) (k k' : string) (t : table) :
  k <> k' -> top_sum (<[k := t]> h) k' = top_sum h k'.
Proof. intros Hne. unfold top_sum. now rewrite lookup_insert_ne. Qed.

Lemma check_top_bins_spec (W : nat) (kernels : list string) (h : hists) :
  (0 < W)%nat -> List.NoDup kernels ->
  (forall k, In k kernels -> exists t, h !! k = Some t /\ length t = W) ->
  match check_top_bins kernels h with
  | Ok out =>
      (forall k, In k kernels -> top_sum h k = 0) /\
      (forall k, In k kernels -> out !! k = drop_last <$> h !! k) /\
      (forall k, ~ In k kernels -> out !! k = h !! k)
  | Raise e =>
      exists k, In k kernels /\ top_sum h k <> 0 /\
                e = AssertionError (top_bin_message k (W - 1))
  end.
Proof.
  intros HW. revert h. induction kernels as [|k rest IH]; intros h Hnd Hk;
    cbn [check_top_bins].
  - repeat split; intros k []. 
  - apply List.NoDup_cons_iff in Hnd as [Hnotin Hnd].
    destruct (Hk k (or_introl eq_refl)) as (t & Et & Hlen).
    unfold dict_get. rewrite Et. cbn [bind].
    destruct (last t) as [col|] eqn:Elast.
    2:{ apply last_None in Elast. subst t. cbn in Hlen. lia. }
    assert (Htop : top_sum h k = sum_list col).
    { unfold top_sum. rewrite Et. cbn. now rewrite Elast. }
    destruct (Z.eqb_spec (sum_list col) 0) as [Hz|Hnz].
    + specialize (IH (<[k := drop_last t]> h) Hnd).
      assert (Hk' : forall k', In k' rest ->
                exists t', <[k := drop_last t]> h !! k' = Some t' /\ length t' = W).
      { intros k' Hin. rewrite lookup_insert_ne by (intros ->; contradiction).
        apply Hk. now right. }
      specialize (IH Hk').
      destruct (check_top_bins rest (<[k := drop_last t]> h)) as [out|e].
      * destruct IH as (I1 & I2 & I3). repeat split.
        -- intros k' [<-|Hin]; [congruence|].
           rewrite <- (I1 k' Hin). symmetry. apply top_sum_insert_ne.
           intros ->. contradiction.
        -- intros k' [<-|Hin].
           ++ rewrite (I3 k Hnotin), lookup_insert_eq, Et. reflexivity.
           ++ rewrite (I2 k' Hin), lookup_insert_ne by (intros ->; contradiction).
              reflexivity.
        -- intros k' Hn. rewrite I3 by (intros Hin; apply Hn; now right).
           apply lookup_insert_ne. intros ->. apply Hn. now left.
      * destruct IH as (k' & Hin & Hne & ->). exists k'.
        split; [now right|]. split; [|reflexivity].
        rewrite top_sum_insert_ne in Hne by (intros ->; contradiction).
        exact Hne.
    + exists k. split; [now left|]. split; [congruence|]. now rewrite Hlen.
Qed.

(** C5. For histograms of tiles with at least one lambda-bin, the step
    merges them ([merged]) and then either raises the assertion error whose
    message names a kernel with a nonzero total in its last column, and
    that column, or returns [merged] with the last column of every
    kernel's table dropped: of the [W] columns of a kernel the result keeps
    the first [W - 1], in their order, and the one it drops sums to zero.
    It raises exactly when some kernel has a nonzero total in its last
    column. *)
Theorem top_bin_check (W : nat) (kernels : list string) (hchunks : list hists) :
  (0 < W)%nat -> List.NoDup kernels -> hchunks <> [] ->
  Forall (hists_ok kernels W) hchunks ->
  exists merged,
    reduce (_sum_hists kernels) hchunks = Ok merged /\
    ((exists k, In k kernels /\ top_sum merged k <> 0) <->
     (exists k, In k kernels /\ top_sum merged k <> 0 /\
        scoring_and_histogramming_step kernels hchunks =
          Raise (AssertionError (top_bin_message k (W - 1))))) /\
    ((forall k, In k kernels -> top_sum merged k = 0) ->
     exists out,
       scoring_and_histogramming_step kernels hchunks = Ok out /\
       (forall k, In k kernels ->
          exists (t : table) (col : list Z),
            merged !! k = Some (t ++ [col]) /\ sum_list col = 0 /\
            out !! k = Some t /\ length t = (W - 1)%nat) /\
       (forall k, ~ In k kernels -> out !! k = merged !! k)) /\
    (forall e, scoring_and_histogramming_step kernels hchunks = Raise e ->
       exists k, In k kernels /\ top_sum merged k <> 0 /\
                 e = AssertionError (top_bin_message k (W - 1))).
Proof.
  intros HW Hnd Hne Hok.
  destruct hchunks as [|h rest]; [congruence|].
  apply List.Forall_cons_iff in Hok as [Hh Hrest].
  destruct (reduce_merge kernels W h rest Hh Hrest) as [Hred Hmok].
  exists (fold_left (merge_hists kernels) rest h). split; [exact Hred|].
  set (merged := fold_left (merge_hists kernels) rest h) in *.
  unfold scoring_and_histogramming_step. rewrite Hred. cbn [bind].
  assert (Hcols : forall k, In k kernels ->
            exists t, merged !! k = Some t /\ length t = W).
  { intros k Hk. destruct (Hmok k Hk) as (t & Et & [Hl _]). eauto. }
  pose proof (check_top_bins_spec W kernels merged HW Hnd Hcols) as Hspec.
  destruct (check_top_bins kernels merged) as [out|e].
  - destruct Hspec as (S1 & S2 & S3). repeat split.
    + intros (k & Hk & Hnz). exfalso. apply Hnz. now apply S1.
    + intros (k & Hk & Hnz & _). eauto.
    + intros _. exists out. split; [reflexivity|]. split; [|exact S3].
      intros k Hk. destruct (Hcols k Hk) as (t0 & Et0 & Hlen).
      pose proof (S1 k Hk) as Hz. unfold top_sum in Hz. rewrite Et0 in Hz.
      cbn in Hz. destruct (last t0) as [col|] eqn:Elast.
      2:{ apply last_None in Elast. subst t0. cbn in Hlen. lia. }
      apply last_Some in Elast as [t ->].
      exists t, col. split; [exact Et0|]. split; [exact Hz|].
      split.
      * rewrite (S2 k Hk), Et0. cbn. unfold drop_last.
        now rewrite List.removelast_last.
      * rewrite length_app in Hlen. cbn in Hlen. lia.
    + intros e [=].
  - destruct Hspec as (k & Hk & Hnz & ->). repeat split.
    + intros _. exists k. repeat split; assumption.
    + intros (k' & Hk' & Hnz' & _). eauto.
    + intros Hall. exfalso. apply Hnz. now apply Hall.
    + intros e [= <-]. exists k. repeat split; assumption.
Qed.

End TopBin.

(** The tables of one kernel after three tiles were merged in any order. *)
Example merged_donut :
  (let* final := reduce (_sum_hists two_kernels) [tile_c; tile_a; tile_b] in
   dict_get final "donut") = Ok [[6; 3; 1]; [0; 1; 0]].
Proof. vm_compute. reflexivity. Qed.

(** Witness for C5: merged, the three tiles have nothing in the top bin of
    the lowleft kernel, and the step returns its table without that bin;
    they have a count in the top bin of the donut kernel, whose name the
    error carries. *)
Lemma top_bin_check_witness :
  (exists out,
     scoring_and_histogramming_step (fun _ => "(10.0, inf]"%string)
       ["lowleft"%string] [tile_a; tile_b; tile_c] = Ok out /\
     out !! "lowleft"%string = Some [[6; 1; 1]]) /\
  scoring_and_histogramming_step (fun _ => "(10.0, inf]"%string)
    ["donut"%string] [tile_a; tile_b; tile_c]
    = Raise (AssertionError
        "There are la_exp.donut.value in (10.0, inf], please check the histogram").
Proof.
  assert (Hok : forall k, In k two_kernels ->
            Forall (hists_ok [k] 2) [tile_a; tile_b; tile_c]).
  { intros k Hk. eapply List.Forall_impl; [|exact tiles_ok].
    intros h Hh k' [<-|[]]. now apply Hh. }
  split.
  - destruct (top_bin_check (fun _ => "(10.0, inf]"%string) 2 ["lowleft"%string]
                [tile_a; tile_b; tile_c] ltac:(lia)
                ltac:(repeat constructor; intros [])
                ltac:(discriminate) (Hok _ ltac:(right; now left)))
      as (merged & Hred & _ & Hret & _).
    vm_compute in Hred. injection Hred as <-.
    destruct Hret as (out & Hout & Hcols & _).
    { intros k [<-|[]]. reflexivity. }
    exists out. split; [exact Hout|].
    destruct (Hcols "lowleft"%string ltac:(now left))
      as (t & col & Hm & _ & Ho & _).
    rewrite Ho. f_equal.
    change (Some [[6; 1; 1]; [0; 0; 0]] = Some (t ++ [col])) in Hm.
    injection Hm as Hm.
    apply (app_inj_tail [[6; 1; 1]] t [0; 0; 0] col) in Hm as [<- _].
    reflexivity.
  - destruct (top_bin_check (fun _ => "(10.0, inf]"%string) 2 ["donut"%string]
                [tile_a; tile_b; tile_c] ltac:(lia)
                ltac:(repeat constructor; intros [])
                ltac:(discriminate) (Hok _ ltac:(now left)))
      as (merged & Hred & _ & _ & Hraise).
    destruct (scoring_and_histogramming_step _ _ _) as [out|e] eqn:E.
    + vm_compute in E. discriminate.
    + destruct (Hraise e eq_refl) as (k & [<-|[]] & _ & ->). reflexivity.
Defined.

End Hist.

(** ** Extraction of the pixels above the thresholds *)

Module Extract.
Import Frame.

Section WithFloat.
Context {F : Type} {ops : FloatOps F}.

(** A series indexed by intervals [(left, right]] (a pandas
    [IntervalIndex] closed on the right), holding an integer threshold per
    interval. *)
Definition interval_series : Type := list ((F * F) * Z).

Definition contains (iv : F * F) (x : F) : bool :=
  fltb (fst iv) x && fleb x (snd iv).

(** [s.loc[x]] for one value: the entry of the interval that contains [x].
    No interval raises; with several (overlapping intervals) the selection
    has the wrong length for the comparison that follows. *)
Definition loc (s : interval_series) (x : F) : result Z :=
  match List.filter (fun e => contains (fst e) x) s with
  | [] => Raise (KeyError "interval")
  | [e] => Ok (snd e)
  | _ => Raise ValueError
  end.

(** [s.loc[xs].values] *)
Fixpoint loc_all (s : interval_series) (xs : list F) : result (list Z) :=
  match xs with
  | [] => Ok []
  | x :: rest =>
      let* t := loc s x in
      let* ts := loc_all s rest in
      Ok (t :: ts)
  end.

(** The values of a numeric column as floats, to look them up. *)
Definition as_floats (s : Series F) : result (list F) :=
  match s with
  | IntS v => Ok (map of_Z v)
  | FloatS v => Ok v
  | BoolS v => Ok (map (fun b : bool => of_Z (if b then 1 else 0)) v)
  | ObjS _ => Raise TypeError
  end.

(** [obs.values > thr] for integer thresholds. *)
Definition exceeds_all (obs : Series F) (thr : list Z) : result (list bool) :=
  match obs with
  | IntS v => Ok (zip_with (fun o t => t <? o) v thr)
  | FloatS v => Ok (zip_with (fun o t => fltb (of_Z t) o) v thr)
  | BoolS v => Ok (zip_with (fun (o : bool) t => t <? (if o then 1 else 0)) v thr)
  | ObjS _ => Raise TypeError
  end.

(** One turn of the loop over the kernels: the mask of kernel [k]. *)
Definition comply_fdr (scored_df : DataFrame F)
    (thresholds : gmap string interval_series) (k : string)
  : result (list bool) :=
  let* obs := getitem scored_df "obs.raw" in
  let* thr_k :=
    match thresholds !! k with
    | Some s => Ok s
    | None => Raise (KeyError k)
    end in
  let* la := getitem scored_df ("la_exp." +:+ k +:+ ".value") in
  let* keys := as_floats la in
  let* thr := loc_all thr_k keys in
  exceeds_all obs thr.

Fixpoint comply_loop (scored_df : DataFrame F)
    (thresholds : gmap string interval_series) (kernels : list string)
    (comply_fdr_list : list bool) : result (list bool) :=
  match kernels with
  | [] => Ok comply_fdr_list
  | k :: rest =>
      let* comply_fdr_k := comply_fdr scored_df thresholds k in
      comply_loop scored_df thresholds rest
                  (zip_with andb comply_fdr_list comply_fdr_k)
  end.

(** [extract_scored_pixels(scored_df, kernels, thresholds, ledges)]; the
    edges are not used by the function. *)
Definition extract_scored_pixels (scored_df : DataFrame F)
    (kernels : list string) (thresholds : gmap string interval_series)
  : result (DataFrame F) :=
  let* comply_fdr_list :=
    comply_loop scored_df thresholds kernels
                (map (fun _ => true) (index scored_df)) in
  Ok (select_rows comply_fdr_list scored_df).


Lemma loc_Ok (s : interval_series) (x : F) (t : Z) :
  loc s x = Ok t <->
  exists iv, List.filter (fun e => contains (fst e) x) s = [(iv, t)].
Proof.
  unfold loc. destruct (List.filter _ s) as [|[iv t'] [|e rest]]; split.
  - discriminate.
  - intros [iv [=]].
  - intros [= <-]. now exists iv.
  - intros [iv' [= <- <-]]. reflexivity.
  - discriminate.
  - intros [iv' [=]].
Qed.

Lemma loc_all_lookup (s : interval_series) (xs : list F) (ts : list Z) :
  loc_all s xs = Ok ts ->
  forall j, ts !! j = (xs !! j) ≫= (fun x =>
                         match loc s x with Ok t => Some t | Raise _ => None end) /\
            (forall x, xs !! j = Some x -> exists t, loc s x = Ok t).
Proof.
  revert ts. induction xs as [|x xs IH]; intros ts; cbn [loc_all].
  - intros [= <-] j. split; [reflexivity|]. intros x [=].
  - destruct (loc s x) as [t|e] eqn:Et; [|discriminate]. cbn [bind].
    destruct (loc_all s xs) as [ts'|e]; [|discriminate]. cbn [bind].
    intros [= <-] [|j].
    + cbn. rewrite Et. split; [reflexivity|]. intros x' [= <-]. eauto.
    + apply (IH ts' eq_refl j).
Qed.



End WithFloat.


Import Binary64.


Definition donut_thresholds : gmap string (@interval_series float) :=
  {[ "donut"%string :=
       [((PrimFloat.neg_infinity, of_Z 1), 4); ((of_Z 1, of_Z 10), 9)] ]}.



(** A locally adjusted expected above the last edge is in no interval and
    the lookup raises. *)
Example extract_above_last_edge :
  extract_scored_pixels
    {| index := [0];
       columns := [("obs.raw"%string, IntS [50]);
                   ("la_exp.donut.value"%string, FloatS [of_Z 11])] |}
    ["donut"%string] donut_thresholds = Raise (KeyError "interval").
Proof. vm_compute. reflexivity. Qed.

End Extract.

(** ** Final filter on the cluster representatives *)

Module Final.
Import Frame.

Section WithFloat.
Context {F : Type} {ops : FloatOps F}.

(** The numbers of a numeric column: integers or floats (booleans count as
    the integers 0 and 1). *)
Inductive numeric : Type :=
| NInt (v : list Z)
| NFloat (v : list F).

Definition to_numeric (s : Series F) : result numeric :=
  match s with
  | IntS v => Ok (NInt v)
  | FloatS v => Ok (NFloat v)
  | BoolS v => Ok (NInt (map (fun b : bool => if b then 1 else 0) v))
  | ObjS _ => Raise TypeError
  end.

Definition floats (n : numeric) : list F :=
  match n with
  | NInt v => map of_Z v
  | NFloat v => v
  end.

(** [c * s] for a Python float [c] *)
Definition scale (c : F) (s : Series F) : result numeric :=
  let* n := to_numeric s in
  Ok (NFloat (map (fun x => fmul c x) (floats n))).

(** [a > b], element by element *)
Definition gt (a b : numeric) : list bool :=
  match a, b with
  | NInt x, NInt y => zip_with (fun p q => q <? p) x y
  | _, _ => zip_with (fun p q => fltb q p) (floats a) (floats b)
  end.

(** [a > n] for a Python integer [n] *)
Definition gt_int (a : numeric) (n : Z) : list bool :=
  match a with
  | NInt x => map (fun p => n <? p) x
  | NFloat x => map (fun p => fltb (of_Z n) p) x
  end.

(** [a + b], element by element *)
Definition add (a b : numeric) : numeric :=
  match a, b with
  | NInt x, NInt y => NInt (zip_with Z.add x y)
  | _, _ => NFloat (zip_with fadd (floats a) (floats b))
  end.

(** [a <= c] for a Python float [c] *)
Definition le_float (a : numeric) (c : F) : list bool :=
  map (fun p => fleb p c) (floats a).

Definition enrichment_factor_1 : F := lit 3 2.
Definition enrichment_factor_2 : F := lit 7 4.
Definition enrichment_factor_3 : F := of_Z 2.
Definition FDR_orphan_threshold : F := lit 2 100.

(** [centroids["obs.raw"] > factor * centroids[column]] *)
Definition exceeds_factor (centroids : DataFrame F) (factor : F)
    (column : string) : result (list bool) :=
  let* obs := getitem centroids "obs.raw" in
  let* la := getitem centroids column in
  let* scaled := scale factor la in
  let* obs := to_numeric obs in
  Ok (gt obs scaled).

(** [centroids["c_size"] > 1] *)
Definition not_orphan (centroids : DataFrame F) : result (list bool) :=
  let* size := getitem centroids "c_size" in
  let* size := to_numeric size in
  Ok (gt_int size 1).

(** The sum of the four q-values, compared with the orphan threshold. *)
Definition orphan_passes (centroids : DataFrame F) : result (list bool) :=
  let* q_lowleft := getitem centroids "la_exp.lowleft.qval" in
  let* q_donut := getitem centroids "la_exp.donut.qval" in
  let* q_lowleft := to_numeric q_lowleft in
  let* q_donut := to_numeric q_donut in
  let sum := add q_lowleft q_donut in
  let* q_vertical := getitem centroids "la_exp.vertical.qval" in
  let* q_vertical := to_numeric q_vertical in
  let sum := add sum q_vertical in
  let* q_horizontal := getitem centroids "la_exp.horizontal.qval" in
  let* q_horizontal := to_numeric q_horizontal in
  let sum := add sum q_horizontal in
  Ok (le_float sum FDR_orphan_threshold).

Definition columns_for_output : list string :=
  ["chrom1"; "start1"; "end1"; "chrom2"; "start2"; "end2";
   "cstart1"; "cstart2"; "c_label"; "c_size"; "obs.raw"; "exp.raw";
   "la_exp.donut.value"; "la_exp.vertical.value"; "la_exp.horizontal.value";
   "la_exp.lowleft.value"; "factor_balance.lowleft.KerObs";
   "la_exp.donut.qval"; "la_exp.vertical.qval"; "la_exp.horizontal.qval";
   "la_exp.lowleft.qval"]%string.

(** The mask [enrichment_fdr_comply]. *)
Definition enrichment_fdr_comply (centroids : DataFrame F)
  : result (list bool) :=
  let* c1 := exceeds_factor centroids enrichment_factor_2 "la_exp.lowleft.value" in
  let* c2 := exceeds_factor centroids enrichment_factor_2 "la_exp.donut.value" in
  let* c3 := exceeds_factor centroids enrichment_factor_1 "la_exp.vertical.value" in
  let* c4 := exceeds_factor centroids enrichment_factor_1 "la_exp.horizontal.value" in
  let* c5 := exceeds_factor centroids enrichment_factor_3 "la_exp.lowleft.value" in
  let* c6 := exceeds_factor centroids enrichment_factor_3 "la_exp.donut.value" in
  let* c7 := not_orphan centroids in
  let* c8 := orphan_passes centroids in
  Ok (zip_with andb
        (zip_with andb
           (zip_with andb (zip_with andb (zip_with andb c1 c2) c3) c4)
           (zip_with orb c5 c6))
        (zip_with orb c7 c8)).

(** [thresholding_step(centroids)] *)
Definition thresholding_step (centroids : DataFrame F) : result (DataFrame F) :=
  let* mask := enrichment_fdr_comply centroids in
  let out := select_rows mask centroids in
  project out columns_for_output.

(** The entries of one representative that the filter reads. *)
Record centroid : Type := mkCentroid {
  obs_raw : Z;
  c_size : Z;
  la_lowleft : F;
  la_donut : F;
  la_vertical : F;
  la_horizontal : F;
  q_lowleft : F;
  q_donut : F;
  q_vertical : F;
  q_horizontal : F
}.

Definition row_at (df : DataFrame F) (j : nat) : option centroid :=
  o ← int_at df "obs.raw" j;
  s ← int_at df "c_size" j;
  ll ← float_at df "la_exp.lowleft.value" j;
  dn ← float_at df "la_exp.donut.value" j;
  vt ← float_at df "la_exp.vertical.value" j;
  hz ← float_at df "la_exp.horizontal.value" j;
  qll ← float_at df "la_exp.lowleft.qval" j;
  qdn ← float_at df "la_exp.donut.qval" j;
  qvt ← float_at df "la_exp.vertical.qval" j;
  qhz ← float_at df "la_exp.horizontal.qval" j;
  Some (mkCentroid o s ll dn vt hz qll qdn qvt qhz).

(** [obs > factor * la], the observed count read as a float. *)
Definition above (obs : Z) (factor la : F) : Prop :=
  fltb (fmul factor la) (of_Z obs) = true.

(** The condition of the claim on one representative. *)
Definition keeps (r : centroid) : Prop :=
  (above (obs_raw r) enrichment_factor_2 (la_donut r) /\
   above (obs_raw r) enrichment_factor_2 (la_lowleft r)) /\
  (above (obs_raw r) enrichment_factor_1 (la_horizontal r) /\
   above (obs_raw r) enrichment_factor_1 (la_vertical r)) /\
  (above (obs_raw r) enrichment_factor_3 (la_donut r) \/
   above (obs_raw r) enrichment_factor_3 (la_lowleft r)) /\
  (1 < c_size r \/
   fleb (fadd (fadd (fadd (q_lowleft r) (q_donut r)) (q_vertical r))
              (q_horizontal r))
        FDR_orphan_threshold = true).

Definition required_columns : list string :=
  ["la_exp.donut.qval"; "la_exp.lowleft.qval"; "la_exp.vertical.qval";
   "la_exp.horizontal.qval"; "factor_balance.lowleft.KerObs"]%string.

(** The same condition computed on one representative. *)
Definition keepsb (r : centroid) : bool :=
  let over f la := fltb (fmul f la) (of_Z (obs_raw r)) in
  over enrichment_factor_2 (la_lowleft r) &&
  over enrichment_factor_2 (la_donut r) &&
  over enrichment_factor_1 (la_vertical r) &&
  over enrichment_factor_1 (la_horizontal r) &&
  (over enrichment_factor_3 (la_lowleft r) ||
   over enrichment_factor_3 (la_donut r)) &&
  ((1 <? c_size r) ||
   fleb (fadd (fadd (fadd (q_lowleft r) (q_donut r)) (q_vertical r))
              (q_horizontal r))
        FDR_orphan_threshold).

Lemma keepsb_keeps (r : centroid) : keepsb r = true <-> keeps r.
Proof.
  unfold keepsb, keeps, above. cbn zeta.
  rewrite !andb_true_iff, !orb_true_iff, Z.ltb_lt. tauto.
Qed.

Lemma int_at_Some (df : DataFrame F) (name : string) (j : nat) (o : Z) :
  int_at df name j = Some o ->
  exists v, lookup_col name (columns df) = Some (IntS v) /\ v !! j = Some o.
Proof.
  unfold int_at. destruct (lookup_col name (columns df)) as [[v|v|v|v]|];
    try discriminate. eauto.
Qed.

Lemma float_at_Some (df : DataFrame F) (name : string) (j : nat) (x : F) :
  float_at df name j = Some x ->
  exists v, lookup_col name (columns df) = Some (FloatS v) /\ v !! j = Some x.
Proof.
  unfold float_at. destruct (lookup_col name (columns df)) as [[v|v|v|v]|];
    try discriminate. eauto.
Qed.

Lemma exceeds_factor_at (df : DataFrame F) (factor : F) (column : string)
    (c : list bool) (j : nat) (o : Z) (la : F) :
  exceeds_factor df factor column = Ok c ->
  int_at df "obs.raw" j = Some o -> float_at df column j = Some la ->
  c !! j = Some (fltb (fmul factor la) (of_Z o)).
Proof.
  intros Hc Ho Hla.
  apply int_at_Some in Ho as (vo & Eo & Ho).
  apply float_at_Some in Hla as (vl & El & Hla).
  unfold exceeds_factor, getitem in Hc. rewrite Eo, El in Hc.
  cbn [bind scale to_numeric floats gt] in Hc. injection Hc as <-.
  apply lookup_zip_with_Some. exists (of_Z o), (fmul factor la).
  rewrite !list_lookup_fmap, Ho, Hla. auto.
Qed.

Lemma not_orphan_at (df : DataFrame F) (c : list bool) (j : nat) (size : Z) :
  not_orphan df = Ok c -> int_at df "c_size" j = Some size ->
  c !! j = Some (1 <? size).
Proof.
  intros Hc Hs. apply int_at_Some in Hs as (v & E & Hs).
  unfold not_orphan, getitem in Hc. rewrite E in Hc.
  cbn [bind to_numeric gt_int] in Hc. injection Hc as <-.
  now rewrite list_lookup_fmap, Hs.
Qed.

Lemma orphan_passes_at (df : DataFrame F) (c : list bool) (j : nat)
    (qll qdn qvt qhz : F) :
  orphan_passes df = Ok c ->
  float_at df "la_exp.lowleft.qval" j = Some qll ->
  float_at df "la_exp.donut.qval" j = Some qdn ->
  float_at df "la_exp.vertical.qval" j = Some qvt ->
  float_at df "la_exp.horizontal.qval" j = Some qhz ->
  c !! j = Some (fleb (fadd (fadd (fadd qll qdn) qvt) qhz) FDR_orphan_threshold).
Proof.
  intros Hc H1 H2 H3 H4.
  apply float_at_Some in H1 as (v1 & E1 & H1).
  apply float_at_Some in H2 as (v2 & E2 & H2).
  apply float_at_Some in H3 as (v3 & E3 & H3).
  apply float_at_Some in H4 as (v4 & E4 & H4).
  unfold orphan_passes, getitem in Hc. rewrite E1, E2, E3, E4 in Hc.
  cbn [bind to_numeric add floats] in Hc. injection Hc as <-.
  unfold le_float. cbn [floats]. rewrite list_lookup_fmap.
  assert (Hs : zip_with fadd (zip_with fadd (zip_with fadd v1 v2) v3) v4 !! j
               = Some (fadd (fadd (fadd qll qdn) qvt) qhz)).
  { apply lookup_zip_with_Some. do 2 eexists. split; [reflexivity|].
    split; [|exact H4].
    apply lookup_zip_with_Some. do 2 eexists. split; [reflexivity|].
    split; [|exact H3].
    apply lookup_zip_with_Some. do 2 eexists. eauto. }
  now rewrite Hs.
Qed.

Lemma enrichment_fdr_comply_at (df : DataFrame F) (mask : list bool)
    (j : nat) (r : centroid) :
  enrichment_fdr_comply df = Ok mask -> row_at df j = Some r ->
  mask !! j = Some (keepsb r).
Proof.
  unfold row_at. intros Hm Hr.
  destruct (int_at df "obs.raw" j) as [o|] eqn:Eo; [|discriminate].
  destruct (int_at df "c_size" j) as [sz|] eqn:Es; [|discriminate].
  destruct (float_at df "la_exp.lowleft.value" j) as [ll|] eqn:Ell; [|discriminate].
  destruct (float_at df "la_exp.donut.value" j) as [dn|] eqn:Edn; [|discriminate].
  destruct (float_at df "la_exp.vertical.value" j) as [vt|] eqn:Evt; [|discriminate].
  destruct (float_at df "la_exp.horizontal.value" j) as [hz|] eqn:Ehz; [|discriminate].
  destruct (float_at df "la_exp.lowleft.qval" j) as [qll|] eqn:Eqll; [|discriminate].
  destruct (float_at df "la_exp.donut.qval" j) as [qdn|] eqn:Eqdn; [|discriminate].
  destruct (float_at df "la_exp.vertical.qval" j) as [qvt|] eqn:Eqvt; [|discriminate].
  destruct (float_at df "la_exp.horizontal.qval" j) as [qhz|] eqn:Eqhz; [|discriminate].
  cbn in Hr. injection Hr as <-.
  unfold enrichment_fdr_comply in Hm.
  destruct (exceeds_factor df enrichment_factor_2 "la_exp.lowleft.value")
    as [c1|] eqn:E1; [|discriminate].
  destruct (exceeds_factor df enrichment_factor_2 "la_exp.donut.value")
    as [c2|] eqn:E2; [|discriminate].
  destruct (exceeds_factor df enrichment_factor_1 "la_exp.vertical.value")
    as [c3|] eqn:E3; [|discriminate].
  destruct (exceeds_factor df enrichment_factor_1 "la_exp.horizontal.value")
    as [c4|] eqn:E4; [|discriminate].
  destruct (exceeds_factor df enrichment_factor_3 "la_exp.lowleft.value")
    as [c5|] eqn:E5; [|discriminate].
  destruct (exceeds_factor df enrichment_factor_3 "la_exp.donut.value")
    as [c6|] eqn:E6; [|discriminate].
  destruct (not_orphan df) as [c7|] eqn:E7; [|discriminate].
  destruct (orphan_passes df) as [c8|] eqn:E8; [|discriminate].
  cbn [bind] in Hm. injection Hm as <-.
  pose proof (exceeds_factor_at _ _ _ _ _ _ _ E1 Eo Ell) as L1.
  pose proof (exceeds_factor_at _ _ _ _ _ _ _ E2 Eo Edn) as L2.
  pose proof (exceeds_factor_at _ _ _ _ _ _ _ E3 Eo Evt) as L3.
  pose proof (exceeds_factor_at _ _ _ _ _ _ _ E4 Eo Ehz) as L4.
  pose proof (exceeds_factor_at _ _ _ _ _ _ _ E5 Eo Ell) as L5.
  pose proof (exceeds_factor_at _ _ _ _ _ _ _ E6 Eo Edn) as L6.
  pose proof (not_orphan_at _ _ _ _ E7 Es) as L7.
  pose proof (orphan_passes_at _ _ _ _ _ _ _ E8 Eqll Eqdn Eqvt Eqhz) as L8.
  unfold keepsb. cbn [obs_raw c_size la_lowleft la_donut la_vertical
                      la_horizontal q_lowleft q_donut q_vertical q_horizontal].
  repeat (apply lookup_zip_with_Some; do 2 eexists;
          split; [reflexivity|]; split); eassumption.
Qed.

Lemma take_columns_present (df : DataFrame F) (names : list string)
    (cols : list (string * Series F)) (name : string) :
  take_columns df names = Ok cols -> In name names ->
  exists s, lookup_col name (columns df) = Some s.
Proof.
  revert cols. induction names as [|n rest IH]; intros cols; cbn [take_columns].
  - intros _ [].
  - unfold getitem at 1.
    destruct (lookup_col n (columns df)) as [s|] eqn:E; [|discriminate].
    cbn [bind]. destruct (take_columns df rest) as [cols'|]; [|discriminate].
    intros _ [<-|Hin]; [eauto|]. now apply (IH cols').
Qed.

Lemma getitem_Ok (df : DataFrame F) (name : string) (s : Series F) :
  getitem df name = Ok s -> lookup_col name (columns df) = Some s.
Proof.
  unfold getitem. destruct (lookup_col name (columns df)); [|discriminate].
  now intros [= ->].
Qed.

Lemma orphan_passes_columns (df : DataFrame F) (c : list bool) :
  orphan_passes df = Ok c ->
  forall name,
    In name ["la_exp.lowleft.qval"; "la_exp.donut.qval";
             "la_exp.vertical.qval"; "la_exp.horizontal.qval"]%string ->
    exists s, lookup_col name (columns df) = Some s.
Proof.
  unfold orphan_passes. intros Hc.
  destruct (getitem df "la_exp.lowleft.qval") as [s1|] eqn:E1; [|discriminate].
  destruct (getitem df "la_exp.donut.qval") as [s2|] eqn:E2; [|discriminate].
  cbn [bind] in Hc.
  destruct (to_numeric s1); [|discriminate].
  destruct (to_numeric s2); [|discriminate]. cbn [bind] in Hc.
  destruct (getitem df "la_exp.vertical.qval") as [s3|] eqn:E3; [|discriminate].
  cbn [bind] in Hc. destruct (to_numeric s3); [|discriminate]. cbn [bind] in Hc.
  destruct (getitem df "la_exp.horizontal.qval") as [s4|] eqn:E4; [|discriminate].
  apply getitem_Ok in E1, E2, E3, E4.
  intros name [<-|[<-|[<-|[<-|[]]]]]; eauto.
Qed.

Lemma take_columns_names (df : DataFrame F) (names : list string)
    (cols : list (string * Series F)) :
  take_columns df names = Ok cols ->
  map fst cols = names /\
  forall name, In name names ->
    lookup_col name cols = lookup_col name (columns df).
Proof.
  revert cols. induction names as [|n rest IH]; intros cols; cbn [take_columns].
  - intros [= <-]. split; [reflexivity|]. intros name [].
  - unfold getitem at 1.
    destruct (lookup_col n (columns df)) as [s|] eqn:E; [|discriminate].
    cbn [bind]. destruct (take_columns df rest) as [cols'|]; [|discriminate].
    cbn [bind]. intros [= <-]. destruct (IH cols' eq_refl) as [Hn Hl].
    split; [cbn; now rewrite Hn|].
    intros name Hin. cbn [lookup_col].
    destruct (String.eqb_spec n name) as [->|Hne]; [now rewrite E|].
    destruct Hin as [->|Hin]; [contradiction|]. now apply Hl.
Qed.

End WithFloat.

Import Binary64.

(** C8. When [thresholding_step] returns, a representative is kept
    exactly when its observed count exceeds 1.75 times the locally adjusted
    expected of both the donut and lowleft kernels, 1.5 times that of both
    the horizontal and vertical kernels, 2.0 times that of the donut or of
    the lowleft kernel, and its cluster size exceeds 1 or the sum of its
    four q-values is at most 0.02: the returned table has the output
    columns, in their order, and its rows are the kept rows of the input, in
    the order of the input, each with its index label and its entries
    unchanged. *)
Theorem thresholding_keeps_iff {F : Type} {ops : FloatOps F}
    (centroids out : DataFrame F) :
  thresholding_step centroids = Ok out ->
  exists (mask : list bool) (kept : list nat),
    enrichment_fdr_comply centroids = Ok mask /\
    (forall (j : nat) (r : centroid),
       row_at centroids j = Some r -> (mask !! j = Some true <-> keeps r)) /\
    (forall j : nat, In j kept <-> mask !! j = Some true) /\
    (forall i i' j j' : nat,
       (i < i')%nat -> kept !! i = Some j -> kept !! i' = Some j' ->
       (j < j')%nat) /\
    map fst (columns out) = columns_for_output /\
    (forall i : nat, index out !! i = kept !! i ≫= (index centroids !!.)) /\
    (forall (name : string) (i : nat), In name columns_for_output ->
       cell_at out name i = kept !! i ≫= cell_at centroids name).
Proof.
  unfold thresholding_step.
  destruct (enrichment_fdr_comply centroids) as [mask|e] eqn:Em; [|discriminate].
  cbn [bind]. intros Hout. exists mask, (true_positions 0 mask).
  assert (Hkept : forall i, true_positions 0 mask !! i = nth_true mask i).
  { intros i. rewrite true_positions_lookup.
    destruct (nth_true mask i); reflexivity. }
  unfold project in Hout.
  destruct (take_columns _ _) as [cols|] eqn:Et; [|discriminate].
  cbn [bind] in Hout. injection Hout as <-.
  destruct (take_columns_names _ _ _ Et) as [Hnames Hcols].
  split; [reflexivity|]. split; [|split; [|split; [|split; [|split]]]].
  - intros j r Hr. rewrite (enrichment_fdr_comply_at _ _ _ _ Em Hr).
    rewrite <- keepsb_keeps. split; [now intros [= ->]|now intros ->].
  - intros j. rewrite true_positions_In.
    replace (j - 0)%nat with j by lia. split; [now intros [_ H]|].
    intros H. split; [lia|exact H].
  - intros i i' j j' Hlt. rewrite !Hkept. now apply nth_true_mono.
  - exact Hnames.
  - intros i. cbn [index select_rows]. now rewrite select_lookup, Hkept.
  - intros name i Hin. unfold cell_at. cbn [columns].
    rewrite (Hcols name Hin). cbn [select_rows columns].
    rewrite lookup_select, Hkept.
    destruct (lookup_col name (columns centroids)) as [s|]; cbn.
    + apply series_select_cell_at.
    + now destruct (nth_true mask i).
Qed.

(** C10. [thresholding_step] returns only for tables that have the four
    q-value columns and the column [factor_balance.lowleft.KerObs]; on a
    table that lacks one of them it raises. *)
Theorem thresholding_requires_columns {F : Type} {ops : FloatOps F}
    (centroids : DataFrame F) :
  (forall out, thresholding_step centroids = Ok out ->
     forall name, In name required_columns ->
       exists s, lookup_col name (columns centroids) = Some s) /\
  (forall name, In name required_columns ->
     lookup_col name (columns centroids) = None ->
     exists e, thresholding_step centroids = Raise e).
Proof.
  assert (Hok : forall out, thresholding_step centroids = Ok out ->
     forall name, In name required_columns ->
       exists s, lookup_col name (columns centroids) = Some s).
  { unfold thresholding_step. intros out.
    destruct (enrichment_fdr_comply centroids) as [mask|e] eqn:Em; [|discriminate].
    cbn [bind]. intros Hout name Hin.
    unfold required_columns in Hin.
    destruct Hin as [<-|[<-|[<-|[<-|[<-|[]]]]]].
    1-4: unfold enrichment_fdr_comply in Em;
         repeat (destruct (exceeds_factor centroids _ _); [|discriminate]);
         cbn [bind] in Em;
         destruct (not_orphan centroids); [|discriminate]; cbn [bind] in Em;
         destruct (orphan_passes centroids) as [c8|] eqn:E8; [|discriminate];
         apply (orphan_passes_columns _ _ E8); cbn; tauto.
    unfold project in Hout.
    destruct (take_columns _ _) as [cols|] eqn:Et; [|discriminate].
    destruct (take_columns_present _ _ _ "factor_balance.lowleft.KerObs" Et)
      as [s Hs]; [cbn; tauto|].
    cbn [select_rows columns] in Hs. rewrite lookup_select in Hs.
    destruct (lookup_col _ (columns centroids)); [eauto|discriminate]. }
  split; [exact Hok|].
  intros name Hin Hnone.
  destruct (thresholding_step centroids) as [out|e] eqn:E; [|eauto].
  destruct (Hok out eq_refl name Hin) as [s Hs]. congruence.
Qed.

(** Four representatives, all with an observed count of 40 or 19 against
    locally adjusted expecteds of 10: an orphan with small q-values, an
    orphan with large ones, a cluster of three pixels with large q-values,
    and a pixel that is enriched less than twice. *)
Definition four_centroids : DataFrame float :=
  let tens := FloatS [of_Z 10; of_Z 10; of_Z 10; of_Z 10] in
  let qvals := FloatS [lit 4 1000; lit 6 1000; lit 1 2; lit 1 1000] in
  {| index := [0; 1; 2; 3];
     columns :=
       [("chrom1", ObjS ["chr1"; "chr1"; "chr1"; "chr1"]);
        ("start1", IntS [100; 200; 300; 400]);
        ("end1", IntS [110; 210; 310; 410]);
        ("chrom2", ObjS ["chr1"; "chr1"; "chr1"; "chr1"]);
        ("start2", IntS [500; 600; 700; 800]);
        ("end2", IntS [510; 610; 710; 810]);
        ("cstart1", FloatS [of_Z 100; of_Z 200; of_Z 305; of_Z 400]);
        ("cstart2", FloatS [of_Z 500; of_Z 600; of_Z 705; of_Z 800]);
        ("c_label", IntS [0; 1; 2; 3]);
        ("c_size", IntS [1; 1; 3; 1]);
        ("obs.raw", IntS [40; 40; 40; 19]);
        ("exp.raw", tens);
        ("la_exp.donut.value", tens);
        ("la_exp.vertical.value", tens);
        ("la_exp.horizontal.value", tens);
        ("la_exp.lowleft.value", tens);
        ("factor_balance.lowleft.KerObs", tens);
        ("la_exp.donut.qval", qvals);
        ("la_exp.vertical.qval", qvals);
        ("la_exp.horizontal.qval", qvals);
        ("la_exp.lowleft.qval", qvals)]%string |}.

(** The table returned for them: the first and the third representative,
    with the output columns. *)
Definition kept_centroids : DataFrame float :=
  let tens := FloatS [of_Z 10; of_Z 10] in
  let qvals := FloatS [lit 4 1000; lit 1 2] in
  {| index := [0; 2];
     columns :=
       [("chrom1", ObjS ["chr1"; "chr1"]);
        ("start1", IntS [100; 300]);
        ("end1", IntS [110; 310]);
        ("chrom2", ObjS ["chr1"; "chr1"]);
        ("start2", IntS [500; 700]);
        ("end2", IntS [510; 710]);
        ("cstart1", FloatS [of_Z 100; of_Z 305]);
        ("cstart2", FloatS [of_Z 500; of_Z 705]);
        ("c_label", IntS [0; 2]);
        ("c_size", IntS [1; 3]);
        ("obs.raw", IntS [40; 40]);
        ("exp.raw", tens);
        ("la_exp.donut.value", tens);
        ("la_exp.vertical.value", tens);
        ("la_exp.horizontal.value", tens);
        ("la_exp.lowleft.value", tens);
        ("factor_balance.lowleft.KerObs", tens);
        ("la_exp.donut.qval", qvals);
        ("la_exp.vertical.qval", qvals);
        ("la_exp.horizontal.qval", qvals);
        ("la_exp.lowleft.qval", qvals)]%string |}.

(** The first and the third representative are kept. *)
Example kept_centroids_returned :
  thresholding_step four_centroids = Ok kept_centroids.
Proof. vm_compute. reflexivity. Qed.

(** Witness for C8: of the four representatives the rows 0 and 2 are
    kept. *)
Lemma thresholding_keeps_iff_witness :
  exists (mask : list bool) (kept : list nat),
    enrichment_fdr_comply four_centroids = Ok mask /\
    (forall (j : nat) (r : centroid),
       row_at four_centroids j = Some r -> (mask !! j = Some true <-> keeps r)) /\
    (forall j : nat, In j kept <-> mask !! j = Some true) /\
    (forall i i' j j' : nat,
       (i < i')%nat -> kept !! i = Some j -> kept !! i' = Some j' ->
       (j < j')%nat) /\
    map fst (columns kept_centroids) = columns_for_output /\
    (forall i : nat,
       index kept_centroids !! i = kept !! i ≫= (index four_centroids !!.)) /\
    (forall (name : string) (i : nat), In name columns_for_output ->
       cell_at kept_centroids name i = kept !! i ≫= cell_at four_centroids name).
Proof.
  apply (thresholding_keeps_iff four_centroids kept_centroids).
  vm_compute. reflexivity.
Defined.

(** The same table as it is when the balancing factor was not supplied
    upstream: without the column [factor_balance.lowleft.KerObs]. *)
Definition centroids_without_kerobs : DataFrame float :=
  {| index := index four_centroids;
     columns :=
       List.filter
         (fun c => negb (String.eqb (fst c) "factor_balance.lowleft.KerObs"))
         (columns four_centroids) |}.

(** Witness for C10: the table without that column is refused. *)
Lemma thresholding_requires_columns_witness :
  exists e, thresholding_step centroids_without_kerobs = Raise e.
Proof.
  apply (proj2 (thresholding_requires_columns centroids_without_kerobs)
           "factor_balance.lowleft.KerObs"%string).
  - cbn. tauto.
  - reflexivity.
Defined.

Example thresholding_without_kerobs :
  thresholding_step centroids_without_kerobs
    = Raise (KeyError "factor_balance.lowleft.KerObs").
Proof. vm_compute. reflexivity. Qed.

(** Without q-values the table is refused before any row is looked at,
    even when it has no rows. *)
Example thresholding_without_qvals :
  thresholding_step
    {| index := [];
       columns := [("obs.raw", IntS []); ("c_size", IntS []);
                   ("la_exp.lowleft.value", @FloatS float []);
                   ("la_exp.donut.value", FloatS []);
                   ("la_exp.vertical.value", FloatS []);
                   ("la_exp.horizontal.value", FloatS [])]%string |}
    = Raise (KeyError "la_exp.lowleft.qval").
Proof. vm_compute. reflexivity. Qed.

End Final.

(** ** Tiles that cover the diagonal band *)

Module Tiles.
Import Tiling.

(** The filter of [heatmap_tiles_generator_diag]: the overlap of the
    diagonals a tile spans with the band, compared with twice the padding. *)
Definition intersects_band (pad_size band_to_cover : Z)
    (tile : (Z * Z) * (Z * Z)) : bool :=
  let '(tilei, tilej) := tile in
  let diag_from := fst tilej - snd tilei in
  let diag_to := snd tilej - fst tilei in
  let band_from := 0 in
  let band_to := band_to_cover in
  2 * pad_size <? Z.min band_to diag_to - Z.max band_from diag_from.

(** The tiles yielded for one chromosome. *)
Definition chrom_tiles (chrom : string) (chr_start chr_stop : Z)
    (pad_size tile_size band_to_cover : Z)
  : result (list (string * (Z * Z) * (Z * Z))) :=
  let* tiles := square_matrix_tiling chr_start chr_stop tile_size pad_size false in
  Ok (map (fun tile => (chrom, fst tile, snd tile))
          (List.filter (intersects_band pad_size band_to_cover) tiles)).

(** [heatmap_tiles_generator_diag(clr, chroms, pad_size, tile_size,
    band_to_cover)]: the tiles it yields, in order; of the cooler only
    [clr.extent] is used. *)
Fixpoint heatmap_tiles_generator_diag (clr_extent : string -> result (Z * Z))
    (chroms : list string) (pad_size tile_size band_to_cover : Z)
  : result (list (string * (Z * Z) * (Z * Z))) :=
  match chroms with
  | [] => Ok []
  | chrom :: rest =>
      let* extent := clr_extent chrom in
      let '(chr_start, chr_stop) := extent in
      let* here :=
        chrom_tiles chrom chr_start chr_stop pad_size tile_size band_to_cover in
      let* more :=
        heatmap_tiles_generator_diag clr_extent rest pad_size tile_size
          band_to_cover in
      Ok (here ++ more)
  end.

Lemma Ok_inj {A} (a b : A) : Ok a = Ok b -> a = b.
Proof. congruence. Qed.

(** A span lies inside [[start, stop)] and is not empty. *)
Definition span_inside (start stop : Z) (span : Z * Z) : Prop :=
  start <= fst span /\ fst span < snd span /\ snd span <= stop.

(** The position [i] lies in the span with [pad] positions of the span on
    either side of it, or with the span reaching the end of the region on
    that side. *)
Definition padded_in (start stop pad i : Z) (span : Z * Z) : Prop :=
  fst span <= i < snd span /\
  (fst span <= i - pad \/ fst span = start) /\
  (i + pad < snd span \/ snd span = stop).

(** The number of tiles along one axis is the span divided by the step,
    rounded up. *)
Lemma tile_count_bounds (size step : Z) :
  0 < step ->
  exists tiles, tile_count size step = Ok tiles /\
    step * (tiles - 1) < size <= step * tiles.
Proof.
  intros Hs. unfold tile_count, py_bool.
  destruct (Z.eqb_spec step 0); [lia|].
  pose proof (Z.div_mod size step ltac:(lia)) as Hdm.
  pose proof (Z.mod_pos_bound size step Hs) as Hb.
  destruct (Z.eqb_spec (size mod step) 0) as [E|E]; eexists;
    (split; [reflexivity|]); nia.
Qed.

(** X2. For a positive bandwidth and a non-negative edge, every span
    yielded by [diagonal_matrix_tiling] lies inside [[start, stop)], is not
    empty and is at most [2 * (bandwidth + edge)] long. *)
Theorem diagonal_tiling_spans_inside (start stop bandwidth edge : Z)
    (tiles : list (Z * Z)) :
  0 < bandwidth -> 0 <= edge ->
  diagonal_matrix_tiling start stop bandwidth edge = Ok tiles ->
  Forall (fun span => span_inside start stop span /\
                      snd span - fst span <= 2 * (bandwidth + edge)) tiles.
Proof.
  intros Hb He. unfold diagonal_matrix_tiling.
  destruct (tile_count_bounds (stop - start) bandwidth Hb) as (n & -> & Hn).
  cbn [bind]. intros [= <-]. apply List.Forall_forall. intros span Hin.
  apply List.in_map_iff in Hin as (t & <- & Ht). apply in_range in Ht.
  unfold span_inside; cbn [fst snd]. nia.
Qed.

Lemma diagonal_tiling_spans_inside_witness :
  Forall (fun span => span_inside 0 100 span /\
                      snd span - fst span <= 2 * (10 + 2))
         [(0, 22); (8, 32); (18, 42); (28, 52); (38, 62); (48, 72); (58, 82);
          (68, 92); (78, 100)].
Proof.
  apply (diagonal_tiling_spans_inside 0 100 10 2); [lia|lia|reflexivity].
Defined.

Lemma square_window_inside (size step edge t : Z) :
  0 < step -> 0 <= edge -> 0 <= t -> step * t < size ->
  let w := square_window size step edge false t in
  0 <= fst w /\ fst w < snd w /\ snd w <= size.
Proof.
  intros Hs He Ht Hlt. unfold square_window; cbn [fst snd andb]. nia.
Qed.

Lemma square_window_covers (size step edge : Z) (square : bool) (i : Z) :
  0 < step -> 0 <= edge -> 0 <= i < size ->
  let w := square_window size step edge square (i / step) in
  fst w <= i < snd w.
Proof.
  intros Hs He Hi.
  pose proof (Z.div_mod i step ltac:(lia)) as Hdm.
  pose proof (Z.mod_pos_bound i step Hs) as Hb.
  unfold square_window; cbn [fst snd].
  destruct square; cbn [andb];
    [destruct (Z.leb_spec size (Z.min size (step * (i / step + 1) + edge)))|];
    nia.
Qed.

Lemma div_in_tiles (size step tiles i : Z) :
  0 < step -> 0 <= i < size -> size <= step * tiles ->
  0 <= i / step < tiles.
Proof.
  intros Hs Hi Hn.
  pose proof (Z.div_mod i step ltac:(lia)) as Hdm.
  pose proof (Z.mod_pos_bound i step Hs) as Hb.
  split; [apply Z.div_pos; lia|]. nia.
Qed.

Lemma in_square_tiling (start size step edge : Z) (square : bool)
    (n : Z) (t : (Z * Z) * (Z * Z)) :
  In t (flat_map (fun tx =>
          map (fun ty =>
                 let '(lwx, rwx) := square_window size step edge square tx in
                 let '(lwy, rwy) := square_window size step edge square ty in
                 ((lwx + start, rwx + start), (lwy + start, rwy + start)))
              (range 0 n))
          (range 0 n)) <->
  exists tx ty, 0 <= tx < n /\ 0 <= ty < n /\
    t = ((fst (square_window size step edge square tx) + start,
          snd (square_window size step edge square tx) + start),
         (fst (square_window size step edge square ty) + start,
          snd (square_window size step edge square ty) + start)).
Proof.
  rewrite List.in_flat_map. split.
  - intros (tx & Htx & Hin). apply List.in_map_iff in Hin as (ty & <- & Hty).
    apply in_range in Htx, Hty. exists tx, ty.
    split; [lia|]. split; [lia|].
    destruct (square_window size step edge square tx),
             (square_window size step edge square ty); reflexivity.
  - intros (tx & ty & Htx & Hty & ->). exists tx.
    split; [apply in_range; lia|]. apply List.in_map_iff. exists ty.
    split; [|apply in_range; lia].
    destruct (square_window size step edge square tx),
             (square_window size step edge square ty); reflexivity.
Qed.

(** X3. For a positive step and a non-negative edge, every pixel of the
    square region lies in a tile yielded by [square_matrix_tiling], with or
    without [square]. *)
Theorem square_tiling_covers (start stop step edge : Z) (square : bool)
    (i j : Z) :
  0 < step -> 0 <= edge -> start <= i < stop -> start <= j < stop ->
  exists tiles, square_matrix_tiling start stop step edge square = Ok tiles /\
    exists tilei tilej, In (tilei, tilej) tiles /\
      fst tilei <= i < snd tilei /\ fst tilej <= j < snd tilej.
Proof.
  intros Hs He Hi Hj. unfold square_matrix_tiling.
  destruct (tile_count_bounds (stop - start) step Hs) as (n & -> & Hn).
  cbn [bind]. eexists. split; [reflexivity|].
  do 2 eexists. split.
  - apply in_square_tiling. exists ((i - start) / step), ((j - start) / step).
    split; [apply (div_in_tiles (stop - start)); lia|].
    split; [apply (div_in_tiles (stop - start)); lia|]. reflexivity.
  - pose proof (square_window_covers (stop - start) step edge square
                  (i - start) Hs He ltac:(lia)) as Hx.
    pose proof (square_window_covers (stop - start) step edge square
                  (j - start) Hs He ltac:(lia)) as Hy.
    cbn zeta in Hx, Hy. cbn [fst snd]. lia.
Qed.

Lemma square_tiling_covers_witness :
  exists tiles, square_matrix_tiling 0 10 4 1 true = Ok tiles /\
    exists tilei tilej, In (tilei, tilej) tiles /\
      fst tilei <= 9 < snd tilei /\ fst tilej <= 3 < snd tilej.
Proof. apply (square_tiling_covers 0 10 4 1 true 9 3); lia. Defined.

(** X4. Without [square], for a positive step and a non-negative edge,
    both spans of every yielded tile lie inside [[start, stop)] and are not
    empty, and there are [n * n] tiles for [n] the span divided by the step,
    rounded up. *)
Theorem square_tiling_spans_inside (start stop step edge : Z)
    (tiles : list ((Z * Z) * (Z * Z))) :
  0 < step -> 0 <= edge ->
  square_matrix_tiling start stop step edge false = Ok tiles ->
  Forall (fun t => span_inside start stop (fst t) /\
                   span_inside start stop (snd t)) tiles /\
  exists n, step * (n - 1) < stop - start <= step * n /\
            Z.of_nat (length tiles) = Z.max 0 n * Z.max 0 n.
Proof.
  intros Hs He. unfold square_matrix_tiling.
  destruct (tile_count_bounds (stop - start) step Hs) as (n & -> & Hn).
  cbn [bind]. intros Heq. apply Ok_inj in Heq. subst tiles. split.
  - apply List.Forall_forall. intros t Hin.
    apply in_square_tiling in Hin as (tx & ty & Htx & Hty & ->).
    pose proof (square_window_inside (stop - start) step edge tx Hs He
                  ltac:(lia) ltac:(nia)) as Hx.
    pose proof (square_window_inside (stop - start) step edge ty Hs He
                  ltac:(lia) ltac:(nia)) as Hy.
    cbn zeta in Hx, Hy. unfold span_inside; cbn [fst snd]. lia.
  - exists n. split; [exact Hn|].
    rewrite (flat_map_constant_length (c := Z.to_nat (n - 0))).
    + unfold range. rewrite length_map, length_seq. lia.
    + intros tx _. unfold range. now rewrite !length_map, length_seq.
Qed.

Lemma square_tiling_spans_inside_witness :
  exists tiles, square_matrix_tiling 0 10 4 1 false = Ok tiles /\
    Forall (fun t => span_inside 0 10 (fst t) /\ span_inside 0 10 (snd t))
           tiles /\
    length tiles = 9%nat.
Proof.
  eexists. split; [reflexivity|].
  destruct (square_tiling_spans_inside 0 10 4 1 _ ltac:(lia) ltac:(lia)
              eq_refl) as [Hin _].
  split; [exact Hin|reflexivity].
Defined.

(** X5. With [square=True], a region shorter than [step + edge] gives tiles
    (at least one) whose spans all begin before [start]: the left end
    [stop - step - edge] of a boundary span is not kept inside the region. *)
Theorem square_tiling_short_region_leaves (start stop step edge : Z)
    (tiles : list ((Z * Z) * (Z * Z))) :
  0 < step -> 0 <= edge -> 0 < stop - start < step + edge ->
  square_matrix_tiling start stop step edge true = Ok tiles ->
  tiles <> [] /\
  Forall (fun t => fst (fst t) < start /\ fst (snd t) < start) tiles.
Proof.
  intros Hs He Hsize. unfold square_matrix_tiling.
  destruct (tile_count_bounds (stop - start) step Hs) as (n & -> & Hn).
  cbn [bind]. intros Heq. apply Ok_inj in Heq. subst tiles. split.
  - intros Hnil.
    assert (Hin : In ((fst (square_window (stop - start) step edge true 0) + start,
                       snd (square_window (stop - start) step edge true 0) + start),
                      (fst (square_window (stop - start) step edge true 0) + start,
                       snd (square_window (stop - start) step edge true 0) + start))
                     []).
    { rewrite <- Hnil. apply in_square_tiling. exists 0, 0.
      repeat split; nia. }
    destruct Hin.
  - apply List.Forall_forall. intros t Hin.
    apply in_square_tiling in Hin as (tx & ty & Htx & Hty & ->).
    unfold square_window; cbn [fst snd andb].
    destruct (Z.leb_spec (stop - start)
                (Z.min (stop - start) (step * (tx + 1) + edge)));
      destruct (Z.leb_spec (stop - start)
                  (Z.min (stop - start) (step * (ty + 1) + edge))); nia.
Qed.

Lemma square_tiling_short_region_leaves_witness :
  exists tiles, square_matrix_tiling 0 5 10 0 true = Ok tiles /\
    tiles = [((-5, 5), (-5, 5))] /\
    Forall (fun t => fst (fst t) < 0 /\ fst (snd t) < 0) tiles.
Proof.
  eexists. split; [reflexivity|]. split; [reflexivity|].
  apply (square_tiling_short_region_leaves 0 5 10 0); [lia|lia|lia|reflexivity].
Defined.

(** *** The tiles of [heatmap_tiles_generator_diag] *)

Lemma square_tiling_members (start stop step edge : Z) (square : bool) :
  0 < step ->
  exists n tiles,
    step * (n - 1) < stop - start <= step * n /\
    square_matrix_tiling start stop step edge square = Ok tiles /\
    forall t, In t tiles <->
      exists tx ty, 0 <= tx < n /\ 0 <= ty < n /\
        t = ((fst (square_window (stop - start) step edge square tx) + start,
              snd (square_window (stop - start) step edge square tx) + start),
             (fst (square_window (stop - start) step edge square ty) + start,
              snd (square_window (stop - start) step edge square ty) + start)).
Proof.
  intros Hs. unfold square_matrix_tiling.
  destruct (tile_count_bounds (stop - start) step Hs) as (n & -> & Hn).
  cbn [bind]. exists n. eexists. split; [exact Hn|]. split; [reflexivity|].
  intros t. apply in_square_tiling.
Qed.

Lemma in_chrom_tiles (chrom : string) (chr_start chr_stop : Z)
    (pad_size tile_size band_to_cover : Z) :
  0 < tile_size ->
  exists n tiles,
    tile_size * (n - 1) < chr_stop - chr_start <= tile_size * n /\
    chrom_tiles chrom chr_start chr_stop pad_size tile_size band_to_cover
      = Ok tiles /\
    forall c tilei tilej, In (c, tilei, tilej) tiles <->
      c = chrom /\
      intersects_band pad_size band_to_cover (tilei, tilej) = true /\
      exists tx ty, 0 <= tx < n /\ 0 <= ty < n /\
        let wx := square_window (chr_stop - chr_start) tile_size pad_size false tx in
        let wy := square_window (chr_stop - chr_start) tile_size pad_size false ty in
        tilei = (fst wx + chr_start, snd wx + chr_start) /\
        tilej = (fst wy + chr_start, snd wy + chr_start).
Proof.
  intros Hs. unfold chrom_tiles.
  destruct (square_tiling_members chr_start chr_stop tile_size pad_size false Hs)
    as (n & sq & Hn & -> & Hmem).
  cbn [bind]. exists n. eexists. split; [exact Hn|]. split; [reflexivity|].
  intros c tilei tilej. rewrite List.in_map_iff. split.
  - intros ([ti tj] & [= <- <- <-] & Hin). apply List.filter_In in Hin as [Hin Hf].
    apply Hmem in Hin as (tx & ty & Htx & Hty & [= -> ->]).
    split; [reflexivity|]. split; [exact Hf|]. exists tx, ty. cbn zeta. auto.
  - intros (-> & Hf & tx & ty & Htx & Hty & -> & ->).
    eexists (_, _). split; [reflexivity|]. apply List.filter_In.
    split; [|exact Hf]. apply Hmem. exists tx, ty. auto.
Qed.

(** With every chromosome known to the cooler, the generator returns the
    tiles of the chromosomes one after the other. *)
Lemma in_heatmap_tiles (clr_extent : string -> result (Z * Z))
    (chroms : list string) (pad_size tile_size band_to_cover : Z) :
  0 < tile_size ->
  (forall c, In c chroms -> exists extent, clr_extent c = Ok extent) ->
  exists tiles,
    heatmap_tiles_generator_diag clr_extent chroms pad_size tile_size
      band_to_cover = Ok tiles /\
    forall t, In t tiles <->
      exists c chr_start chr_stop here,
        In c chroms /\ clr_extent c = Ok (chr_start, chr_stop) /\
        chrom_tiles c chr_start chr_stop pad_size tile_size band_to_cover
          = Ok here /\
        In t here.
Proof.
  intros Hs. induction chroms as [|chrom rest IH]; intros Hext.
  - exists []. split; [reflexivity|]. intros t. split; [intros []|].
    intros (c & _ & _ & _ & [] & _).
  - destruct (Hext chrom (or_introl eq_refl)) as ([a b] & Ea).
    destruct IH as (more & Emore & Hmore).
    { intros c Hc. apply Hext. now right. }
    destruct (in_chrom_tiles chrom a b pad_size tile_size band_to_cover Hs)
      as (n & here & _ & Ehere & _).
    cbn [heatmap_tiles_generator_diag]. rewrite Ea. cbn [bind].
    rewrite Ehere. cbn [bind]. rewrite Emore. cbn [bind].
    eexists. split; [reflexivity|]. intros t. rewrite List.in_app_iff. split.
    + intros [Hin|Hin].
      * exists chrom, a, b, here. repeat split; auto. now left.
      * apply Hmore in Hin as (c & a' & b' & h' & Hc & Ec & Eh & Hin).
        exists c, a', b', h'. repeat split; auto. now right.
    + intros (c & a' & b' & h' & [<-|Hc] & Ec & Eh & Hin).
      * left. rewrite Ea in Ec. injection Ec as <- <-.
        rewrite Ehere in Eh. apply Ok_inj in Eh. now subst.
      * right. apply Hmore. exists c, a', b', h'. auto.
Qed.

(** A pixel of the band lies, with its padding, in a tile of its
    chromosome that passes the filter. *)
Lemma chrom_tiles_cover (chrom : string) (chr_start chr_stop : Z)
    (pad_size tile_size band_to_cover i j : Z) :
  0 < tile_size -> 0 <= pad_size ->
  2 * pad_size < band_to_cover -> 2 * pad_size < chr_stop - chr_start ->
  chr_start <= i -> i <= j -> j < chr_stop -> j - i < band_to_cover ->
  exists tiles tilei tilej,
    chrom_tiles chrom chr_start chr_stop pad_size tile_size band_to_cover
      = Ok tiles /\
    In (chrom, tilei, tilej) tiles /\
    padded_in chr_start chr_stop pad_size i tilei /\
    padded_in chr_start chr_stop pad_size j tilej.
Proof.
  intros Hs He Hband Hsize Hi Hij Hj Hd.
  destruct (in_chrom_tiles chrom chr_start chr_stop pad_size tile_size
              band_to_cover Hs) as (n & tiles & Hn & Etiles & Hmem).
  exists tiles.
  set (size := chr_stop - chr_start) in *.
  set (tx0 := (i - chr_start) / tile_size).
  set (ty0 := (j - chr_start) / tile_size).
  set (t1 := pad_size / tile_size).
  set (t2 := (size - pad_size - 1) / tile_size).
  assert (Hx0 : tile_size * tx0 <= i - chr_start < tile_size * tx0 + tile_size).
  { pose proof (Z.div_mod (i - chr_start) tile_size ltac:(lia)).
    pose proof (Z.mod_pos_bound (i - chr_start) tile_size Hs). subst tx0. lia. }
  assert (Hy0 : tile_size * ty0 <= j - chr_start < tile_size * ty0 + tile_size).
  { pose proof (Z.div_mod (j - chr_start) tile_size ltac:(lia)).
    pose proof (Z.mod_pos_bound (j - chr_start) tile_size Hs). subst ty0. lia. }
  assert (H1 : tile_size * t1 <= pad_size < tile_size * t1 + tile_size).
  { pose proof (Z.div_mod pad_size tile_size ltac:(lia)).
    pose proof (Z.mod_pos_bound pad_size tile_size Hs). subst t1. lia. }
  assert (H2 : tile_size * t2 <= size - pad_size - 1 < tile_size * t2 + tile_size).
  { pose proof (Z.div_mod (size - pad_size - 1) tile_size ltac:(lia)).
    pose proof (Z.mod_pos_bound (size - pad_size - 1) tile_size Hs).
    subst t2. lia. }
  assert (P0 : 0 <= tile_size * tx0)
    by (assert (0 <= tx0) by (apply Z.div_pos; lia); nia).
  assert (P1 : 0 <= tile_size * ty0)
    by (assert (0 <= ty0) by (apply Z.div_pos; lia); nia).
  assert (P2 : 0 <= tile_size * t1)
    by (assert (0 <= t1) by (apply Z.div_pos; lia); nia).
  assert (P3 : 0 <= tile_size * t2)
    by (assert (0 <= t2) by (apply Z.div_pos; lia); nia).
  assert (Hin : forall t, 0 <= tile_size * t < size -> 0 <= t < n) by (intros t Ht; nia).
  assert (Hpick : exists tx ty,
            0 <= tx < n /\ 0 <= ty < n /\
            let wx := square_window size tile_size pad_size false tx in
            let wy := square_window size tile_size pad_size false ty in
            intersects_band pad_size band_to_cover
              ((fst wx + chr_start, snd wx + chr_start),
               (fst wy + chr_start, snd wy + chr_start)) = true /\
            padded_in chr_start chr_stop pad_size i
              (fst wx + chr_start, snd wx + chr_start) /\
            padded_in chr_start chr_stop pad_size j
              (fst wy + chr_start, snd wy + chr_start)).
  { unfold intersects_band, padded_in, square_window. cbn [fst snd andb].
    destruct (Z_le_dec (tile_size * ty0 + tile_size) pad_size) as [Ha|Ha];
      [|destruct (Z_le_dec (size - tile_size * tx0) pad_size) as [Hb|Hb]].
    - exists t1, t1. split; [apply Hin; lia|]. split; [apply Hin; lia|].
      replace (tile_size * (t1 + 1)) with (tile_size * t1 + tile_size) by lia.
      split; [apply Z.ltb_lt; lia|]. subst size. split; lia.
    - exists t2, t2. split; [apply Hin; lia|]. split; [apply Hin; lia|].
      replace (tile_size * (t2 + 1)) with (tile_size * t2 + tile_size) by lia.
      split; [apply Z.ltb_lt; lia|]. subst size. split; lia.
    - exists tx0, ty0. split; [apply Hin; lia|]. split; [apply Hin; lia|].
      replace (tile_size * (tx0 + 1)) with (tile_size * tx0 + tile_size) by lia.
      replace (tile_size * (ty0 + 1)) with (tile_size * ty0 + tile_size) by lia.
      split; [apply Z.ltb_lt; lia|]. subst size. split; lia. }
  destruct Hpick as (tx & ty & Htx & Hty & Hf & Hpi & Hpj).
  do 2 eexists. split; [exact Etiles|]. split; [|split; [exact Hpi|exact Hpj]].
  apply Hmem. split; [reflexivity|]. split; [exact Hf|].
  exists tx, ty. cbn zeta. auto.
Qed.

Lemma chrom_tiles_none (chrom : string) (chr_start chr_stop : Z)
    (pad_size tile_size band_to_cover : Z) (tiles : list (string * (Z * Z) * (Z * Z))) :
  0 < tile_size ->
  band_to_cover <= 2 * pad_size \/ chr_stop - chr_start <= 2 * pad_size ->
  chrom_tiles chrom chr_start chr_stop pad_size tile_size band_to_cover
    = Ok tiles ->
  tiles = [].
Proof.
  intros Hs Hsmall Etiles.
  destruct (in_chrom_tiles chrom chr_start chr_stop pad_size tile_size
              band_to_cover Hs) as (n & tiles' & Hn & Etiles' & Hmem).
  rewrite Etiles in Etiles'. apply Ok_inj in Etiles'. subst tiles'.
  destruct tiles as [|[[c ti] tj] rest]; [reflexivity|]. exfalso.
  destruct (proj1 (Hmem c ti tj) (or_introl eq_refl))
    as (_ & Hf & tx & ty & _ & _ & -> & ->).
  unfold intersects_band, square_window in Hf. cbn [fst snd andb] in Hf.
  apply Z.ltb_lt in Hf. lia.
Qed.

(** X6. With a positive tile size, a padding [pad_size >= 0], a band wider
    than [2 * pad_size] and a chromosome longer than [2 * pad_size], every
    pixel [(i, j)] of the chromosome with [0 <= j - i < band_to_cover] lies
    in a tile that [heatmap_tiles_generator_diag] yields for the chromosome,
    with [pad_size] bins of the tile around it on every side that is not
    the end of the chromosome. *)
Theorem heatmap_tiles_cover_band (clr_extent : string -> result (Z * Z))
    (chroms : list string) (pad_size tile_size band_to_cover : Z)
    (chrom : string) (chr_start chr_stop i j : Z) :
  0 < tile_size -> 0 <= pad_size ->
  (forall c, In c chroms -> exists extent, clr_extent c = Ok extent) ->
  In chrom chroms -> clr_extent chrom = Ok (chr_start, chr_stop) ->
  2 * pad_size < band_to_cover -> 2 * pad_size < chr_stop - chr_start ->
  chr_start <= i -> i <= j -> j < chr_stop -> j - i < band_to_cover ->
  exists tiles tilei tilej,
    heatmap_tiles_generator_diag clr_extent chroms pad_size tile_size
      band_to_cover = Ok tiles /\
    In (chrom, tilei, tilej) tiles /\
    padded_in chr_start chr_stop pad_size i tilei /\
    padded_in chr_start chr_stop pad_size j tilej.
Proof.
  intros Hs He Hext Hin Echrom Hband Hsize Hi Hij Hj Hd.
  destruct (in_heatmap_tiles clr_extent chroms pad_size tile_size
              band_to_cover Hs Hext) as (tiles & Etiles & Hmem).
  destruct (chrom_tiles_cover chrom chr_start chr_stop pad_size tile_size
              band_to_cover i j Hs He Hband Hsize Hi Hij Hj Hd)
    as (here & tilei & tilej & Ehere & Hhere & Hpi & Hpj).
  exists tiles, tilei, tilej. split; [exact Etiles|].
  split; [|split; [exact Hpi|exact Hpj]].
  apply Hmem. exists chrom, chr_start, chr_stop, here. auto.
Qed.

(** Two chromosomes, of 100 and of 30 bins. *)
Definition two_chroms (chrom : string) : result (Z * Z) :=
  if String.eqb chrom "chr1" then Ok (0, 100)
  else if String.eqb chrom "chr2" then Ok (100, 130)
  else Raise (KeyError chrom).

Lemma two_chroms_known (c : string) :
  In c ["chr1"; "chr2"]%string -> exists extent, two_chroms c = Ok extent.
Proof. intros [<-|[<-|[]]]; eexists; reflexivity. Qed.

Lemma heatmap_tiles_cover_band_witness :
  exists tiles tilei tilej,
    heatmap_tiles_generator_diag two_chroms ["chr1"; "chr2"]%string 3 20 15
      = Ok tiles /\
    In ("chr2"%string, tilei, tilej) tiles /\
    padded_in 100 130 3 118 tilei /\ padded_in 100 130 3 129 tilej.
Proof.
  apply (heatmap_tiles_cover_band two_chroms ["chr1"; "chr2"]%string 3 20 15
           "chr2"%string 100 130 118 129); try lia.
  - exact two_chroms_known.
  - right. now left.
  - reflexivity.
Defined.

(** X7. When the band is at most [2 * pad_size] wide, or the chromosome at
    most [2 * pad_size] long, [heatmap_tiles_generator_diag] yields no tile
    for the chromosome. *)
Theorem heatmap_tiles_skip_narrow (clr_extent : string -> result (Z * Z))
    (chroms : list string) (pad_size tile_size band_to_cover : Z)
    (chrom : string) (chr_start chr_stop : Z)
    (tiles : list (string * (Z * Z) * (Z * Z))) :
  0 < tile_size ->
  clr_extent chrom = Ok (chr_start, chr_stop) ->
  band_to_cover <= 2 * pad_size \/ chr_stop - chr_start <= 2 * pad_size ->
  heatmap_tiles_generator_diag clr_extent chroms pad_size tile_size
    band_to_cover = Ok tiles ->
  forall tilei tilej, ~ In (chrom, tilei, tilej) tiles.
Proof.
  intros Hs Echrom Hsmall. revert tiles.
  induction chroms as [|c rest IH]; intros tiles; cbn [heatmap_tiles_generator_diag].
  - intros Heq. apply Ok_inj in Heq. subst tiles. intros ti tj [].
  - destruct (clr_extent c) as [[a b]|e] eqn:Ec; [|discriminate]. cbn [bind].
    destruct (in_chrom_tiles c a b pad_size tile_size band_to_cover Hs)
      as (n & here & _ & Ehere & Hmem).
    rewrite Ehere. cbn [bind].
    destruct (heatmap_tiles_generator_diag clr_extent rest pad_size tile_size
                band_to_cover) as [more|e]; [|discriminate].
    cbn [bind]. intros Heq. apply Ok_inj in Heq. subst tiles.
    intros ti tj Hin. apply List.in_app_iff in Hin as [Hin|Hin].
    + pose proof (proj1 (Hmem _ _ _) Hin) as (-> & _).
      rewrite Echrom in Ec. injection Ec as <- <-.
      rewrite (chrom_tiles_none _ _ _ _ _ _ _ Hs Hsmall Ehere) in Hin.
      destruct Hin.
    + exact (IH more eq_refl ti tj Hin).
Qed.

Lemma heatmap_tiles_skip_narrow_witness :
  exists tiles,
    heatmap_tiles_generator_diag two_chroms ["chr1"; "chr2"]%string 20 50 45
      = Ok tiles /\
    forall tilei tilej, ~ In ("chr2"%string, tilei, tilej) tiles.
Proof.
  exists [("chr1"%string, (0, 70), (0, 70)); ("chr1"%string, (0, 70), (30, 100));
          ("chr1"%string, (30, 100), (30, 100))].
  split; [reflexivity|].
  apply (heatmap_tiles_skip_narrow two_chroms ["chr1"; "chr2"]%string 20 50 45
           "chr2"%string 100 130); [lia|reflexivity|right; lia|reflexivity].
Defined.

End Tiles.

(** ** The order of the floats *)

(** [<] on floats is transitive, and [a <= b] excludes [b < a]. *)
Class OrderLaws {F} (ops : FloatOps F) : Prop := {
  fltb_trans : forall a b c : F,
    fltb a b = true -> fltb b c = true -> fltb a c = true;
  fleb_not_gt : forall a b : F, fleb a b = true -> fltb b a = false
}.

Module Binary64Order.
Import Binary64.

Lemma SFltb_trans (a b c : spec_float) :
  SFltb a b = true -> SFltb b c = true -> SFltb a c = true.
Proof.
  unfold SFltb.
  destruct a as [sa|sa| |sa ma ea], b as [sb|sb| |sb mb eb],
           c as [sc|sc| |sc mc ec]; cbn;
    try destruct sa; try destruct sb; try destruct sc; cbn;
    try reflexivity; try discriminate;
    fold_pos_compare; rewrite ?Z.compare_refl, ?Pos.compare_refl; cbn;
    compare_cases; cbn; intros; try reflexivity; try congruence; try lia.
Qed.

Lemma SFleb_not_gt (a b : spec_float) :
  SFleb a b = true -> SFltb b a = false.
Proof.
  unfold SFleb, SFltb.
  destruct a as [sa|sa| |sa ma ea], b as [sb|sb| |sb mb eb]; cbn;
    try destruct sa; try destruct sb; cbn; try reflexivity; try discriminate;
    fold_pos_compare; rewrite ?Z.compare_refl, ?Pos.compare_refl; cbn;
    compare_cases; cbn; intros; try reflexivity; try congruence; try lia.
Qed.

#[export] Instance binary64_order_laws : OrderLaws binary64.
Proof.
  split.
  - intros a b c. cbn [fltb binary64]. rewrite !FloatAxioms.ltb_spec.
    apply SFltb_trans.
  - intros a b. cbn [fltb fleb binary64].
    rewrite FloatAxioms.ltb_spec, FloatAxioms.leb_spec. apply SFleb_not_gt.
Qed.

End Binary64Order.

(** ** Histograms of one tile

    [pd.cut(x, ledges)] gives every value the lambda-bin
    [(ledges[b], ledges[b+1]]] that contains it, and no bin to a value
    outside all of them; the bins are the categories of the result, in the
    order of the edges, and grouping by them visits every bin, with the
    rows of the bin (none for an empty bin).  pandas rejects edges that
    decrease or repeat with [ValueError]; edges that do not strictly
    increase are rejected here.  The columns of a histogram are identified
    by the position of their bin. *)

Module Histogram.
Import Frame Hist Extract.

Section WithFloat.
Context {F : Type} {ops : FloatOps F}.

(** The bins of the edges, in order. *)
Fixpoint intervals (ledges : list F) : list (F * F) :=
  match ledges with
  | [] => []
  | a :: rest =>
      match rest with
      | [] => []
      | b :: _ => (a, b) :: intervals rest
      end
  end.

Definition increasing (ledges : list F) : bool :=
  forallb (fun iv => fltb (fst iv) (snd iv)) (intervals ledges).

(** The position of the first bin that contains [x]. *)
Fixpoint find_bin (bins : list (F * F)) (x : F) : option nat :=
  match bins with
  | [] => None
  | iv :: rest => if contains iv x then Some O else S <$> find_bin rest x
  end.

(** [pd.cut(xs, ledges)]: the position of the bin of every value. *)
Definition cut (xs : list F) (ledges : list F) : result (list (option nat)) :=
  if increasing ledges then Ok (map (find_bin (intervals ledges)) xs)
  else Raise ValueError.

(** [np.bincount(l)]: for every count from 0 to the largest one in [l], how
    often it occurs; a negative entry raises. *)
Definition bincount (l : list Z) : result (list Z) :=
  if existsb (fun x => x <? 0) l then Raise ValueError
  else
    let amax := fold_right Z.max (-1) l in
    Ok (map (fun c => Z.of_nat (count_occ Z.eq_dec l c))
            (Tiling.range 0 (amax + 1))).

(** The rows of the group of bin [b]. *)
Definition in_group (lbins : list (option nat)) (b : nat) : list bool :=
  map (fun l => bool_decide (l = Some b)) lbins.

(** The loop over the groups: the histogram of [obs.raw] in every bin. *)
Fixpoint obs_hist_loop (scored_df : DataFrame F) (lbins : list (option nat))
    (bins : list nat) : result (list (list Z)) :=
  match bins with
  | [] => Ok []
  | lbin :: rest =>
      let grp_df := select_rows (in_group lbins lbin) scored_df in
      let* obs := getitem grp_df "obs.raw" in
      match obs with
      | IntS v =>
          let* h := bincount v in
          let* more := obs_hist_loop scored_df lbins rest in
          Ok (h :: more)
      | _ => Raise (AssertionError "")
      end
  end.

(** [pd.DataFrame(obs_hist).fillna(0).astype(np.integer)]: the columns
    continued with zeros to the length of the longest. *)
Definition fill_columns (cols : list (list Z)) : list (list Z) :=
  let rows := fold_right Nat.max 0%nat (map length cols) in
  map (fun col => col ++ replicate (rows - length col) 0) cols.

(** One turn of the loop over the kernels. *)
Definition kernel_hist (scored_df : DataFrame F) (ledges : list F)
    (k : string) : result (list (list Z)) :=
  let* la := getitem scored_df ("la_exp." +:+ k +:+ ".value") in
  let* xs := as_floats la in
  let* lbins := cut xs ledges in
  let* obs_hist :=
    obs_hist_loop scored_df lbins (seq 0 (length (intervals ledges))) in
  Ok (fill_columns obs_hist).

Fixpoint hist_loop (scored_df : DataFrame F) (ledges : list F)
    (kernels : list string) (hists : gmap string (list (list Z)))
  : result (gmap string (list (list Z))) :=
  match kernels with
  | [] => Ok hists
  | k :: rest =>
      let* t := kernel_hist scored_df ledges k in
      hist_loop scored_df ledges rest (<[k := t]> hists)
  end.

(** [histogram_scored_pixels(scored_df, kernels, ledges)] *)
Definition histogram_scored_pixels (scored_df : DataFrame F)
    (kernels : list string) (ledges : list F)
  : result (gmap string (list (list Z))) :=
  hist_loop scored_df ledges kernels ∅.

(** The per-tile job mapped over the scored tables of the tiles. *)
Fixpoint histogram_chunks (scored : list (DataFrame F))
    (kernels : list string) (ledges : list F)
  : result (list (gmap string (list (list Z)))) :=
  match scored with
  | [] => Ok []
  | scored_df :: rest =>
      let* h := histogram_scored_pixels scored_df kernels ledges in
      let* more := histogram_chunks rest kernels ledges in
      Ok (h :: more)
  end.

(** [x] lies in the bin [(ledges[b], ledges[b+1]]]. *)
Definition in_bin (ledges : list F) (b : nat) (x : F) : bool :=
  match ledges !! b, ledges !! S b with
  | Some lo, Some hi => contains (lo, hi) x
  | _, _ => false
  end.

(** The locally adjusted expected of row [j] for kernel [k]. *)
Definition la_exp_at (scored_df : DataFrame F) (k : string) (j : nat)
  : option F :=
  lookup_col ("la_exp." +:+ k +:+ ".value") (columns scored_df)
    ≫= (fun la => match as_floats la with
                  | Ok xs => xs !! j
                  | Raise _ => None
                  end).

(** Row [j] has the observed count [c] and a locally adjusted expected for
    kernel [k] in the bin [b]. *)
Definition counted (scored_df : DataFrame F) (ledges : list F) (k : string)
    (b : nat) (c : Z) (j : nat) : bool :=
  match int_at scored_df "obs.raw" j, la_exp_at scored_df k j with
  | Some o, Some x => (o =? c) && in_bin ledges b x
  | _, _ => false
  end.

Definition count_rows (scored_df : DataFrame F) (p : nat -> bool) : Z :=
  Z.of_nat (length (List.filter p (seq 0 (nrows scored_df)))).

(** The total of a table, [t.sum().sum()]. *)
Definition table_total (t : list (list Z)) : Z := sum_list (map sum_list t).

(** Row [j] has a locally adjusted expected for kernel [k] that lies in
    some bin. *)
Definition binned (scored_df : DataFrame F) (ledges : list F) (k : string)
    (j : nat) : bool :=
  match la_exp_at scored_df k j with
  | Some x => existsb (fun iv => contains iv x) (intervals ledges)
  | None => false
  end.

End WithFloat.

(** *** Lists of counts *)

Lemma length_intervals {F} (ledges : list F) :
  length (intervals ledges) = (length ledges - 1)%nat.
Proof.
  induction ledges as [|a [|b rest] IH]; cbn [intervals length] in *;
    [reflexivity|reflexivity|]. rewrite IH. lia.
Qed.

Lemma fold_max_ge (l : list Z) (x : Z) :
  In x l -> x <= fold_right Z.max (-1) l.
Proof.
  induction l as [|y l IH]; [intros []|]. cbn [fold_right].
  intros [->|Hin]; [lia|]. specialize (IH Hin). lia.
Qed.

Lemma fold_max_lower (l : list Z) : -1 <= fold_right Z.max (-1) l.
Proof. induction l as [|y l IH]; cbn [fold_right]; lia. Qed.

Lemma range_lookup (n : Z) (c : nat) :
  Tiling.range 0 n !! c = if decide (Z.of_nat c < n) then Some (Z.of_nat c) else None.
Proof.
  unfold Tiling.range. rewrite list_lookup_fmap.
  destruct (decide (Z.of_nat c < n)) as [Hlt|Hge].
  - rewrite lookup_seq_lt by lia. reflexivity.
  - rewrite lookup_seq_ge by lia. reflexivity.
Qed.

(** An entry of [np.bincount(l)] is the number of occurrences of its
    position in [l], also past the end. *)
Lemma bincount_lookup (l col : list Z) (c : nat) :
  bincount l = Ok col ->
  default 0 (col !! c) = Z.of_nat (count_occ Z.eq_dec l (Z.of_nat c)).
Proof.
  unfold bincount. destruct (existsb _ l); [discriminate|]. intros [= <-].
  rewrite list_lookup_fmap, range_lookup.
  destruct (decide _) as [Hlt|Hge]; [reflexivity|]. cbn.
  rewrite (proj1 (count_occ_not_In Z.eq_dec l (Z.of_nat c))); [reflexivity|].
  intros Hin. apply fold_max_ge in Hin. lia.
Qed.

Lemma sum_list_app (x y : list Z) : sum_list (x ++ y) = sum_list x + sum_list y.
Proof. unfold sum_list. induction x as [|a x IH]; cbn [app fold_right]; lia. Qed.

Lemma sum_list_replicate_0 (n : nat) : sum_list (replicate n 0) = 0.
Proof. unfold sum_list. induction n as [|n IH]; cbn [replicate fold_right]; lia. Qed.

Lemma sum_count_occ (l : list Z) (n : nat) :
  Forall (fun x => 0 <= x < Z.of_nat n) l ->
  sum_list (map (fun c => Z.of_nat (count_occ Z.eq_dec l (Z.of_nat c))) (seq 0 n))
    = Z.of_nat (length l).
Proof.
  induction 1 as [|x l Hx Hl IH].
  - cbn [count_occ length]. induction (seq 0 n) as [|c s IHs]; cbn; [reflexivity|].
    exact IHs.
  - cbn [length]. rewrite Nat2Z.inj_succ, <- IH. clear IH Hl.
    assert (G : forall s : list nat, List.NoDup s ->
      sum_list (map (fun c => Z.of_nat (count_occ Z.eq_dec (x :: l) (Z.of_nat c))) s)
      = (if List.in_dec Nat.eq_dec (Z.to_nat x) s then 1 else 0) +
        sum_list (map (fun c => Z.of_nat (count_occ Z.eq_dec l (Z.of_nat c))) s)).
    { induction s as [|c s IHs]; intros Hnd.
      - cbn. reflexivity.
      - apply List.NoDup_cons_iff in Hnd as [Hc Hnd]. specialize (IHs Hnd).
        cbn [map]. change (sum_list (?a :: ?b)) with (a + sum_list b).
        rewrite IHs. cbn [count_occ].
        destruct (Z.eq_dec x (Z.of_nat c)) as [E|E].
        + destruct (List.in_dec Nat.eq_dec (Z.to_nat x) (c :: s)) as [_|Hn];
            [|exfalso; apply Hn; left; lia].
          destruct (List.in_dec Nat.eq_dec (Z.to_nat x) s) as [Hin|_]; [|lia].
          exfalso. apply Hc. replace c with (Z.to_nat x) by lia. exact Hin.
        + destruct (List.in_dec Nat.eq_dec (Z.to_nat x) (c :: s)) as [[Hin|Hin]|Hn].
          * exfalso. apply E. lia.
          * destruct (List.in_dec Nat.eq_dec (Z.to_nat x) s); [lia|contradiction].
          * destruct (List.in_dec Nat.eq_dec (Z.to_nat x) s) as [Hin|_]; [|lia].
            exfalso. apply Hn. now right. }
    rewrite (G (seq 0 n) (List.seq_NoDup n 0)).
    destruct (List.in_dec Nat.eq_dec (Z.to_nat x) (seq 0 n)) as [_|Hn]; [lia|].
    exfalso. apply Hn. apply List.in_seq. lia.
Qed.

(** The entries of [np.bincount(l)] add up to the length of [l]. *)
Lemma bincount_sum (l col : list Z) :
  bincount l = Ok col -> sum_list col = Z.of_nat (length l).
Proof.
  unfold bincount. destruct (existsb _ l) eqn:Eneg; [discriminate|].
  intros [= <-].
  pose proof (fold_max_lower l) as Hlow.
  set (amax := fold_right Z.max (-1) l) in *.
  unfold Tiling.range. rewrite List.map_map.
  replace (Z.to_nat (amax + 1 - 0)) with (Z.to_nat (amax + 1)) by lia.
  rewrite <- (sum_count_occ l (Z.to_nat (amax + 1))).
  - reflexivity.
  - apply List.Forall_forall. intros x Hin.
    pose proof (fold_max_ge l x Hin).
    assert ((x <? 0) = false).
    { destruct (x <? 0) eqn:E; [|reflexivity].
      assert (existsb (fun x => x <? 0) l = true)
        by (apply existsb_exists; eauto). congruence. }
    subst amax. lia.
Qed.

(** Counting in a selection is counting the selected positions. *)
Lemma count_occ_select (mask : list bool) (l : list Z) (c : Z) (s : nat) :
  length mask = length l ->
  count_occ Z.eq_dec (select mask l) c =
    length (List.filter (fun j => default false (mask !! (j - s)%nat) &&
                                  bool_decide (l !! (j - s)%nat = Some c))
                        (seq s (length l))).
Proof.
  revert l s. induction mask as [|b mask IH]; intros [|x l] s; cbn [length];
    try discriminate; [reflexivity|].
  intros [= Hlen]. cbn [seq List.filter select].
  replace (s - s)%nat with 0%nat by lia. cbn [lookup list_lookup default].
  assert (Hshift : List.filter
            (fun j => default false ((b :: mask) !! (j - s)%nat) &&
                      bool_decide ((x :: l) !! (j - s)%nat = Some c))
            (seq (S s) (length l)) =
          List.filter
            (fun j => default false (mask !! (j - S s)%nat) &&
                      bool_decide (l !! (j - S s)%nat = Some c))
            (seq (S s) (length l))).
  { apply List.filter_ext_in. intros j Hj. apply List.in_seq in Hj.
    replace (j - s)%nat with (S (j - S s)) by lia. reflexivity. }
  rewrite Hshift. specialize (IH l (S s) Hlen).
  destruct b; cbn [andb].
  - cbn [count_occ]. destruct (Z.eq_dec x c) as [->|Hne].
    + rewrite bool_decide_eq_true_2 by reflexivity. cbn [length]. now rewrite IH.
    + rewrite bool_decide_eq_false_2 by congruence. exact IH.
  - exact IH.
Qed.

Lemma length_select_filter {A} (mask : list bool) (l : list A) (s : nat) :
  length mask = length l ->
  length (select mask l) =
    length (List.filter (fun j => default false (mask !! (j - s)%nat))
                        (seq s (length l))).
Proof.
  revert l s. induction mask as [|b mask IH]; intros [|x l] s; cbn [length];
    try discriminate; [reflexivity|].
  intros [= Hlen]. cbn [seq List.filter select].
  replace (s - s)%nat with 0%nat by lia. cbn [lookup list_lookup default].
  assert (Hshift : List.filter
            (fun j => default false ((b :: mask) !! (j - s)%nat))
            (seq (S s) (length l)) =
          List.filter (fun j => default false (mask !! (j - S s)%nat))
            (seq (S s) (length l))).
  { apply List.filter_ext_in. intros j Hj. apply List.in_seq in Hj.
    replace (j - s)%nat with (S (j - S s)) by lia. reflexivity. }
  rewrite Hshift. specialize (IH l (S s) Hlen).
  destruct b; cbn [length]; now rewrite IH.
Qed.

(** *** What the loops build *)

Section Built.
Context {F : Type} {ops : FloatOps F}.
Implicit Types (df : DataFrame F).

Lemma obs_hist_loop_spec df (lbins : list (option nat)) (bins : list nat)
    (cols : list (list Z)) :
  obs_hist_loop df lbins bins = Ok cols ->
  length cols = length bins /\
  forall (i b : nat), bins !! i = Some b ->
    exists obsv col,
      lookup_col "obs.raw" (columns df) = Some (IntS obsv) /\
      cols !! i = Some col /\
      bincount (select (in_group lbins b) obsv) = Ok col.
Proof.
  revert cols. induction bins as [|b0 bins IH]; intros cols; cbn [obs_hist_loop].
  - intros [= <-]. split; [reflexivity|]. intros i b. discriminate.
  - unfold getitem. cbn [select_rows columns]. rewrite lookup_select.
    destruct (lookup_col "obs.raw" (columns df)) as [[v|v|v|v]|] eqn:Eobs;
      cbn [fmap option_fmap option_map series_select bind]; try discriminate.
    destruct (bincount (select (in_group lbins b0) v)) as [h|e] eqn:Eh;
      [|discriminate]. cbn [bind].
    destruct (obs_hist_loop df lbins bins) as [more|e]; [|discriminate].
    cbn [bind]. intros [= <-]. destruct (IH more eq_refl) as [Hlen Hall].
    split; [cbn [length]; now rewrite Hlen|].
    intros [|i] b; cbn.
    + intros [= <-]. eauto.
    + apply Hall.
Qed.

Lemma fold_nat_max_ge (l : list nat) (x : nat) :
  In x l -> (x <= fold_right Nat.max 0%nat l)%nat.
Proof.
  induction l as [|y l IH]; [intros []|]. cbn [fold_right].
  intros [->|Hin]; [lia|]. specialize (IH Hin). lia.
Qed.

Lemma fill_columns_lookup (cols : list (list Z)) (b : nat) :
  fill_columns cols !! b =
    (fun col => col ++ replicate (fold_right Nat.max 0%nat (map length cols)
                                  - length col)%nat 0) <$> cols !! b.
Proof. unfold fill_columns. apply list_lookup_fmap. Qed.

Lemma fill_columns_ok (cols : list (list Z)) :
  table_ok (length cols) (fill_columns cols).
Proof.
  split; [unfold fill_columns; apply length_map|].
  exists (fold_right Nat.max 0%nat (map length cols)).
  unfold fill_columns. apply List.Forall_forall. intros c Hc.
  apply List.in_map_iff in Hc as (col & <- & Hin).
  rewrite length_app, length_replicate.
  pose proof (fold_nat_max_ge (map length cols) (length col)
                (List.in_map length _ _ Hin)). lia.
Qed.

Lemma fill_columns_total (cols : list (list Z)) :
  table_total (fill_columns cols) = sum_list (map sum_list cols).
Proof.
  unfold table_total, fill_columns. rewrite List.map_map. f_equal.
  apply List.map_ext. intros col.
  now rewrite sum_list_app, sum_list_replicate_0, Z.add_0_r.
Qed.

Lemma kernel_hist_spec df (ledges : list F) (k : string) (t : list (list Z)) :
  kernel_hist df ledges k = Ok t ->
  exists la xs cols,
    lookup_col ("la_exp." +:+ k +:+ ".value") (columns df) = Some la /\
    as_floats la = Ok xs /\
    increasing ledges = true /\
    obs_hist_loop df (map (find_bin (intervals ledges)) xs)
      (seq 0 (length (intervals ledges))) = Ok cols /\
    t = fill_columns cols.
Proof.
  unfold kernel_hist, getitem, cut.
  destruct (lookup_col _ (columns df)) as [la|]; [|discriminate]. cbn [bind].
  destruct (as_floats la) as [xs|e] eqn:Exs; [|discriminate]. cbn [bind].
  destruct (increasing ledges); [|discriminate]. cbn [bind].
  destruct (obs_hist_loop _ _ _) as [cols|e] eqn:Ecols; [|discriminate].
  cbn [bind]. intros [= <-]. exists la, xs, cols. repeat split; assumption.
Qed.

Lemma kernel_hist_ok df (ledges : list F) (k : string) (t : list (list Z)) :
  kernel_hist df ledges k = Ok t -> table_ok (length ledges - 1)%nat t.
Proof.
  intros H. apply kernel_hist_spec in H as (la & xs & cols & _ & _ & _ & Hc & ->).
  apply obs_hist_loop_spec in Hc as [Hlen _].
  rewrite length_seq, length_intervals in Hlen. rewrite <- Hlen.
  apply fill_columns_ok.
Qed.

Lemma hist_loop_lookup df (ledges : list F) (kernels : list string)
    (h0 h : gmap string (list (list Z))) :
  hist_loop df ledges kernels h0 = Ok h ->
  (forall k, In k kernels ->
     exists t, h !! k = Some t /\ kernel_hist df ledges k = Ok t) /\
  (forall k, ~ In k kernels -> h !! k = h0 !! k).
Proof.
  revert h0. induction kernels as [|k0 rest IH]; intros h0; cbn [hist_loop].
  - intros [= <-]. split; [intros k []|reflexivity].
  - destruct (kernel_hist df ledges k0) as [t0|e] eqn:E0; [|discriminate].
    cbn [bind]. intros Hrest. destruct (IH _ Hrest) as [I1 I2]. split.
    + intros k [<-|Hin]; [|now apply I1].
      destruct (List.in_dec String.string_dec k0 rest) as [Hr|Hr];
        [now apply I1|].
      rewrite (I2 k0 Hr), lookup_insert_eq. eauto.
    + intros k Hn. rewrite I2 by (intros Hin; apply Hn; now right).
      apply lookup_insert_ne. intros ->. apply Hn. now left.
Qed.

Lemma histogram_scored_pixels_ok df (kernels : list string) (ledges : list F)
    (h : gmap string (list (list Z))) :
  histogram_scored_pixels df kernels ledges = Ok h ->
  hists_ok kernels (length ledges - 1)%nat h.
Proof.
  intros H k Hk. apply hist_loop_lookup in H as [H1 _].
  destruct (H1 k Hk) as (t & Et & Ek). exists t. split; [exact Et|].
  now apply (kernel_hist_ok df ledges k).
Qed.

Lemma histogram_chunks_spec (scored : list (DataFrame F))
    (kernels : list string) (ledges : list F)
    (hchunks : list (gmap string (list (list Z)))) :
  histogram_chunks scored kernels ledges = Ok hchunks ->
  Forall2 (fun df h => histogram_scored_pixels df kernels ledges = Ok h)
          scored hchunks.
Proof.
  revert hchunks. induction scored as [|df rest IH]; intros hchunks;
    cbn [histogram_chunks].
  - intros [= <-]. constructor.
  - destruct (histogram_scored_pixels df kernels ledges) as [h|e] eqn:Eh;
      [|discriminate]. cbn [bind].
    destruct (histogram_chunks rest kernels ledges) as [more|e]; [|discriminate].
    cbn [bind]. intros [= <-]. constructor; [exact Eh|now apply IH].
Qed.

End Built.

(** X8. The histograms that [histogram_scored_pixels] returns for the
    scored tables of any tiles, with the same kernels and edges, have for
    every kernel a table of [len(ledges) - 1] columns of equal length; so
    reducing them with [_sum_hists] never raises and gives a histogram of
    the same shape. *)
Theorem histograms_of_tiles_merge {F : Type} {ops : FloatOps F}
    (scored : list (DataFrame F)) (kernels : list string) (ledges : list F)
    (hchunks : list (gmap string (list (list Z)))) :
  scored <> [] ->
  histogram_chunks scored kernels ledges = Ok hchunks ->
  Forall (hists_ok kernels (length ledges - 1)%nat) hchunks /\
  exists final,
    reduce (_sum_hists kernels) hchunks = Ok final /\
    hists_ok kernels (length ledges - 1)%nat final.
Proof.
  intros Hne Hch. apply histogram_chunks_spec in Hch.
  assert (Hok : Forall (hists_ok kernels (length ledges - 1)%nat) hchunks).
  { clear Hne. induction Hch as [|df h scored' hchunks' Hh _ IH]; constructor;
      [now apply (histogram_scored_pixels_ok df)|exact IH]. }
  split; [exact Hok|].
  destruct Hch as [|df h scored' hchunks' _ _]; [congruence|].
  apply List.Forall_cons_iff in Hok as [Hh Hrest].
  destruct (reduce_merge kernels _ h hchunks' Hh Hrest) as [-> Hfin]. eauto.
Qed.

(** *** Bins *)

Section Bins.
Context {F : Type} {ops : FloatOps F}.
Implicit Types (df : DataFrame F).

Lemma intervals_lookup (ledges : list F) (b : nat) :
  intervals ledges !! b =
    match ledges !! b, ledges !! S b with
    | Some lo, Some hi => Some (lo, hi)
    | _, _ => None
    end.
Proof.
  revert b. induction ledges as [|a [|a' rest] IH]; intros b.
  - reflexivity.
  - destruct b as [|[|b]]; reflexivity.
  - destruct b as [|b]; [reflexivity|].
    change (intervals (a :: a' :: rest) !! S b) with (intervals (a' :: rest) !! b).
    rewrite IH. reflexivity.
Qed.

Lemma find_bin_Some (bins : list (F * F)) (x : F) (b : nat) :
  find_bin bins x = Some b <->
  exists iv, bins !! b = Some iv /\ contains iv x = true /\
    forall b' iv', (b' < b)%nat -> bins !! b' = Some iv' ->
                   contains iv' x = false.
Proof.
  revert b. induction bins as [|iv0 bins IH]; intros b; cbn [find_bin].
  - split; [discriminate|]. intros (iv & H & _). discriminate.
  - destruct (contains iv0 x) eqn:E0.
    + split.
      * intros [= <-]. exists iv0. split; [reflexivity|]. split; [exact E0|].
        intros b' iv' Hlt. lia.
      * intros (iv & Hb & Hc & Hfirst). destruct b as [|b]; [reflexivity|].
        rewrite (Hfirst 0%nat iv0) in E0; [discriminate|lia|reflexivity].
    + destruct b as [|b].
      * split.
        -- destruct (find_bin bins x); discriminate.
        -- intros (iv & [= <-] & Hc & _). congruence.
      * specialize (IH b).
        assert (Hrest : (exists iv, (iv0 :: bins) !! S b = Some iv /\
                           contains iv x = true /\
                           forall b' iv', (b' < S b)%nat ->
                             (iv0 :: bins) !! b' = Some iv' ->
                             contains iv' x = false) <->
                        (exists iv, bins !! b = Some iv /\ contains iv x = true /\
                           forall b' iv', (b' < b)%nat -> bins !! b' = Some iv' ->
                                          contains iv' x = false)).
        { split; intros (iv & Hb & Hc & Hfirst); exists iv;
            (split; [exact Hb|]); (split; [exact Hc|]).
          - intros b' iv' Hlt Hb'. apply (Hfirst (S b') iv'); [lia|exact Hb'].
          - intros [|b'] iv' Hlt; cbn.
            + intros [= <-]. exact E0.
            + apply Hfirst. lia. }
        rewrite Hrest, <- IH.
        destruct (find_bin bins x); cbn; split; congruence.
Qed.

Lemma find_bin_lt (bins : list (F * F)) (x : F) (b : nat) :
  find_bin bins x = Some b -> (b < length bins)%nat.
Proof.
  intros H. apply find_bin_Some in H as (iv & Hb & _).
  now apply lookup_lt_Some in Hb.
Qed.

Lemma find_bin_is_Some (bins : list (F * F)) (x : F) :
  bool_decide (is_Some (find_bin bins x)) = existsb (fun iv => contains iv x) bins.
Proof.
  induction bins as [|iv bins IH]; cbn [find_bin existsb].
  - apply bool_decide_eq_false_2. intros [? [=]].
  - destruct (contains iv x); cbn [orb].
    + apply bool_decide_eq_true_2. eauto.
    + rewrite <- IH. apply bool_decide_ext. apply fmap_is_Some.
Qed.

Context {laws : OrderLaws ops}.

Lemma increasing_lookup (ledges : list F) (i j : nat) (a b : F) :
  increasing ledges = true -> (i < j)%nat ->
  ledges !! i = Some a -> ledges !! j = Some b -> fltb a b = true.
Proof.
  unfold increasing. rewrite forallb_forall. intros Hinc.
  assert (Hstep : forall i a b, ledges !! i = Some a -> ledges !! S i = Some b ->
                                fltb a b = true).
  { intros i0 a0 b0 Ha Hb. apply (Hinc (a0, b0)).
    apply list_elem_of_In. apply (list_elem_of_lookup_2 _ i0).
    now rewrite intervals_lookup, Ha, Hb. }
  intros Hlt. revert b. induction j as [|j IH]; [lia|]. intros b Ha Hb.
  destruct (lookup_lt_is_Some_2 ledges j) as [m Hm].
  { apply lookup_lt_Some in Hb. lia. }
  destruct (decide (i = j)) as [->|Hne].
  - rewrite Ha in Hm. injection Hm as <-. now apply (Hstep j).
  - apply (fltb_trans a m b); [apply IH; [lia|exact Ha|exact Hm]|].
    now apply (Hstep j).
Qed.

(** With increasing edges a value lies in at most one bin, the one
    [pd.cut] gives it. *)
Lemma find_bin_in_bin (ledges : list F) (x : F) (b : nat) :
  increasing ledges = true ->
  bool_decide (find_bin (intervals ledges) x = Some b) = in_bin ledges b x.
Proof.
  intros Hinc. unfold in_bin.
  destruct (ledges !! b) as [lo|] eqn:Elo.
  2:{ apply bool_decide_eq_false_2. intros H.
      apply find_bin_Some in H as (iv & Hb & _).
      rewrite intervals_lookup, Elo in Hb. discriminate. }
  destruct (ledges !! S b) as [hi|] eqn:Ehi.
  2:{ apply bool_decide_eq_false_2. intros H.
      apply find_bin_Some in H as (iv & Hb & _).
      rewrite intervals_lookup, Elo, Ehi in Hb. discriminate. }
  destruct (contains (lo, hi) x) eqn:Ec.
  - apply bool_decide_eq_true_2. apply find_bin_Some. exists (lo, hi).
    split; [now rewrite intervals_lookup, Elo, Ehi|]. split; [exact Ec|].
    intros b' [lo' hi'] Hlt Hb'. rewrite intervals_lookup in Hb'.
    destruct (ledges !! b') as [l|]; [|discriminate].
    destruct (ledges !! S b') as [h|] eqn:Eh; [|discriminate].
    injection Hb' as <- <-.
    unfold contains in *. cbn [fst snd] in *.
    apply andb_true_iff in Ec as [Ec _].
    destruct (fleb x h) eqn:Ele; [|apply andb_false_r].
    apply fleb_not_gt in Ele.
    assert (Hhx : fltb h x = true); [|congruence].
    destruct (decide (S b' = b)) as [E|Hne].
    + subst b. rewrite Eh in Elo. injection Elo as <-. exact Ec.
    + apply (fltb_trans h lo x); [|exact Ec].
      apply (increasing_lookup ledges (S b') b); [exact Hinc|lia|exact Eh|exact Elo].
  - apply bool_decide_eq_false_2. intros H.
    apply find_bin_Some in H as (iv & Hb & Hc & _).
    rewrite intervals_lookup, Elo, Ehi in Hb. injection Hb as <-. congruence.
Qed.

End Bins.

(** *** Entries and totals *)

Section Counts.
Context {F : Type} {ops : FloatOps F}.
Implicit Types (df : DataFrame F).

Lemma lookup_col_In (name : string) (cols : list (string * Series F))
    (s : Series F) :
  lookup_col name cols = Some s -> In (name, s) cols.
Proof.
  induction cols as [|[n s'] cols IH]; cbn [lookup_col]; [discriminate|].
  destruct (String.eqb_spec n name) as [->|Hne].
  - intros [= ->]. now left.
  - intros H. right. now apply IH.
Qed.

Lemma well_formed_length df (name : string) (s : Series F) :
  well_formed df -> lookup_col name (columns df) = Some s ->
  series_length s = nrows df.
Proof.
  intros Hwf Hs. apply lookup_col_In in Hs.
  unfold well_formed in Hwf. rewrite List.Forall_forall in Hwf.
  exact (Hwf _ Hs).
Qed.

Lemma as_floats_length (la : Series F) (xs : list F) :
  as_floats la = Ok xs -> length xs = series_length la.
Proof.
  destruct la; cbn; intros [= <-]; try reflexivity; apply length_map.
Qed.

Lemma default_lookup_zeros (col : list Z) (n c : nat) :
  default 0 ((col ++ replicate n 0) !! c) = default 0 (col !! c).
Proof.
  destruct (decide (c < length col)%nat) as [Hlt|Hge].
  - now rewrite lookup_app_l.
  - rewrite lookup_app_r, (lookup_ge_None_2 col c) by lia.
    destruct (replicate n 0 !! (c - length col)%nat) as [z|] eqn:E;
      [|reflexivity].
    apply lookup_replicate in E as [-> _]. reflexivity.
Qed.

(** The values of [obs.raw] when it is an integer column. *)
Definition obs_values df : list Z :=
  match lookup_col "obs.raw" (columns df) with
  | Some (IntS v) => v
  | _ => []
  end.

Lemma obs_hist_loop_sums df (lbins : list (option nat)) (bins : list nat)
    (cols : list (list Z)) :
  obs_hist_loop df lbins bins = Ok cols ->
  sum_list (map sum_list cols) =
    sum_list (map (fun b => Z.of_nat (length (select (in_group lbins b)
                                                     (obs_values df)))) bins).
Proof.
  revert cols. induction bins as [|b0 bins IH]; intros cols; cbn [obs_hist_loop].
  - intros [= <-]. reflexivity.
  - unfold getitem, obs_values. cbn [select_rows columns]. rewrite lookup_select.
    destruct (lookup_col "obs.raw" (columns df)) as [[v|v|v|v]|] eqn:Eobs;
      cbn [fmap option_fmap option_map series_select bind]; try discriminate.
    destruct (bincount (select (in_group lbins b0) v)) as [h|e] eqn:Eh;
      [|discriminate]. cbn [bind].
    destruct (obs_hist_loop df lbins bins) as [more|e]; [|discriminate].
    cbn [bind]. intros [= <-]. specialize (IH more eq_refl).
    unfold obs_values in IH. rewrite Eobs in IH.
    cbn [map]. change (sum_list (?a :: ?b)) with (a + sum_list b).
    rewrite IH, (bincount_sum _ _ Eh). reflexivity.
Qed.

Lemma sum_list_map_add {A} (f g : A -> Z) (l : list A) :
  sum_list (map (fun a => f a + g a) l) = sum_list (map f l) + sum_list (map g l).
Proof.
  unfold sum_list. induction l as [|a l IH]; cbn [map fold_right]; lia.
Qed.

Lemma sum_filter_partition {A} (p : nat -> A -> bool) (q : A -> bool)
    (bs : list nat) (js : list A) :
  (forall j, In j js ->
     sum_list (map (fun b => if p b j then 1 else 0) bs) = if q j then 1 else 0) ->
  sum_list (map (fun b => Z.of_nat (length (List.filter (p b) js))) bs) =
    Z.of_nat (length (List.filter q js)).
Proof.
  induction js as [|j js IH]; intros H.
  - cbn [List.filter length]. clear H.
    induction bs as [|b bs IHb]; [reflexivity|exact IHb].
  - cbn [List.filter].
    assert (E : sum_list (map (fun b => Z.of_nat (length
                    (if p b j then j :: List.filter (p b) js
                     else List.filter (p b) js))) bs) =
                sum_list (map (fun b => (if p b j then 1 else 0) +
                    Z.of_nat (length (List.filter (p b) js))) bs)).
    { f_equal. apply List.map_ext. intros b. destruct (p b j); cbn [length]; lia. }
    rewrite E, sum_list_map_add, IH by (intros j' Hj'; apply H; now right).
    rewrite (H j (or_introl eq_refl)). destruct (q j); cbn [length]; lia.
Qed.

Lemma sum_indicator (l : option nat) (bs : list nat) :
  List.NoDup bs ->
  sum_list (map (fun b => if bool_decide (l = Some b) then 1 else 0) bs) =
    match l with
    | Some b0 => if List.in_dec Nat.eq_dec b0 bs then 1 else 0
    | None => 0
    end.
Proof.
  induction bs as [|b bs IH]; intros Hnd.
  - destruct l; reflexivity.
  - apply List.NoDup_cons_iff in Hnd as [Hb Hnd]. specialize (IH Hnd).
    cbn [map]. change (sum_list (?a :: ?b)) with (a + sum_list b). rewrite IH.
    destruct l as [b0|]; [|rewrite bool_decide_eq_false_2 by discriminate; lia].
    destruct (decide (b0 = b)) as [->|Hne].
    + rewrite bool_decide_eq_true_2 by reflexivity.
      destruct (List.in_dec Nat.eq_dec b bs); [contradiction|].
      destruct (List.in_dec Nat.eq_dec b (b :: bs)) as [_|Hn]; [lia|].
      exfalso. apply Hn. now left.
    + rewrite bool_decide_eq_false_2 by congruence.
      destruct (List.in_dec Nat.eq_dec b0 bs) as [Hin|Hnin];
        destruct (List.in_dec Nat.eq_dec b0 (b :: bs)) as [Hin'|Hnin'];
        try lia.
      * exfalso. apply Hnin'. now right.
      * destruct Hin' as [?|?]; [congruence|contradiction].
Qed.

(** The total of the table of one kernel is the number of rows whose
    locally adjusted expected lies in some bin. *)
Lemma kernel_hist_total df (ledges : list F) (k : string) (t : list (list Z)) :
  well_formed df -> kernel_hist df ledges k = Ok t ->
  table_total t = count_rows df (binned df ledges k).
Proof.
  intros Hwf Ht.
  apply kernel_hist_spec in Ht as (la & xs & cols & Hla & Hxs & Hinc & Hloop & ->).
  rewrite fill_columns_total, (obs_hist_loop_sums _ _ _ _ Hloop).
  assert (Hn : length xs = nrows df).
  { rewrite (as_floats_length _ _ Hxs). exact (well_formed_length df _ la Hwf Hla). }
  destruct (intervals ledges) as [|iv0 ivs] eqn:Eiv.
  { cbn [length seq map]. unfold count_rows.
    rewrite (List.filter_ext_in _ (fun _ => false)), List.filter_false;
      [reflexivity|].
    intros j _. unfold binned, la_exp_at. rewrite Hla. cbn [mbind option_bind].
    rewrite Hxs, Eiv. destruct (xs !! j); reflexivity. }
  assert (Hobs : length (obs_values df) = nrows df).
  { pose proof Hloop as Hloop'.
    apply obs_hist_loop_spec in Hloop' as [_ Hall].
    destruct (Hall 0%nat 0%nat eq_refl) as (obsv & _ & Eobs & _).
    unfold obs_values. rewrite Eobs.
    exact (well_formed_length df _ _ Hwf Eobs). }
  rewrite <- Eiv in *. clear iv0 ivs Eiv.
  set (lbins := map (find_bin (intervals ledges)) xs).
  unfold count_rows. rewrite <- Hobs.
  etransitivity;
    [|apply (sum_filter_partition
               (fun b j => default false (in_group lbins b !! (j - 0)%nat))
               (binned df ledges k))].
  - f_equal. apply List.map_ext. intros b. f_equal.
    apply length_select_filter.
    unfold in_group, lbins. rewrite !length_map. lia.
  - intros j Hj. apply List.in_seq in Hj.
    assert (Hj' : (j < length xs)%nat) by lia.
    destruct (lookup_lt_is_Some_2 xs j Hj') as [x Hx].
    unfold binned, la_exp_at. rewrite Hla. cbn [mbind option_bind].
    rewrite Hxs, Hx, <- find_bin_is_Some.
    assert (E : forall b, default false (in_group lbins b !! (j - 0)%nat) =
                          bool_decide (find_bin (intervals ledges) x = Some b)).
    { intros b. unfold in_group, lbins. rewrite Nat.sub_0_r, !list_lookup_fmap, Hx.
      reflexivity. }
    rewrite (List.map_ext _ _ (fun b => f_equal (fun c : bool => if c then 1 else 0) (E b))).
    rewrite sum_indicator by apply List.seq_NoDup.
    destruct (find_bin (intervals ledges) x) as [b0|] eqn:Ef.
    + rewrite bool_decide_eq_true_2 by eauto.
      destruct (List.in_dec Nat.eq_dec b0 _) as [_|Hout]; [reflexivity|].
      exfalso. apply Hout. apply List.in_seq. apply find_bin_lt in Ef. lia.
    + rewrite bool_decide_eq_false_2 by (intros [? [=]]). reflexivity.
Qed.

End Counts.

(** *** Totals under the merge *)

Lemma sum_list_add_fill (x y : list Z) :
  sum_list (add_fill x y) = sum_list x + sum_list y.
Proof.
  unfold sum_list. revert y.
  induction x as [|a x IH]; intros [|b y]; cbn [add_fill fold_right]; try lia.
  rewrite IH. lia.
Qed.

Lemma merge_tables_total (x y : list (list Z)) :
  length x = length y ->
  table_total (merge_tables x y) = table_total x + table_total y.
Proof.
  unfold table_total, merge_tables. revert y.
  induction x as [|a x IH]; intros [|b y]; cbn [length]; try discriminate;
    [reflexivity|].
  intros [= Hlen]. cbn [zip_with map].
  change (sum_list (?a :: ?b)) with (a + sum_list b).
  rewrite (IH y Hlen), sum_list_add_fill. lia.
Qed.

(** The total of the table of kernel [k] in a histogram. *)
Definition total_of (h : gmap string (list (list Z))) (k : string) : Z :=
  table_total (default [] (h !! k)).

Lemma merge_hists_total (kernels : list string) (W : nat)
    (hx hy : gmap string (list (list Z))) (k : string) :
  hists_ok kernels W hx -> hists_ok kernels W hy -> In k kernels ->
  total_of (merge_hists kernels hx hy) k = total_of hx k + total_of hy k.
Proof.
  intros Hx Hy Hk. unfold total_of.
  rewrite (proj1 (merge_hists_lookup kernels hx hy k) Hk). cbn [default].
  destruct (Hx k Hk) as (tx & -> & [Hlx _]), (Hy k Hk) as (ty & -> & [Hly _]).
  cbn [default]. apply merge_tables_total.
  change (length tx = length ty). lia.
Qed.

Lemma fold_merge_total (kernels : list string) (W : nat)
    (rest : list (gmap string (list (list Z))))
    (h : gmap string (list (list Z))) (k : string) :
  hists_ok kernels W h -> Forall (hists_ok kernels W) rest -> In k kernels ->
  total_of (fold_left (merge_hists kernels) rest h) k =
    total_of h k + sum_list (map (fun x => total_of x k) rest).
Proof.
  intros Hh Hrest Hk. revert h Hh.
  induction Hrest as [|x rest Hx Hrest IH]; intros h Hh; cbn [fold_left map].
  - unfold sum_list. cbn. lia.
  - change (sum_list (?a :: ?b)) with (a + sum_list b).
    rewrite IH by now apply merge_hists_ok.
    rewrite (merge_hists_total kernels W h x k Hh Hx Hk). lia.
Qed.

Import Binary64 Binary64Order.

(** Three scored pixels of one tile and the edges of two bins, in double
    precision. *)
Definition scored_tile : DataFrame float :=
  {| index := [0; 1; 2];
     columns :=
       [("obs.raw"%string, IntS [2; 0; 2]);
        ("la_exp.donut.value"%string, FloatS [lit 1 2; of_Z 4; lit 3 4])] |}.

Definition three_edges : list float := [PrimFloat.neg_infinity; of_Z 1; of_Z 10].

Lemma scored_tile_well_formed : well_formed scored_tile.
Proof. repeat constructor. Qed.

(** X9. In the histogram that [histogram_scored_pixels] returns for kernel
    [k], the entry for the observed count [c] in the column of bin [b] is
    the number of rows with [obs.raw = c] whose [la_exp.k.value] lies in
    [(ledges[b], ledges[b+1]]]; entries past the end of a column stand for
    zero. *)
Theorem histogram_entries_count_rows {F : Type} (ops : FloatOps F)
    (laws : OrderLaws ops) (scored_df : DataFrame F) (kernels : list string)
    (ledges : list F) (hists : gmap string (list (list Z))) (k : string) :
  well_formed scored_df ->
  histogram_scored_pixels scored_df kernels ledges = Ok hists ->
  In k kernels ->
  exists t, hists !! k = Some t /\
    length t = (length ledges - 1)%nat /\
    forall (b c : nat) (col : list Z), t !! b = Some col ->
      default 0 (col !! c) =
        count_rows scored_df (counted scored_df ledges k b (Z.of_nat c)).
Proof.
  intros Hwf Hh Hk. apply hist_loop_lookup in Hh as [H1 _].
  destruct (H1 k Hk) as (t & Et & Ekh). exists t. split; [exact Et|].
  split; [apply (kernel_hist_ok _ _ _ _ Ekh)|].
  apply kernel_hist_spec in Ekh as (la & xs & cols & Hla & Hxs & Hinc & Hloop & ->).
  intros b c col Hb. rewrite fill_columns_lookup in Hb.
  destruct (cols !! b) as [col0|] eqn:Ecol0; [|discriminate].
  cbn in Hb. injection Hb as <-. rewrite default_lookup_zeros.
  apply obs_hist_loop_spec in Hloop as [Hlen Hall].
  assert (Hbin : seq 0 (length (intervals ledges)) !! b = Some b).
  { apply lookup_lt_Some in Ecol0. rewrite Hlen, length_seq in Ecol0.
    now rewrite lookup_seq_lt. }
  destruct (Hall b b Hbin) as (obsv & col' & Eobs & Ecol' & Hcount).
  rewrite Ecol0 in Ecol'. injection Ecol' as <-.
  rewrite (bincount_lookup _ _ c Hcount).
  assert (Hn : length xs = nrows scored_df).
  { rewrite (as_floats_length _ _ Hxs).
    exact (well_formed_length scored_df _ la Hwf Hla). }
  assert (Ho : length obsv = nrows scored_df)
    by exact (well_formed_length scored_df _ _ Hwf Eobs).
  rewrite (count_occ_select _ _ _ 0%nat)
    by (unfold in_group; rewrite !length_map; lia).
  unfold count_rows. rewrite Ho. do 2 f_equal.
  apply List.filter_ext_in. intros j Hj. apply List.in_seq in Hj.
  destruct (lookup_lt_is_Some_2 xs j ltac:(lia)) as [x Hx].
  destruct (lookup_lt_is_Some_2 obsv j ltac:(lia)) as [o Hoj].
  unfold counted, int_at, la_exp_at. rewrite Eobs, Hla. cbn [mbind option_bind].
  rewrite Hxs, Hx, Hoj, <- (find_bin_in_bin ledges x b Hinc).
  unfold in_group. rewrite Nat.sub_0_r, !list_lookup_fmap, Hx, Hoj. cbn.
  rewrite andb_comm. f_equal.
  destruct (Z.eqb_spec o (Z.of_nat c)) as [->|Hne].
  - now apply bool_decide_eq_true_2.
  - apply bool_decide_eq_false_2. congruence.
Qed.

Lemma histogram_entries_count_rows_witness :
  exists t,
    ({[ "donut"%string := [[0; 0; 2]; [1; 0; 0]] ]}
       : gmap string (list (list Z))) !! "donut"%string = Some t /\
    length t = 2%nat /\
    forall (b c : nat) (col : list Z), t !! b = Some col ->
      default 0 (col !! c) =
        count_rows scored_tile
          (counted scored_tile three_edges "donut" b (Z.of_nat c)).
Proof.
  apply (histogram_entries_count_rows binary64 binary64_order_laws scored_tile
           ["donut"%string] three_edges).
  - exact scored_tile_well_formed.
  - vm_compute. reflexivity.
  - now left.
Defined.

Lemma chunk_total {F : Type} {ops : FloatOps F} (df : DataFrame F)
    (kernels : list string) (ledges : list F)
    (h : gmap string (list (list Z))) (k : string) :
  well_formed df -> histogram_scored_pixels df kernels ledges = Ok h ->
  In k kernels ->
  total_of h k = count_rows df (binned df ledges k).
Proof.
  intros Hwf Hh Hk. apply hist_loop_lookup in Hh as [H1 _].
  destruct (H1 k Hk) as (t & Et & Ekh). unfold total_of. rewrite Et.
  exact (kernel_hist_total df ledges k t Hwf Ekh).
Qed.

(** X10. For the scored tables of a non-empty sequence of tiles, the
    histograms of the tiles reduced with [_sum_hists] have, for every
    kernel, a table whose entries add up to the number of pixels of all the
    tiles whose [la_exp.k.value] lies in one of the bins: merging loses and
    repeats no pixel. *)
Theorem merged_histogram_total {F : Type} {ops : FloatOps F}
    (scored : list (DataFrame F)) (kernels : list string) (ledges : list F)
    (hchunks : list (gmap string (list (list Z)))) (k : string) :
  scored <> [] -> Forall well_formed scored ->
  histogram_chunks scored kernels ledges = Ok hchunks ->
  In k kernels ->
  exists final,
    reduce (_sum_hists kernels) hchunks = Ok final /\
    total_of final k =
      sum_list (map (fun df => count_rows df (binned df ledges k)) scored).
Proof.
  intros Hne Hwf Hch Hk. apply histogram_chunks_spec in Hch.
  assert (Hok : Forall (hists_ok kernels (length ledges - 1)) hchunks).
  { clear Hne Hwf. induction Hch as [|df h scored' hchunks' Hh _ IH]; constructor;
      [now apply (histogram_scored_pixels_ok df)|exact IH]. }
  assert (Hsum : sum_list (map (fun h => total_of h k) hchunks) =
                 sum_list (map (fun df => count_rows df (binned df ledges k))
                               scored)).
  { clear Hne Hok. induction Hch as [|df h scored' hchunks' Hh _ IH];
      [reflexivity|].
    apply List.Forall_cons_iff in Hwf as [Hdf Hwf]. cbn [map].
    change (sum_list (?a :: ?b)) with (a + sum_list b).
    rewrite (IH Hwf), (chunk_total df kernels ledges h k Hdf Hh Hk).
    reflexivity. }
  destruct Hch as [|df h scored' hchunks' _ _]; [congruence|].
  apply List.Forall_cons_iff in Hok as [Hh Hrest].
  destruct (reduce_merge kernels _ h hchunks' Hh Hrest) as [-> Hfin].
  eexists. split; [reflexivity|].
  rewrite (fold_merge_total kernels _ hchunks' h k Hh Hrest Hk).
  rewrite <- Hsum. reflexivity.
Qed.

(** A second tile, with one pixel outside the bins. *)
Definition scored_tile_2 : DataFrame float :=
  {| index := [0; 1];
     columns :=
       [("obs.raw"%string, IntS [1; 7]);
        ("la_exp.donut.value"%string, FloatS [of_Z 2; of_Z 11])] |}.

Lemma merged_histogram_total_witness :
  exists final,
    reduce (_sum_hists ["donut"%string])
      [ {[ "donut"%string := [[0; 0; 2]; [1; 0; 0]] ]};
        {[ "donut"%string := [[0; 0]; [0; 1]] ]} ] = Ok final /\
    total_of final "donut" = 4.
Proof.
  destruct (merged_histogram_total [scored_tile; scored_tile_2]
              ["donut"%string] three_edges
              [ {[ "donut"%string := [[0; 0; 2]; [1; 0; 0]] ]};
                {[ "donut"%string := [[0; 0]; [0; 1]] ]} ] "donut"%string)
    as (final & Hred & Htot).
  - discriminate.
  - repeat constructor.
  - vm_compute. reflexivity.
  - now left.
  - exists final. split; [exact Hred|]. rewrite Htot. vm_compute. reflexivity.
Defined.

Lemma histograms_of_tiles_merge_witness :
  Forall (hists_ok ["donut"%string] 2)
    [ {[ "donut"%string := [[0; 0; 2]; [1; 0; 0]] ]};
      {[ "donut"%string := [[0; 0]; [0; 1]] ]} ] /\
  exists final,
    reduce (_sum_hists ["donut"%string])
      [ {[ "donut"%string := [[0; 0; 2]; [1; 0; 0]] ]};
        {[ "donut"%string := [[0; 0]; [0; 1]] ]} ] = Ok final /\
    hists_ok ["donut"%string] 2 final.
Proof.
  apply (histograms_of_tiles_merge [scored_tile; scored_tile_2]
           ["donut"%string] three_edges).
  - discriminate.
  - vm_compute. reflexivity.
Defined.

End Histogram.
(** ** Finite results have finite operands *)

(** A finite product has finite factors, a finite quotient has a finite
    dividend and a divisor that is neither zero nor not-a-number, and a
    product that is a number has factors that are numbers. *)
Class FiniteLaws {F} (ops : FloatOps F) : Prop := {
  fmul_finite : forall x y : F,
    isfinite (fmul x y) = true -> isfinite x = true /\ isfinite y = true;
  fdiv_finite : forall a b : F,
    isfinite (fdiv a b) = true ->
    isfinite a = true /\ isnan b = false /\ feqb b (of_Z 0) = false;
  fmul_not_nan : forall x y : F,
    isnan (fmul x y) = false -> isnan x = false /\ isnan y = false
}.

Module Binary64Finite.
Import Binary64.

Definition sfinite (s : spec_float) : bool :=
  match s with
  | S754_zero _ | S754_finite _ _ _ => true
  | _ => false
  end.

Lemma SFeqb_finite_refl (s : bool) (m : positive) (e : Z) :
  SFeqb (S754_finite s m e) (S754_finite s m e) = true.
Proof.
  unfold SFeqb, SFcompare. destruct s; rewrite Z.compare_refl;
    fold_pos_compare; rewrite Pos.compare_refl; reflexivity.
Qed.

Lemma snan_false (s : spec_float) : s <> S754_nan -> snan s = false.
Proof.
  unfold snan. destruct s as [b|b| |b m e]; intros H.
  - destruct b; reflexivity.
  - destruct b; reflexivity.
  - contradiction.
  - now rewrite SFeqb_finite_refl.
Qed.

Lemma is_finite_spec (x : float) :
  PrimFloat.is_finite x = sfinite (Prim2SF x).
Proof.
  unfold PrimFloat.is_finite, PrimFloat.is_infinity.
  rewrite is_nan_spec, FloatAxioms.eqb_spec, FloatAxioms.abs_spec.
  change (Prim2SF infinity) with (S754_infinity false).
  destruct (Prim2SF x) as [s|s| |s m e]; try reflexivity.
  - destruct s; reflexivity.
  - rewrite snan_false by discriminate. reflexivity.
Qed.

Lemma SFmul_finite (x y : spec_float) :
  sfinite (SF64mul x y) = true -> sfinite x = true /\ sfinite y = true.
Proof.
  destruct x as [sx|sx| |sx mx ex], y as [sy|sy| |sy my ey];
    try (intros _; split; reflexivity); cbn; discriminate.
Qed.

Lemma SFdiv_finite (a b : spec_float) :
  sfinite (SF64div a b) = true ->
  sfinite a = true /\ snan b = false /\ SFeqb b (S754_zero false) = false.
Proof.
  destruct a as [sa|sa| |sa ma ea], b as [sb|sb| |sb mb eb];
    try (cbn; discriminate); intros _;
    (split; [reflexivity|]); (split; [apply snan_false; discriminate|]);
    try reflexivity; destruct sb; reflexivity.
Qed.

Lemma SFmul_not_nan (x y : spec_float) :
  snan (SF64mul x y) = false -> snan x = false /\ snan y = false.
Proof.
  destruct x as [sx|sx| |sx mx ex], y as [sy|sy| |sy my ey];
    try (cbn; discriminate); intros _;
    split; apply snan_false; discriminate.
Qed.

#[export] Instance binary64_finite_laws : FiniteLaws binary64.
Proof.
  split.
  - intros x y. cbn [isfinite fmul binary64].
    rewrite !is_finite_spec, FloatAxioms.mul_spec. apply SFmul_finite.
  - intros a b. cbn [isfinite isnan feqb fdiv of_Z binary64].
    rewrite !is_finite_spec, is_nan_spec, FloatAxioms.eqb_spec,
      FloatAxioms.div_spec, Prim2SF_zero.
    apply SFdiv_finite.
  - intros x y. cbn [isnan fmul binary64].
    rewrite !is_nan_spec, FloatAxioms.mul_spec. apply SFmul_not_nan.
Qed.

End Binary64Finite.
(** ** The rows of the scored table as pixels of the tile *)

Module Pixels.
Import Frame Scorer.

(** *** Column names determine the kernel *)

Lemma append_cons (c : ascii) (s t : string) :
  String c s +:+ t = String c (s +:+ t).
Proof. reflexivity. Qed.

Lemma append_empty (t : string) : "" +:+ t = t.
Proof. reflexivity. Qed.

Lemma length_append (s t : string) :
  String.length (s +:+ t) = (String.length s + String.length t)%nat.
Proof.
  induction s as [|c s IH]; [reflexivity|].
  rewrite append_cons. cbn [String.length]. now rewrite IH.
Qed.

Lemma append_inv_tail (s s' t : string) : s +:+ t = s' +:+ t -> s = s'.
Proof.
  revert s'. induction s as [|c s IH]; intros [|c' s'];
    rewrite ?append_cons, ?append_empty.
  - reflexivity.
  - intros H. apply (f_equal String.length) in H.
    cbn [String.length] in H. rewrite length_append in H. lia.
  - intros H. apply (f_equal String.length) in H.
    cbn [String.length] in H. rewrite length_append in H. lia.
  - intros [= -> H]. f_equal. now apply IH.
Qed.

Lemma value_name_inj (k k' : string) : value_name k = value_name k' -> k = k'.
Proof.
  unfold value_name. intros H. apply String.app_inj in H.
  now apply append_inv_tail in H.
Qed.

Lemma nnans_name_inj (k k' : string) : nnans_name k = nnans_name k' -> k = k'.
Proof.
  unfold nnans_name. intros H. apply String.app_inj in H.
  now apply append_inv_tail in H.
Qed.

(** *** Flattened arrays *)

Lemma has_shape_rows {A} (n m : nat) (X : matrix A) :
  has_shape n m X = true ->
  length X = n /\ Forall (fun row => length row = m) X.
Proof.
  unfold has_shape. rewrite andb_true_iff, forallb_forall, Nat.eqb_eq.
  intros [Hn Hrows]. split; [exact Hn|]. apply List.Forall_forall.
  intros row Hin. apply Nat.eqb_eq. now apply Hrows.
Qed.

Lemma flatten_lookup {A} (X : matrix A) (m r c : nat) :
  Forall (fun row => length row = m) X -> (c < m)%nat ->
  flatten X !! (r * m + c)%nat = cell X r c.
Proof.
  intros Hrows Hc. revert r. unfold flatten, cell.
  induction Hrows as [|row X Hrow Hrows IH]; intros r.
  - reflexivity.
  - cbn [concat]. destruct r as [|r].
    + rewrite lookup_app_l by (cbn; lia). reflexivity.
    + rewrite lookup_app_r by (cbn; lia).
      replace (S r * m + c - length row)%nat with (r * m + c)%nat by (cbn; lia).
      apply IH.
Qed.

Lemma flatten_length {A} (X : matrix A) (m : nat) :
  Forall (fun row => length row = m) X ->
  length (flatten X) = (length X * m)%nat.
Proof.
  unfold flatten. induction 1 as [|row X Hrow Hrows IH]; [reflexivity|].
  cbn [concat length]. rewrite length_app, IH, Hrow. lia.
Qed.

Lemma mapi2_rows {A B} (f : nat -> nat -> A -> B) (X : matrix A) (m : nat) :
  Forall (fun row => length row = m) X ->
  Forall (fun row => length row = m) (mapi2 f X).
Proof.
  intros Hrows. unfold mapi2. apply Forall_lookup. intros r row Hr.
  rewrite list_lookup_imap in Hr.
  destruct (X !! r) as [row0|] eqn:E; [|discriminate].
  cbn in Hr. injection Hr as <-. rewrite length_imap.
  rewrite Forall_lookup in Hrows. exact (Hrows r row0 E).
Qed.

Lemma mapi2_length {A B} (f : nat -> nat -> A -> B) (X : matrix A) :
  length (mapi2 f X) = length X.
Proof. unfold mapi2. apply length_imap. Qed.

Lemma map2_rows {A B C} (f : A -> B -> C) (X : matrix A) (Y : matrix B)
    (m : nat) :
  Forall (fun row => length row = m) X -> Forall (fun row => length row = m) Y ->
  Forall (fun row => length row = m) (map2 f X Y).
Proof.
  intros HX. revert Y. unfold map2.
  induction HX as [|rx X Hrx HX IH]; intros Y HY; [constructor|].
  destruct HY as [|ry Y Hry HY]; cbn [zip_with]; constructor.
  - rewrite length_zip_with. lia.
  - now apply IH.
Qed.

(** The flat position of a cell, and the cell of a flat position. *)
Lemma flat_position (m j : nat) :
  (0 < m)%nat -> (j = (j / m) * m + j mod m)%nat /\ (j mod m < m)%nat.
Proof.
  intros Hm. split.
  - pose proof (Nat.div_mod_eq j m). lia.
  - apply Nat.mod_upper_bound. lia.
Qed.

(** *** The columns of the unfiltered table *)

Section Rows.
Context {F : Type} {ops : FloatOps F}.
Implicit Types (df full : DataFrame F) (t : @tile_arrays F).

(** The two vectors of [bal_weights]. *)
Definition weights_pair (weights : bal_weights F) : list F * list F :=
  match weights with
  | Shared v => (v, v)
  | Separate v_i v_j => (v_i, v_j)
  end.

(** The locally adjusted expected and the count of not-a-number entries of
    one kernel on the prepared arrays. *)
Definition scores t (K : matrix F) : matrix F * matrix Z :=
  convolve_and_count_nans (O_bal t) (E_bal t) (E_raw t) (N_bal t) K.

Lemma score_kernel_lookup t bf df df' (k : string) (K : matrix F)
    (name : string) :
  score_kernel t bf df k K = Ok df' ->
  name <> kerobs_name k ->
  lookup_col name (columns df') =
    if String.eqb (nnans_name k) name
    then Some (IntS (flatten (snd (scores t K))))
    else if String.eqb (value_name k) name
         then Some (FloatS (flatten (fst (scores t K))))
         else lookup_col name (columns df).
Proof.
  unfold score_kernel. destruct (negb (kernel_ok K)); [discriminate|].
  cbn [convolve_and_count_nans]. intros [= <-] Hname.
  fold (value_name k) (nnans_name k) (kerobs_name k).
  set (df1 := match bf with
              | Some f => if truthy f && String.eqb k "lowleft" then _ else df
              | None => df
              end).
  assert (H1 : lookup_col name (columns df1) = lookup_col name (columns df)).
  { subst df1. destruct bf as [f|]; [|reflexivity].
    destruct (truthy f && String.eqb k "lowleft"); [|reflexivity].
    cbn [setitem columns]. apply lookup_assign_ne. congruence. }
  cbn [setitem columns].
  destruct (String.eqb_spec (nnans_name k) name) as [<-|Hn].
  - apply lookup_assign_eq.
  - rewrite lookup_assign_ne by exact Hn.
    destruct (String.eqb_spec (value_name k) name) as [<-|Hv].
    + apply lookup_assign_eq.
    + rewrite lookup_assign_ne by exact Hv. exact H1.
Qed.

Lemma kerobs_ne_value (k k' : string) : value_name k <> kerobs_name k'.
Proof. first_char_differs. Qed.

Lemma kerobs_ne_nnans (k k' : string) : nnans_name k <> kerobs_name k'.
Proof. first_char_differs. Qed.

(** A column that no kernel of the loop writes is left as it was. *)
Lemma score_kernels_other t bf (kernels : list (string * matrix F)) df df'
    (name : string) :
  score_kernels t bf df kernels = Ok df' ->
  (forall k, In k (map fst kernels) ->
     name <> value_name k /\ name <> nnans_name k /\ name <> kerobs_name k) ->
  lookup_col name (columns df') = lookup_col name (columns df).
Proof.
  revert df. induction kernels as [|[k K] rest IH]; intros df; cbn [score_kernels].
  - intros [= <-] _. reflexivity.
  - destruct (score_kernel t bf df k K) as [df1|e] eqn:E1; [|discriminate].
    cbn [bind]. intros Hrest Hname.
    rewrite (IH df1 Hrest) by (intros k' Hk'; apply Hname; now right).
    destruct (Hname k (or_introl eq_refl)) as (Hv & Hn & Hk).
    rewrite (score_kernel_lookup _ _ _ _ _ _ name E1 Hk).
    destruct (String.eqb_spec (nnans_name k) name); [congruence|].
    destruct (String.eqb_spec (value_name k) name); [congruence|]. reflexivity.
Qed.

(** The columns of a kernel hold its locally adjusted expected and its
    count, flattened. *)
Lemma score_kernels_value t bf (kernels : list (string * matrix F)) df df'
    (k : string) (K : matrix F) :
  List.NoDup (map fst kernels) ->
  score_kernels t bf df kernels = Ok df' -> In (k, K) kernels ->
  lookup_col (value_name k) (columns df')
    = Some (FloatS (flatten (fst (scores t K)))) /\
  lookup_col (nnans_name k) (columns df')
    = Some (IntS (flatten (snd (scores t K)))).
Proof.
  revert df. induction kernels as [|[k0 K0] rest IH]; intros df Hnd;
    cbn [score_kernels]; [intros _ []|].
  cbn [map fst] in Hnd. apply List.NoDup_cons_iff in Hnd as [Hk0 Hnd].
  destruct (score_kernel t bf df k0 K0) as [df1|e] eqn:E1; [|discriminate].
  cbn [bind]. intros Hrest [[= <- <-]|Hin]; [|now apply (IH df1)].
  assert (Hother : forall k', In k' (map fst rest) -> k' <> k0)
    by (intros k' Hk' ->; contradiction).
  split.
  - rewrite (score_kernels_other _ _ _ _ _ _ Hrest).
    + rewrite (score_kernel_lookup _ _ _ _ _ _ _ E1) by apply kerobs_ne_value.
      destruct (String.eqb_spec (nnans_name k0) (value_name k0)) as [E|_];
        [now apply nnans_ne_value in E|].
      now rewrite String.eqb_refl.
    + intros k' Hk'. repeat split.
      * intros E. apply value_name_inj in E. now apply (Hother k').
      * intros E. symmetry in E. now apply nnans_ne_value in E.
      * apply kerobs_ne_value.
  - rewrite (score_kernels_other _ _ _ _ _ _ Hrest).
    + rewrite (score_kernel_lookup _ _ _ _ _ _ _ E1) by apply kerobs_ne_nnans.
      now rewrite String.eqb_refl.
    + intros k' Hk'. repeat split.
      * apply nnans_ne_value.
      * intros E. apply nnans_name_inj in E. now apply (Hother k').
      * apply kerobs_ne_nnans.
Qed.

(** What [scored_table] holds when it returns. *)
Lemma scored_table_spec (origin : Z * Z) (observed : matrix Z)
    (expected : matrix F) (weights : bal_weights F)
    (kernels : list (string * matrix F)) (bf : option F) full :
  scored_table origin observed expected weights kernels bf = Ok full ->
  let n := length observed in
  let m := ncols observed in
  let v_bal_i := fst (weights_pair weights) in
  let v_bal_j := snd (weights_pair weights) in
  let t := prepare_tile (fst origin) (snd origin) observed expected
             v_bal_i v_bal_j in
  (has_shape n m observed = true /\ has_shape n m expected = true /\
   length v_bal_i = n /\ length v_bal_j = m) /\
  lookup_col "bin1_id" (columns full) =
    Some (IntS (flatten (mapi2 (fun r _ _ => Z.of_nat r + fst origin) observed))) /\
  lookup_col "bin2_id" (columns full) =
    Some (IntS (flatten (mapi2 (fun _ c _ => Z.of_nat c + snd origin) observed))) /\
  lookup_col "obs.raw" (columns full) = Some (IntS (flatten observed)) /\
  lookup_col "exp.raw" (columns full) = Some (FloatS (flatten (E_raw t))) /\
  (List.NoDup (map fst kernels) ->
   forall k K, In (k, K) kernels ->
     lookup_col (value_name k) (columns full)
       = Some (FloatS (flatten (fst (scores t K)))) /\
     lookup_col (nnans_name k) (columns full)
       = Some (IntS (flatten (snd (scores t K))))).
Proof.
  unfold scored_table, weights_pair. destruct origin as [io jo].
  destruct (match weights with Shared v => (v, v) | Separate v_i v_j => (v_i, v_j) end)
    as [v_bal_i v_bal_j].
  cbn [fst snd].
  destruct (has_shape _ _ observed && has_shape _ _ expected &&
            (length v_bal_i =? length observed)%nat &&
            (length v_bal_j =? ncols observed)%nat) eqn:Eshape;
    cbn [negb]; [|discriminate].
  apply andb_true_iff in Eshape as [Eshape Hj].
  apply andb_true_iff in Eshape as [Eshape Hi].
  apply andb_true_iff in Eshape as [Ho He].
  apply Nat.eqb_eq in Hi, Hj.
  match goal with |- context [score_kernels ?t ?b ?d ?ks] =>
    destruct (score_kernels t b d ks) as [df1|e] eqn:E end; [|discriminate].
  cbn [bind]. intros [= <-]. cbn zeta.
  split; [auto|]. cbn [setitem columns].
  assert (Hid : forall name,
            (forall k, name <> value_name k /\ name <> nnans_name k /\
                       name <> kerobs_name k) ->
            lookup_col name (columns df1) =
              lookup_col name
                [("bin1_id"%string,
                  IntS (flatten (mapi2 (fun r _ _ => Z.of_nat r + io) observed)));
                 ("bin2_id"%string,
                  IntS (flatten (mapi2 (fun _ c _ => Z.of_nat c + jo) observed)))]).
  { intros name Hname. rewrite (score_kernels_other _ _ _ _ _ _ E); [reflexivity|].
    intros k _. apply Hname. }
  split; [|split; [|split; [|split]]].
  - do 2 (rewrite lookup_assign_ne; [|first_char_differs]).
    rewrite Hid; [reflexivity|]. intros k. repeat split; first_char_differs.
  - do 2 (rewrite lookup_assign_ne; [|first_char_differs]).
    rewrite Hid; [reflexivity|]. intros k. repeat split; first_char_differs.
  - apply lookup_assign_eq.
  - rewrite lookup_assign_ne by first_char_differs. apply lookup_assign_eq.
  - intros Hnd k K Hin.
    destruct (score_kernels_value _ _ _ _ _ k K Hnd E Hin) as [Hv Hn].
    split; (do 2 (rewrite lookup_assign_ne; [|first_char_differs])); assumption.
Qed.

(** A cell of a row that the filter keeps is the cell of its row in the
    unfiltered table. *)
Lemma int_at_selected (keep : list bool) (full : DataFrame F) (name : string)
    (v : list Z)
    (i j : nat) :
  nth_true keep i = Some j ->
  lookup_col name (columns full) = Some (IntS v) ->
  int_at (reset_index (select_rows keep full)) name i = v !! j.
Proof.
  intros Hj Hv. unfold int_at. cbn [reset_index select_rows columns].
  rewrite lookup_select, Hv. cbn [fmap option_fmap option_map series_select].
  now rewrite select_lookup, Hj.
Qed.

Lemma float_at_selected (keep : list bool) (full : DataFrame F) (name : string)
    (v : list F)
    (i j : nat) :
  nth_true keep i = Some j ->
  lookup_col name (columns full) = Some (FloatS v) ->
  float_at (reset_index (select_rows keep full)) name i = v !! j.
Proof.
  intros Hj Hv. unfold float_at. cbn [reset_index select_rows columns].
  rewrite lookup_select, Hv. cbn [fmap option_fmap option_map series_select].
  now rewrite select_lookup, Hj.
Qed.

(** The rows that [get_adjusted_expected_tile_some_nans] returns: each is a
    row [j] of the unfiltered table with [bin1_id < bin2_id] and a finite
    locally adjusted expected for every kernel. *)
Lemma returned_rows (origin : Z * Z) (observed : matrix Z)
    (expected : matrix F) (weights : bal_weights F)
    (kernels : list (string * matrix F)) (bf : option F) df :
  get_adjusted_expected_tile_some_nans origin observed expected weights
    kernels bf = Ok df ->
  exists full keep,
    scored_table origin observed expected weights kernels bf = Ok full /\
    df = reset_index (select_rows keep full) /\
    forall i : nat, (i < nrows df)%nat ->
      exists j : nat,
        nth_true keep i = Some j /\
        (forall b1 b2,
           lookup_col "bin1_id" (columns full) = Some (IntS b1) ->
           lookup_col "bin2_id" (columns full) = Some (IntS b2) ->
           exists x y, b1 !! j = Some x /\ b2 !! j = Some y /\ x < y) /\
        (forall k K v, In (k, K) kernels ->
           lookup_col (value_name k) (columns full) = Some (FloatS v) ->
           exists xv, v !! j = Some xv /\ isfinite xv = true).
Proof.
  intros Hrun. unfold get_adjusted_expected_tile_some_nans in Hrun.
  destruct (scored_table _ _ _ _ _ _) as [full|e] eqn:Efull; [|discriminate].
  cbn [bind] in Hrun.
  destruct (keep_mask full kernels) as [keep|e] eqn:Ekeep; [|discriminate].
  cbn [bind] in Hrun. injection Hrun as <-.
  exists full, keep. split; [reflexivity|]. split; [reflexivity|].
  destruct (scored_table_spec _ _ _ _ _ _ _ Efull) as (_ & Hb1 & Hb2 & _).
  unfold keep_mask, getitem in Ekeep.
  destruct (nonfinite_mask full _ kernels) as [mask|e] eqn:Emask; [|discriminate].
  rewrite Hb1, Hb2 in Ekeep. cbn [bind series_lt] in Ekeep.
  injection Ekeep as <-.
  intros i Hi. unfold nrows, reset_index in Hi. cbn [index select_rows] in Hi.
  rewrite length_map, length_seq in Hi. unfold nrows in Hi. cbn [index] in Hi.
  destruct (select_lookup_lt _ _ _ Hi) as [j Hj]. exists j.
  split; [exact Hj|].
  pose proof (nth_true_Some _ _ _ Hj) as Hkeep.
  apply lookup_zip_with_Some in Hkeep as (a & u & Hau & Ha & Hu).
  symmetry in Hau. apply andb_true_iff in Hau as [-> ->].
  rewrite list_lookup_fmap in Ha.
  destruct (mask !! j) as [mj|] eqn:Emj; [|discriminate].
  cbn in Ha. injection Ha as Ha. apply negb_true_iff in Ha. subst mj.
  apply lookup_zip_with_Some in Hu as (x & y & Hxy & Hx & Hy).
  symmetry in Hxy. apply Z.ltb_lt in Hxy.
  destruct (nonfinite_mask_false _ _ _ _ _ Emask Emj) as [_ Hfin].
  split.
  - intros b1 b2 E1 E2. rewrite Hb1 in E1. rewrite Hb2 in E2.
    injection E1 as <-. injection E2 as <-. eauto.
  - intros k K v Hin Hv. exact (Hfin k K v Hin Hv).
Qed.

(** Row [i] of the returned table is the pixel at a position [(r, c)] of
    the tile, the flat position [r * m + c] of the unfiltered table. *)
Lemma returned_row_position (origin : Z * Z) (observed : matrix Z)
    (expected : matrix F) (weights : bal_weights F)
    (kernels : list (string * matrix F)) (bf : option F) df :
  get_adjusted_expected_tile_some_nans origin observed expected weights
    kernels bf = Ok df ->
  exists full keep,
    scored_table origin observed expected weights kernels bf = Ok full /\
    df = reset_index (select_rows keep full) /\
    forall i : nat, (i < nrows df)%nat ->
      exists (j r c : nat) (o : Z),
        nth_true keep i = Some j /\
        j = (r * ncols observed + c)%nat /\ (c < ncols observed)%nat /\
        cell observed r c = Some o /\
        int_at df "bin1_id" i = Some (Z.of_nat r + fst origin) /\
        int_at df "bin2_id" i = Some (Z.of_nat c + snd origin) /\
        int_at df "obs.raw" i = Some o /\
        Z.of_nat r + fst origin < Z.of_nat c + snd origin /\
        (forall k K v, In (k, K) kernels ->
           lookup_col (value_name k) (columns full) = Some (FloatS v) ->
           exists xv, v !! j = Some xv /\ isfinite xv = true).
Proof.
  intros Hrun.
  destruct (returned_rows _ _ _ _ _ _ _ Hrun) as (full & keep & Efull & -> & Hrows).
  exists full, keep. split; [exact Efull|]. split; [reflexivity|].
  destruct (scored_table_spec _ _ _ _ _ _ _ Efull)
    as ((Ho & _) & Hb1 & Hb2 & Hobs & _).
  apply has_shape_rows in Ho as [_ Hshape].
  set (m := ncols observed) in *.
  intros i Hi. destruct (Hrows i Hi) as (j & Hj & Hbins & Hfin).
  destruct (Hbins _ _ Hb1 Hb2) as (x & y & Hx & Hy & Hxy).
  assert (Hjlt : (j < length observed * m)%nat).
  { apply lookup_lt_Some in Hx.
    now rewrite (flatten_length _ m (mapi2_rows _ _ _ Hshape)), mapi2_length in Hx. }
  assert (Hm : (0 < m)%nat) by nia.
  destruct (flat_position m j Hm) as [Hjrc Hc].
  set (r := (j / m)%nat) in *. set (c := (j mod m)%nat) in *.
  assert (Hcell : exists o, cell observed r c = Some o).
  { rewrite <- (flatten_lookup observed m r c Hshape Hc), <- Hjrc.
    apply lookup_lt_is_Some_2. now rewrite (flatten_length _ m Hshape). }
  destruct Hcell as [o Ho].
  rewrite Hjrc, (flatten_lookup _ m r c (mapi2_rows _ _ _ Hshape) Hc),
    cell_mapi2, Ho in Hx.
  rewrite Hjrc, (flatten_lookup _ m r c (mapi2_rows _ _ _ Hshape) Hc),
    cell_mapi2, Ho in Hy.
  cbn in Hx, Hy. injection Hx as <-. injection Hy as <-.
  exists j, r, c, o. split; [exact Hj|]. split; [exact Hjrc|].
  split; [exact Hc|]. split; [exact Ho|].
  rewrite (int_at_selected keep full _ _ i j Hj Hb1),
          (int_at_selected keep full _ _ i j Hj Hb2),
          (int_at_selected keep full _ _ i j Hj Hobs).
  rewrite Hjrc at 1 2 3.
  rewrite (flatten_lookup _ m r c (mapi2_rows _ _ _ Hshape) Hc), cell_mapi2.
  rewrite (flatten_lookup _ m r c (mapi2_rows _ _ _ Hshape) Hc), cell_mapi2.
  rewrite (flatten_lookup observed m r c Hshape Hc), Ho.
  repeat split; try reflexivity; [exact Hxy|exact Hfin].
Qed.

End Rows.

(** X11. Every row of the table returned by
    [get_adjusted_expected_tile_some_nans] is a pixel [(r, c)] of the tile:
    its [bin1_id] is [r + io], its [bin2_id] is [c + jo] and its [obs.raw]
    is the raw observed count there; and the rows are in strictly
    increasing order of [(bin1_id, bin2_id)], so no pixel is returned
    twice. *)
Theorem returned_rows_are_tile_pixels {F : Type} {ops : FloatOps F}
    (origin : Z * Z) (observed : matrix Z) (expected : matrix F)
    (weights : bal_weights F) (kernels : list (string * matrix F))
    (balance_factor : option F) (df : DataFrame F) :
  get_adjusted_expected_tile_some_nans origin observed expected weights
    kernels balance_factor = Ok df ->
  (forall i : nat, (i < nrows df)%nat ->
     exists (r c : nat) (o : Z),
       cell observed r c = Some o /\
       int_at df "bin1_id" i = Some (Z.of_nat r + fst origin) /\
       int_at df "bin2_id" i = Some (Z.of_nat c + snd origin) /\
       int_at df "obs.raw" i = Some o) /\
  (forall (i i' : nat) (a b a' b' : Z),
     (i < i')%nat -> (i' < nrows df)%nat ->
     int_at df "bin1_id" i = Some a -> int_at df "bin2_id" i = Some b ->
     int_at df "bin1_id" i' = Some a' -> int_at df "bin2_id" i' = Some b' ->
     a < a' \/ (a = a' /\ b < b')).
Proof.
  intros Hrun.
  destruct (returned_row_position _ _ _ _ _ _ _ Hrun)
    as (full & keep & _ & Hdf & Hrows).
  split.
  - intros i Hi.
    destruct (Hrows i Hi)
      as (j & r & c & o & _ & _ & _ & Ho & H1 & H2 & H3 & _).
    exists r, c, o. auto.
  - intros i i' a b a' b' Hlt Hi' Ha Hb Ha' Hb'.
    destruct (Hrows i ltac:(lia))
      as (j & r & c & o & Hj & Hjrc & Hc & _ & H1 & H2 & _).
    destruct (Hrows i' Hi')
      as (j' & r' & c' & o' & Hj' & Hjrc' & Hc' & _ & H1' & H2' & _).
    pose proof (nth_true_mono keep i i' j j' Hlt Hj Hj') as Hjj.
    rewrite H1 in Ha. rewrite H2 in Hb. rewrite H1' in Ha'. rewrite H2' in Hb'.
    injection Ha as <-. injection Hb as <-. injection Ha' as <-. injection Hb' as <-.
    assert (r < r' \/ (r = r' /\ c < c'))%nat by nia. lia.
Qed.

Import Binary64.

Lemma returned_rows_are_tile_pixels_witness :
  exists df,
    get_adjusted_expected_tile_some_nans (0, 0) small_observed small_expected
      (Shared unit_weights) [("donut"%string, donut3)] None = Ok df /\
    nrows df = 6%nat /\
    exists (r c : nat) (o : Z),
      cell small_observed r c = Some o /\
      int_at df "bin1_id" 3 = Some (Z.of_nat r + 0) /\
      int_at df "bin2_id" 3 = Some (Z.of_nat c + 0) /\
      int_at df "obs.raw" 3 = Some o.
Proof.
  eexists. split; [vm_compute; reflexivity|]. split; [reflexivity|].
  match goal with |- exists r c o, _ /\ int_at ?d _ _ = _ /\ _ =>
    assert (Hrun : get_adjusted_expected_tile_some_nans (0, 0) small_observed
                     small_expected (Shared unit_weights)
                     [("donut"%string, donut3)] None = Ok d)
      by (vm_compute; reflexivity)
  end.
  destruct (returned_rows_are_tile_pixels _ _ _ _ _ _ _ Hrun) as [Hrows _].
  apply (Hrows 3%nat). vm_compute. lia.
Defined.

(** *** The shape and the cells of the scores *)

Section Shapes.
Context {F : Type} {ops : FloatOps F}.

Lemma outer_rows (u v : list F) :
  Forall (fun row => length row = length v) (outer u v).
Proof.
  unfold outer. apply List.Forall_forall. intros row Hin.
  apply List.in_map_iff in Hin as (a & <- & _). apply length_map.
Qed.

Lemma cell_outer (u v : list F) (r c : nat) :
  cell (outer u v) r c =
    match u !! r, v !! c with
    | Some a, Some b => Some (fmul a b)
    | _, _ => None
    end.
Proof.
  unfold cell, outer. rewrite list_lookup_fmap.
  destruct (u !! r) as [a|]; [|reflexivity]. cbn.
  rewrite list_lookup_fmap. destruct (v !! c); reflexivity.
Qed.

Lemma prepare_tile_rows (io jo : Z) (observed : matrix Z) (expected : matrix F)
    (v_bal_i v_bal_j : list F) (m : nat) :
  Forall (fun row => length row = m) observed ->
  Forall (fun row => length row = m) expected ->
  length v_bal_j = m ->
  let t := prepare_tile io jo observed expected v_bal_i v_bal_j in
  Forall (fun row => length row = m) (O_bal t) /\
  Forall (fun row => length row = m) (E_bal t) /\
  Forall (fun row => length row = m) (E_raw t).
Proof.
  intros Ho He Hj. cbn zeta. unfold prepare_tile. cbn [O_bal E_bal E_raw].
  pose proof (outer_rows v_bal_i v_bal_j) as Hw. rewrite Hj in Hw.
  assert (Hb : Forall (fun row => length row = m)
                 (tril_fill_nan (io - jo - 1) (balance observed v_bal_i v_bal_j))).
  { apply mapi2_rows. now apply map2_rows. }
  assert (Hx : Forall (fun row => length row = m)
                 (tril_fill_nan (io - jo - 1) expected))
    by now apply mapi2_rows.
  unfold fill_zero. repeat split; repeat apply map2_rows; assumption.
Qed.

Lemma scores_rows (t : @tile_arrays F) (K : matrix F) (m : nat) :
  Forall (fun row => length row = m) (O_bal t) ->
  Forall (fun row => length row = m) (E_bal t) ->
  Forall (fun row => length row = m) (E_raw t) ->
  Forall (fun row => length row = m) (fst (scores t K)).
Proof.
  intros HO HE HR. unfold scores, convolve_and_count_nans. cbn [fst].
  apply map2_rows; [exact HR|].
  apply map2_rows; unfold convolve_float, convolve, correlate;
    now apply mapi2_rows.
Qed.

End Shapes.

(** X12. With at least one kernel, every pixel [(r, c)] of the tile that
    [get_adjusted_expected_tile_some_nans] returns has balancing weights
    that are numbers, with a product that is not zero, and a finite
    [exp.raw]: a pixel in a row or a column without a balancing weight is
    never returned. *)
Theorem returned_pixels_are_balanced {F : Type} (ops : FloatOps F)
    (laws : FiniteLaws ops) (origin : Z * Z) (observed : matrix Z)
    (expected : matrix F) (weights : bal_weights F)
    (kernels : list (string * matrix F)) (balance_factor : option F)
    (df : DataFrame F) :
  kernels <> [] -> List.NoDup (map fst kernels) ->
  get_adjusted_expected_tile_some_nans origin observed expected weights
    kernels balance_factor = Ok df ->
  forall i : nat, (i < nrows df)%nat ->
    exists (r c : nat) (w_i w_j e : F),
      int_at df "bin1_id" i = Some (Z.of_nat r + fst origin) /\
      int_at df "bin2_id" i = Some (Z.of_nat c + snd origin) /\
      fst (weights_pair weights) !! r = Some w_i /\
      snd (weights_pair weights) !! c = Some w_j /\
      isnan w_i = false /\ isnan w_j = false /\
      feqb (fmul w_i w_j) (of_Z 0) = false /\
      float_at df "exp.raw" i = Some e /\ isfinite e = true.
Proof.
  intros Hne Hnd Hrun i Hi.
  destruct (returned_row_position _ _ _ _ _ _ _ Hrun)
    as (full & keep & Efull & Hdf & Hpos).
  destruct (Hpos i Hi)
    as (j & r & c & o & Hj & Hjrc & Hc & Ho & H1 & H2 & _ & _ & Hfin).
  destruct (scored_table_spec _ _ _ _ _ _ _ Efull)
    as ((Hso & Hse & Hli & Hlj) & _ & _ & _ & Hexp & Hval).
  apply has_shape_rows in Hso as [_ Hso]. apply has_shape_rows in Hse as [_ Hse].
  set (m := ncols observed) in *.
  set (v_bal_i := fst (weights_pair weights)) in *.
  set (v_bal_j := snd (weights_pair weights)) in *.
  set (t := prepare_tile (fst origin) (snd origin) observed expected
              v_bal_i v_bal_j) in *.
  destruct (prepare_tile_rows (fst origin) (snd origin) observed expected
              v_bal_i v_bal_j m Hso Hse Hlj) as (HO & HE & HR).
  fold t in HO, HE, HR.
  destruct kernels as [|[k K] rest]; [congruence|].
  destruct (Hval Hnd k K (or_introl eq_refl)) as [Hv _].
  destruct (Hfin k K _ (or_introl eq_refl) Hv) as (xv & Hxv & Hfx).
  rewrite Hjrc, (flatten_lookup _ m r c (scores_rows t K m HO HE HR) Hc) in Hxv.
  unfold scores, convolve_and_count_nans in Hxv. cbn [fst] in Hxv.
  rewrite cell_map2 in Hxv.
  destruct (cell (E_raw t) r c) as [eraw|] eqn:Eraw; [|discriminate].
  destruct (cell (map2 fdiv _ _) r c) as [ratio|]; [|discriminate].
  injection Hxv as <-. apply fmul_finite in Hfx as [Hfe _].
  destruct (prepare_tile_cells (fst origin) (snd origin) observed expected
              v_bal_i v_bal_j r c) as (_ & _ & HRc).
  fold t in HRc. rewrite Eraw in HRc.
  destruct (cell expected r c) as [e|]; [|discriminate].
  rewrite cell_outer in HRc.
  destruct (v_bal_i !! r) as [w_i|] eqn:Ewi; [|discriminate].
  destruct (v_bal_j !! c) as [w_j|] eqn:Ewj; [|discriminate].
  injection HRc as ->.
  pose proof Hfe as Hfe'.
  apply fdiv_finite in Hfe' as (_ & Hwn & Hwz).
  apply fmul_not_nan in Hwn as [Hni Hnj].
  exists r, c, w_i, w_j, (fdiv (masked (fst origin) (snd origin) r c e)
                               (fmul w_i w_j)).
  repeat split; try assumption; try reflexivity.
  subst df. rewrite (float_at_selected keep full _ _ i j Hj Hexp).
  now rewrite Hjrc, (flatten_lookup _ m r c HR Hc).
Qed.

(** A 3 x 3 tile above the diagonal whose second row has no balancing
    weight. *)
Definition masked_weights : list float := [of_Z 1; PrimFloat.nan; of_Z 1].

Lemma returned_pixels_are_balanced_witness :
  exists df,
    get_adjusted_expected_tile_some_nans (0, 10) flat_observed flat_expected
      (Separate masked_weights flat_weights) [("ones"%string, ones3)] None
      = Ok df /\
    nrows df = 6%nat /\
    forall i : nat, (i < 6)%nat ->
      exists b, int_at df "bin1_id" i = Some b /\ b <> 1.
Proof.
  eexists. split; [vm_compute; reflexivity|]. split; [reflexivity|].
  match goal with |- forall i, _ -> exists b, int_at ?d _ _ = _ /\ _ =>
    assert (Hrun : get_adjusted_expected_tile_some_nans (0, 10) flat_observed
                     flat_expected (Separate masked_weights flat_weights)
                     [("ones"%string, ones3)] None = Ok d)
      by (vm_compute; reflexivity)
  end.
  intros i Hi.
  destruct (returned_pixels_are_balanced binary64
              Binary64Finite.binary64_finite_laws (0, 10) flat_observed
              flat_expected (Separate masked_weights flat_weights)
              [("ones"%string, ones3)] None _
              ltac:(discriminate)
              ltac:(repeat constructor; intros [])
              Hrun i Hi)
    as (r & c & w_i & w_j & e & Hb1 & _ & Hwi & _ & Hni & _).
  exists (Z.of_nat r + 0). split; [exact Hb1|].
  cbn [weights_pair fst] in Hwi. intros Hr.
  assert (r = 1%nat) as -> by lia.
  cbn in Hwi. injection Hwi as <-. vm_compute in Hni. discriminate.
Defined.

(** *** The count of not-a-number entries *)

Section NanCount.
Context {F : Type} {ops : FloatOps F}.

(** The nonzero weights of a kernel, [kernel != 0]. *)
Definition nonzero (w : F) : bool := negb (feqb w (of_Z 0)).

Lemma flip_map {A B} (g : A -> B) (K : matrix A) :
  flip (map (map g) K) = map (map g) (flip K).
Proof.
  unfold flip. rewrite List.map_rev, !List.map_map. f_equal.
  apply List.map_ext. intros row. now rewrite List.map_rev.
Qed.

Lemma imap_map {A B C} (f : nat -> B -> C) (g : A -> B) (l : list A) :
  imap f (map g l) = imap (fun n x => f n (g x)) l.
Proof.
  revert f. induction l as [|x l IH]; intros f; [reflexivity|].
  cbn [map imap]. f_equal. apply IH.
Qed.

Lemma map_imap {A B C} (f : nat -> A -> B) (g : B -> C) (l : list A) :
  map g (imap f l) = imap (fun n x => g (f n x)) l.
Proof.
  revert f. induction l as [|x l IH]; intros f; [reflexivity|].
  cbn [map imap]. f_equal. apply IH.
Qed.

Lemma entries_map {A B} (g : A -> B) (K : matrix A) :
  entries (map (map g) K) =
    map (fun e => (fst (fst e), snd (fst e), g (snd e))) (entries K).
Proof.
  unfold entries. rewrite List.concat_map, imap_map, map_imap. f_equal.
  apply imap_ext. intros a row _. cbn beta.
  rewrite imap_map, map_imap. reflexivity.
Qed.

Lemma ncols_map {A B} (g : A -> B) (K : matrix A) :
  ncols (map (map g) K) = ncols K.
Proof. destruct K as [|row K]; [reflexivity|]. cbn. apply length_map. Qed.

Lemma cell_map {A B} (g : A -> B) (X : matrix A) (r c : nat) :
  cell (map (map g) X) r c = g <$> cell X r c.
Proof.
  unfold cell. rewrite list_lookup_fmap. destruct (X !! r) as [row|]; [|reflexivity].
  cbn. apply list_lookup_fmap.
Qed.

Lemma at_or_map {A B} (g : A -> B) (cval : A) (X : matrix A) (p : Z * Z) :
  at_or (g cval) (map (map g) X) p = g (at_or cval X p).
Proof.
  unfold at_or, cell_z. destruct ((0 <=? fst p) && (0 <=? snd p)); [|reflexivity].
  rewrite cell_map. destruct (cell X _ _); reflexivity.
Qed.

Lemma count_fold (N : matrix bool) (tapf : Z -> Z -> Z * Z)
    (L : list (Z * Z * F)) (acc : Z) :
  fold_left
    (fun acc e =>
       let '(a, b, w) := e in
       if negb (w =? 0)
       then acc + w * at_or 1 (map (map b2z) N) (tapf a b)
       else acc)
    (map (fun e => (fst (fst e), snd (fst e), b2z (nonzero (snd e)))) L) acc =
  acc + Z.of_nat (length (List.filter (at_or true N)
          (map (fun e => let '(a, b, _) := e in tapf a b)
               (List.filter (fun e => nonzero (snd e)) L)))).
Proof.
  revert acc. induction L as [|[[a b] w] L IH]; intros acc.
  - cbn. lia.
  - cbn [map fold_left List.filter fst snd]. rewrite IH.
    destruct (nonzero w); cbn [b2z negb Z.eqb map List.filter].
    + change (at_or 1 (map (map b2z) N) (tapf a b))
        with (at_or (b2z true) (map (map b2z) N) (tapf a b)).
      rewrite at_or_map.
      destruct (at_or true N (tapf a b)); cbn [b2z length]; lia.
    + reflexivity.
Qed.

End NanCount.

(** X13. The count that [_convolve_and_count_nans] returns for a pixel is
    the number of positions of the kernel's nonzero footprint around the
    pixel that lie outside the tile or on a flagged entry of [N_bal]. *)
Theorem nan_count_is_footprint_count {F : Type} {ops : FloatOps F}
    (O_bal E_bal E_raw : matrix F) (N_bal : matrix bool) (kernel : matrix F)
    (r c : nat) :
  let NN := snd (convolve_and_count_nans O_bal E_bal E_raw N_bal kernel) in
  cell NN r c =
    (fun _ => Z.of_nat (length (List.filter (at_or true N_bal)
                                  (footprint nonzero kernel r c))))
      <$> cell N_bal r c.
Proof.
  cbn zeta. unfold convolve_and_count_nans. cbn [snd].
  unfold convolve_count, convolve, correlate.
  rewrite cell_mapi2, cell_map.
  destruct (cell N_bal r c) as [n|]; [|reflexivity].
  cbn [fmap option_fmap option_map]. f_equal.
  rewrite flip_map, entries_map, length_map, ncols_map.
  unfold footprint.
  etransitivity; [|apply Z.add_0_l].
  exact (count_fold N_bal
           (fun a b => tap (length (flip kernel)) (ncols (flip kernel)) r c a b)
           (entries (flip kernel)) 0).
Qed.

(** *** The masked triangle *)

Section Masked.
Context {F : Type} {ops : FloatOps F}.

Lemma convolve_count_cell (kernel : matrix F) (N : matrix bool) (r c : nat) :
  cell (convolve_count kernel N) r c =
    (fun _ => Z.of_nat (length (List.filter (at_or true N)
                                  (footprint nonzero kernel r c))))
      <$> cell N r c.
Proof.
  unfold convolve_count, convolve, correlate.
  rewrite cell_mapi2, cell_map.
  destruct (cell N r c) as [n|]; [|reflexivity].
  cbn [fmap option_fmap option_map]. f_equal.
  rewrite flip_map, entries_map, length_map, ncols_map.
  unfold footprint.
  etransitivity; [|apply Z.add_0_l].
  exact (count_fold N
           (fun a b => tap (length (flip kernel)) (ncols (flip kernel)) r c a b)
           (entries (flip kernel)) 0).
Qed.

Lemma convolve_count_rows (kernel : matrix F) (N : matrix bool) (m : nat) :
  Forall (fun row => length row = m) N ->
  Forall (fun row => length row = m) (convolve_count kernel N).
Proof.
  intros HN. unfold convolve_count, convolve, correlate. apply mapi2_rows.
  apply List.Forall_forall. intros row Hin.
  apply List.in_map_iff in Hin as (row0 & <- & Hin0).
  rewrite length_map. rewrite List.Forall_forall in HN. now apply HN.
Qed.

(** The flag of one position: set when the balanced observed or the
    balanced expected is not a number there after masking. *)
Lemma prepare_tile_flags (io jo : Z) (observed : matrix Z) (expected : matrix F)
    (v_bal_i v_bal_j : list F) (r c : nat) :
  cell (N_bal (prepare_tile io jo observed expected v_bal_i v_bal_j)) r c =
    match cell (balance observed v_bal_i v_bal_j) r c, cell expected r c with
    | Some o, Some e =>
        Some (isnan (masked io jo r c o) || isnan (masked io jo r c e))
    | _, _ => None
    end.
Proof.
  unfold prepare_tile. cbn [N_bal]. rewrite cell_map2, !tril_fill_nan_cell.
  unfold masked.
  destruct (cell (balance observed v_bal_i v_bal_j) r c) as [o|],
           (cell expected r c) as [e|]; reflexivity.
Qed.

Lemma prepare_tile_flag_rows (io jo : Z) (observed : matrix Z)
    (expected : matrix F) (v_bal_i v_bal_j : list F) (m : nat) :
  Forall (fun row => length row = m) observed ->
  Forall (fun row => length row = m) expected ->
  length v_bal_j = m ->
  Forall (fun row => length row = m)
         (N_bal (prepare_tile io jo observed expected v_bal_i v_bal_j)).
Proof.
  intros Ho He Hj. unfold prepare_tile. cbn [N_bal].
  pose proof (outer_rows v_bal_i v_bal_j) as Hw. rewrite Hj in Hw.
  apply map2_rows; apply mapi2_rows; [|exact He].
  unfold balance. now apply map2_rows.
Qed.

(** A cell of the observed tile is a cell of the balanced observed and of
    the expected, once the shapes agree. *)
Lemma tile_cells (observed : matrix Z) (expected : matrix F)
    (v_bal_i v_bal_j : list F) (r c : nat) (o : Z) :
  Forall (fun row => length row = ncols observed) observed ->
  length expected = length observed ->
  Forall (fun row => length row = ncols observed) expected ->
  length v_bal_i = length observed -> length v_bal_j = ncols observed ->
  cell observed r c = Some o ->
  (c < ncols observed)%nat /\
  exists ob e : F,
    cell (balance observed v_bal_i v_bal_j) r c = Some ob /\
    cell expected r c = Some e.
Proof.
  intros Hso Hne Hse Hli Hlj Ho. pose proof Ho as Ho'. unfold cell in Ho'.
  destruct (observed !! r) as [row|] eqn:Er; [|discriminate]. cbn in Ho'.
  assert (Hr : (r < length observed)%nat) by now apply lookup_lt_Some in Er.
  assert (Hc : (c < ncols observed)%nat).
  { rewrite Forall_lookup in Hso. rewrite <- (Hso r row Er).
    now apply lookup_lt_Some in Ho'. }
  split; [exact Hc|].
  destruct (lookup_lt_is_Some_2 expected r ltac:(lia)) as [rowe Ere].
  assert (Hle : length rowe = ncols observed)
    by (rewrite Forall_lookup in Hse; exact (Hse r rowe Ere)).
  destruct (lookup_lt_is_Some_2 rowe c ltac:(lia)) as [e Ee].
  destruct (lookup_lt_is_Some_2 v_bal_i r ltac:(lia)) as [wi Ewi].
  destruct (lookup_lt_is_Some_2 v_bal_j c ltac:(lia)) as [wj Ewj].
  exists (fmul (of_Z o) (fmul wi wj)), e. split.
  - unfold balance. rewrite cell_map2, Ho, cell_outer, Ewi, Ewj. reflexivity.
  - unfold cell. rewrite Ere. exact Ee.
Qed.

End Masked.

Import Binary64.

(** C2. Every row of the table returned by
    [get_adjusted_expected_tile_some_nans] has [bin1_id < bin2_id] and, for
    every kernel [k], a finite [la_exp.k.value]; the row is a row of the
    unfiltered table with its entries unchanged.  In the arrays the function
    convolves, every position of the tile strictly below the diagonal in
    absolute bins ([jo + c < io + r], whatever the origin of the tile) is
    flagged in [N_bal] and zero in the balanced observed and in the balanced
    expected, and the other positions are as they were balanced; and the
    [la_exp.k.nnans] of a returned pixel [(r, c)] is the number of positions
    of the footprint of kernel [k] around it that are outside the tile or
    flagged, so the masked positions count for the pixels near the
    diagonal. *)
Theorem adjusted_expected_rows_upper_finite {F : Type} {ops : FloatOps F}
    (origin : Z * Z) (observed : matrix Z) (expected : matrix F)
    (weights : bal_weights F) (kernels : list (string * matrix F))
    (balance_factor : option F) (df : DataFrame F) :
  get_adjusted_expected_tile_some_nans origin observed expected weights
    kernels balance_factor = Ok df ->
  let io := fst origin in
  let jo := snd origin in
  let v_bal_i := fst (weights_pair weights) in
  let v_bal_j := snd (weights_pair weights) in
  let t := prepare_tile io jo observed expected v_bal_i v_bal_j in
  (exists full keep,
     scored_table origin observed expected weights kernels balance_factor
       = Ok full /\
     df = reset_index (select_rows keep full) /\
     forall i : nat, (i < nrows df)%nat ->
       above_diagonal df i /\ finite_for df kernels i /\ copied_from full df i) /\
  (isnan (fnan : F) = true ->
   forall (r c : nat) (o : Z), cell observed r c = Some o ->
     exists ob e : F,
       cell (balance observed v_bal_i v_bal_j) r c = Some ob /\
       cell expected r c = Some e /\
       if jo + Z.of_nat c <? io + Z.of_nat r
       then cell (N_bal t) r c = Some true /\
            cell (O_bal t) r c = Some (of_Z 0) /\
            cell (E_bal t) r c = Some (of_Z 0)
       else cell (N_bal t) r c = Some (isnan ob || isnan e) /\
            cell (O_bal t) r c =
              Some (if isnan ob || isnan e then of_Z 0 else ob) /\
            cell (E_bal t) r c =
              Some (if isnan ob || isnan e then of_Z 0 else e)) /\
  (List.NoDup (map fst kernels) ->
   forall i : nat, (i < nrows df)%nat ->
     exists r c : nat,
       int_at df "bin1_id" i = Some (Z.of_nat r + io) /\
       int_at df "bin2_id" i = Some (Z.of_nat c + jo) /\
       forall k K, In (k, K) kernels ->
         int_at df (nnans_name k) i =
           Some (Z.of_nat (length (List.filter (at_or true (N_bal t))
                                     (footprint nonzero K r c))))).
Proof.
  intros Hrun. cbn zeta.
  set (v_bal_i := fst (weights_pair weights)).
  set (v_bal_j := snd (weights_pair weights)).
  destruct (returned_row_position _ _ _ _ _ _ _ Hrun)
    as (full & keep & Efull & Hdf & Hpos).
  destruct (scored_table_spec _ _ _ _ _ _ _ Efull)
    as ((Hso & Hse & Hli & Hlj) & _ & _ & _ & _ & Hkcols).
  fold v_bal_i in Hli, Hkcols. fold v_bal_j in Hlj, Hkcols.
  apply has_shape_rows in Hso as [_ Hso]. apply has_shape_rows in Hse as [Hne Hse].
  assert (Hcells := fun r c o =>
            tile_cells observed expected v_bal_i v_bal_j r c o
                       Hso Hne Hse Hli Hlj).
  split; [now apply kept_rows_upper_finite|]. split.
  - intros Hnan r c o Ho. destruct (Hcells r c o Ho) as (_ & ob & e & Hob & He).
    exists ob, e. split; [exact Hob|]. split; [exact He|].
    destruct (prepare_tile_cells (fst origin) (snd origin) observed expected
                v_bal_i v_bal_j r c) as (HO & HE & _).
    rewrite HO, HE, prepare_tile_flags, Hob, He. unfold filled, masked.
    destruct (Z.ltb_spec (snd origin + Z.of_nat c) (fst origin + Z.of_nat r));
      destruct (Z.leb_spec (Z.of_nat c - Z.of_nat r)
                           (fst origin - snd origin - 1)); try lia.
    + rewrite Hnan. cbn. auto.
    + destruct (isnan ob || isnan e); auto.
  - intros Hnd i Hi.
    destruct (Hpos i Hi) as (j & r & c & o & Hj & Hjrc & Hc & Hcell & H1 & H2 & _).
    exists r, c. split; [exact H1|]. split; [exact H2|].
    intros k K Hin. destruct (Hkcols Hnd k K Hin) as [_ Hnn].
    rewrite Hdf, (int_at_selected keep full _ _ i j Hj Hnn), Hjrc.
    unfold scores, convolve_and_count_nans. cbn [snd].
    rewrite (flatten_lookup _ (ncols observed) r c); [|
      apply convolve_count_rows, prepare_tile_flag_rows; assumption | exact Hc].
    rewrite convolve_count_cell, prepare_tile_flags.
    destruct (Hcells r c o Hcell) as (_ & ob & e & -> & ->). reflexivity.
Qed.

(** Witness for C2: the small tile with its first row at bin 10 and its
    first column at bin 9.  The position [(1, 1)] of the tile, on its own
    diagonal, is the pixel [(11, 10)], below the diagonal, and is masked;
    three pixels are returned, and around the first, [(10, 11)], four
    positions of the footprint are masked. *)
Lemma adjusted_expected_rows_upper_finite_witness :
  exists df,
    get_adjusted_expected_tile_some_nans (10, 9) small_observed small_expected
      (Shared unit_weights) [("donut"%string, donut3)] None = Ok df /\
    nrows df = 3%nat /\
    above_diagonal df 0 /\ finite_for df [("donut"%string, donut3)] 0 /\
    cell (N_bal (prepare_tile 10 9 small_observed small_expected
                   unit_weights unit_weights)) 1 1 = Some true /\
    int_at df "la_exp.donut.nnans" 0 = Some 4.
Proof.
  eexists. split; [vm_compute; reflexivity|].
  match goal with |- nrows ?d = _ /\ _ =>
    assert (Hrun : get_adjusted_expected_tile_some_nans (10, 9) small_observed
                     small_expected (Shared unit_weights)
                     [("donut"%string, donut3)] None = Ok d)
      by (vm_compute; reflexivity);
    assert (Hb1 : int_at d "bin1_id" 0 = Some 10) by reflexivity;
    assert (Hb2 : int_at d "bin2_id" 0 = Some 11) by reflexivity
  end.
  split; [reflexivity|].
  pose proof (adjusted_expected_rows_upper_finite _ _ _ _ _ _ _ Hrun) as H.
  cbn zeta in H. cbn [fst snd weights_pair] in H.
  destruct H as ((full & keep & _ & _ & Hrows) & Hmask & Hnn).
  destruct (Hrows 0%nat) as (Ha & Hf & _); [vm_compute; lia|].
  split; [exact Ha|]. split; [exact Hf|]. split.
  - destruct (Hmask eq_refl 1%nat 1%nat 2 eq_refl) as (ob & e & _ & _ & Hm).
    exact (proj1 Hm).
  - destruct (Hnn ltac:(repeat constructor; intros []) 0%nat
                  ltac:(vm_compute; lia)) as (r & c & H1 & H2 & Hk).
    rewrite Hb1 in H1. rewrite Hb2 in H2.
    injection H1 as H1. injection H2 as H2.
    assert (r = 0%nat) as -> by lia. assert (c = 2%nat) as -> by lia.
    etransitivity; [exact (Hk "donut"%string donut3 (or_introl eq_refl))|].
    vm_compute. reflexivity.
Defined.

End Pixels.
(** ** Scoring one tile

    Of the cooler and of the table of expected values only what
    [score_tile] reads is modelled: the raw counts of a rectangle of the
    matrix, a column of the bin table over a span, the expected values of a
    chromosome laid out over a rectangle, and the annotation of a table of
    pixels with the columns of their bins. *)

Class FloatMinus (F : Type) : Type := { fsub : F -> F -> F }.

#[export] Instance binary64_minus : FloatMinus float :=
  {| fsub := PrimFloat.sub |}.

Module ScoreTile.
Import Frame Scorer Pixels.

Section WithFloat.
Context {F : Type} {ops : FloatOps F} {minus : FloatMinus F}.

Record cooler : Type := mkCooler {
  (** [clr.matrix(balance=False)] on the rows of [tilei] and the columns of
      [tilej] *)
  matrix_raw : Z * Z -> Z * Z -> result (matrix Z);
  (** the column [name] of [clr.bins()] over a span *)
  bins_values : Z * Z -> string -> result (list F);
  (** [cooler.annotate(pixels, clr.bins()[:])] *)
  annotate : DataFrame F -> result (DataFrame F)
}.

(** [LazyToeplitz(cis_exp.loc[chrom][name].values)]: the lookup of the
    chromosome and of the column may raise; the matrix it gives is then read
    on the rows of [tilei] and the columns of [tilej]. *)
Definition expected_source : Type :=
  string -> string -> result (Z * Z -> Z * Z -> matrix F).

(** [scipy.stats.poisson.cdf(k, mu)] *)
Variable poisson_cdf : Z -> F -> F.

Definition pval_name (k : string) : string := "la_exp." +:+ k +:+ ".pval".

(** [adjusted["bin1_id"] > (adjusted["bin2_id"] - band_to_cover)]; the
    bin ids are integer columns. *)
Definition is_inside_band (adjusted : DataFrame F) (band_to_cover : Z)
  : result (list bool) :=
  let* bin1 := getitem adjusted "bin1_id" in
  let* bin2 := getitem adjusted "bin2_id" in
  match bin1, bin2 with
  | IntS x, IntS y => Ok (zip_with (fun p q => q - band_to_cover <? p) x y)
  | _, _ => Raise TypeError
  end.

(** [np.all(adjusted[[...nnans...]] < nans_tolerated, axis=1)]: the columns
    are taken first, then compared; the counts are integer columns. *)
Fixpoint nnans_columns (adjusted : DataFrame F)
    (kernels : list (string * matrix F)) : result (list (list Z)) :=
  match kernels with
  | [] => Ok []
  | (k, _) :: rest =>
      let* col := getitem adjusted ("la_exp." +:+ k +:+ ".nnans") in
      match col with
      | IntS v =>
          let* more := nnans_columns adjusted rest in
          Ok (v :: more)
      | _ => Raise TypeError
      end
  end.

Definition does_comply_nans (adjusted : DataFrame F)
    (kernels : list (string * matrix F)) (nans_tolerated : Z)
  : result (list bool) :=
  let* cols := nnans_columns adjusted kernels in
  Ok (fold_left (fun acc col => zip_with andb acc (map (fun n => n <? nans_tolerated) col))
                cols (map (fun _ => true) (index adjusted))).

(** [1.0 - poisson.cdf(res_df["obs.raw"], la_exp)] *)
Definition get_pval (res_df : DataFrame F) (la_exp : Series F)
  : result (Series F) :=
  let* obs := getitem res_df "obs.raw" in
  match obs, la_exp with
  | IntS o, FloatS la =>
      Ok (FloatS (zip_with (fun k mu => fsub (of_Z 1) (poisson_cdf k mu)) o la))
  | _, _ => Raise TypeError
  end.

Fixpoint pval_loop (res_df : DataFrame F) (kernels : list (string * matrix F))
  : result (DataFrame F) :=
  match kernels with
  | [] => Ok res_df
  | (k, _) :: rest =>
      let* la := getitem res_df ("la_exp." +:+ k +:+ ".value") in
      let* pval := get_pval res_df la in
      pval_loop (setitem res_df ("la_exp." +:+ k +:+ ".pval") pval) rest
  end.

(** The table of the tile before it is annotated. *)
Definition scored_pixels (clr : cooler) (cis_exp : expected_source)
    (tile_cij : string * (Z * Z) * (Z * Z)) (exp_v_name bal_v_name : string)
    (kernels : list (string * matrix F)) (nans_tolerated band_to_cover : Z)
    (balance_factor : option F) : result (DataFrame F) :=
  let '(chrom, tilei, tilej) := tile_cij in
  let origin := (fst tilei, fst tilej) in
  let* lazy_exp := cis_exp chrom exp_v_name in
  let* observed := matrix_raw clr tilei tilej in
  let expected := lazy_exp tilei tilej in
  let* bal_weight_i := bins_values clr tilei bal_v_name in
  let* bal_weight_j := bins_values clr tilej bal_v_name in
  let* adjusted :=
    get_adjusted_expected_tile_some_nans origin observed expected
      (Separate bal_weight_i bal_weight_j) kernels balance_factor in
  let* inside := is_inside_band adjusted band_to_cover in
  let* comply := does_comply_nans adjusted kernels nans_tolerated in
  let res_df := reset_index (select_rows (zip_with andb inside comply) adjusted) in
  pval_loop res_df kernels.

(** [score_tile(tile_cij, clr, cis_exp, exp_v_name, bal_v_name, kernels,
    nans_tolerated, band_to_cover, balance_factor)] *)
Definition score_tile (clr : cooler) (cis_exp : expected_source)
    (tile_cij : string * (Z * Z) * (Z * Z)) (exp_v_name bal_v_name : string)
    (kernels : list (string * matrix F)) (nans_tolerated band_to_cover : Z)
    (balance_factor : option F) : result (DataFrame F) :=
  let* res_df :=
    scored_pixels clr cis_exp tile_cij exp_v_name bal_v_name kernels
      nans_tolerated band_to_cover balance_factor in
  annotate clr (reset_index res_df).

End WithFloat.

(** *** The rows of the scored tile *)

Lemma pval_name_last (k : string) : last_char (pval_name k) = Some "l"%char.
Proof.
  unfold pval_name. rewrite !last_char_app; [reflexivity|discriminate|].
  destruct k; discriminate.
Qed.

Lemma pval_ne_value (k k' : string) : pval_name k <> value_name k'.
Proof.
  intros H. apply (f_equal last_char) in H.
  rewrite pval_name_last, value_name_last in H. discriminate.
Qed.

Lemma pval_ne_nnans (k k' : string) : pval_name k <> nnans_name k'.
Proof.
  intros H. apply (f_equal last_char) in H.
  rewrite pval_name_last, nnans_name_last in H. discriminate.
Qed.

Lemma pval_name_inj (k k' : string) : pval_name k = pval_name k' -> k = k'.
Proof.
  unfold pval_name. intros H. apply String.app_inj in H.
  now apply append_inv_tail in H.
Qed.

Section Rows.
Context {F : Type} {ops : FloatOps F} {minus : FloatMinus F}.
Variable poisson_cdf : Z -> F -> F.
Implicit Types (df adjusted res_df : DataFrame F).

Lemma nrows_reset_index df : nrows (reset_index df) = nrows df.
Proof. unfold nrows, reset_index. cbn [index]. now rewrite length_map, length_seq. Qed.

(** The p-value loop adds the p-value column of every kernel and leaves
    the other columns and the rows as they are. *)
Lemma pval_loop_spec (kernels : list (string * matrix F)) df df' :
  pval_loop poisson_cdf df kernels = Ok df' ->
  index df' = index df /\
  (forall name, (forall k, In k (map fst kernels) -> name <> pval_name k) ->
     lookup_col name (columns df') = lookup_col name (columns df)) /\
  (forall k K, In (k, K) kernels ->
     exists o la,
       lookup_col "obs.raw" (columns df) = Some (IntS o) /\
       lookup_col (value_name k) (columns df) = Some (FloatS la) /\
       lookup_col (pval_name k) (columns df') =
         Some (FloatS (zip_with (fun c mu => fsub (of_Z 1) (poisson_cdf c mu))
                                o la))).
Proof.
  revert df. induction kernels as [|[k0 K0] rest IH]; intros df; cbn [pval_loop].
  - intros [= <-]. split; [reflexivity|]. split; [reflexivity|]. intros k K [].
  - fold (value_name k0) (pval_name k0). unfold getitem, get_pval, getitem.
    destruct (lookup_col (value_name k0) (columns df)) as [la0|] eqn:Ela;
      [|discriminate]. cbn [bind].
    destruct (lookup_col "obs.raw" (columns df)) as [obs|] eqn:Eobs;
      [|discriminate]. cbn [bind].
    destruct obs as [o| | |]; try discriminate.
    destruct la0 as [|la| |]; try discriminate. cbn [bind].
    intros Hrest. destruct (IH _ Hrest) as (I1 & I2 & I3).
    cbn [setitem index columns] in *.
    assert (Hobs1 : forall s, lookup_col "obs.raw"
                       (assign_col (pval_name k0) s (columns df)) =
                     Some (IntS o)).
    { intros s0. rewrite lookup_assign_ne by first_char_differs. exact Eobs. }
    assert (Hval1 : forall s k, lookup_col (value_name k)
                       (assign_col (pval_name k0) s (columns df)) =
                     lookup_col (value_name k) (columns df)).
    { intros s0 k. apply lookup_assign_ne. apply pval_ne_value. }
    split; [exact I1|]. split.
    + intros name Hname. rewrite I2 by (intros k Hk; apply Hname; now right).
      apply lookup_assign_ne. intros E. symmetry in E. revert E.
      apply Hname. now left.
    + intros k K [[= <- <-]|Hin].
      * exists o, la. split; [reflexivity|]. split; [exact Ela|].
        destruct (List.in_dec String.string_dec k0 (map fst rest)) as [Hr|Hr].
        -- apply List.in_map_iff in Hr as ([k' K'] & Hk' & Hin'). cbn in Hk'. subst k'.
           destruct (I3 k0 K' Hin') as (o' & la' & Ho' & Hla' & Hp').
           rewrite Hobs1 in Ho'. rewrite Hval1, Ela in Hla'.
           injection Ho' as <-. injection Hla' as <-. exact Hp'.
        -- rewrite I2; [apply lookup_assign_eq|].
           intros k' Hk' E. apply pval_name_inj in E. congruence.
      * destruct (I3 k K Hin) as (o' & la' & Ho' & Hla' & Hp').
        rewrite Hobs1 in Ho'. rewrite Hval1 in Hla'. injection Ho' as <-.
        exists o, la'. auto.
Qed.

(** The columns of counts that the filter compares. *)
Lemma nnans_columns_spec adjusted (kernels : list (string * matrix F))
    (cols : list (list Z)) :
  nnans_columns adjusted kernels = Ok cols ->
  forall k K, In (k, K) kernels ->
    exists v, lookup_col (nnans_name k) (columns adjusted) = Some (IntS v) /\
              In v cols.
Proof.
  revert cols. induction kernels as [|[k0 K0] rest IH]; intros cols;
    cbn [nnans_columns]; [intros _ k K []|].
  fold (nnans_name k0). unfold getitem.
  destruct (lookup_col (nnans_name k0) (columns adjusted)) as [[v| | |]|] eqn:E;
    try discriminate. cbn [bind].
  destruct (nnans_columns adjusted rest) as [more|e]; [|discriminate].
  cbn [bind]. intros [= <-] k K [[= <- <-]|Hin].
  - exists v. split; [exact E|now left].
  - destruct (IH more eq_refl k K Hin) as (v' & Hv' & Hin').
    exists v'. split; [exact Hv'|now right].
Qed.

Lemma comply_fold_true (cols : list (list Z)) (tol : Z) (acc : list bool)
    (j : nat) :
  fold_left (fun acc col => zip_with andb acc (map (fun n => n <? tol) col))
            cols acc !! j = Some true ->
  acc !! j = Some true /\
  forall col, In col cols -> exists n, col !! j = Some n /\ n < tol.
Proof.
  revert acc. induction cols as [|col cols IH]; intros acc; cbn [fold_left].
  - intros H. split; [exact H|]. intros col [].
  - intros H. destruct (IH _ H) as [Hacc Hall].
    apply lookup_zip_with_Some in Hacc as (a & b & Hab & Ha & Hb).
    symmetry in Hab. apply andb_true_iff in Hab as [-> ->].
    split; [exact Ha|]. intros col' [<-|Hin]; [|now apply Hall].
    rewrite list_lookup_fmap in Hb.
    destruct (col !! j) as [n|]; [|discriminate].
    cbn in Hb. injection Hb as Hb. apply Z.ltb_lt in Hb. eauto.
Qed.

End Rows.

(** Row [i] of a scored tile: a pixel strictly above the diagonal and
    closer to it than [band_to_cover], with, for every kernel, fewer than
    [nans_tolerated] not-a-number entries in the footprint, a finite
    locally adjusted expected and the p-value computed from it. *)
Definition scored_row {F : Type} {ops : FloatOps F} {minus : FloatMinus F}
    (poisson_cdf : Z -> F -> F) (res_df : DataFrame F)
    (kernels : list (string * matrix F)) (nans_tolerated band_to_cover : Z)
    (i : nat) : Prop :=
  exists b1 b2 o : Z,
    int_at res_df "bin1_id" i = Some b1 /\
    int_at res_df "bin2_id" i = Some b2 /\
    int_at res_df "obs.raw" i = Some o /\
    b1 < b2 /\ b2 - b1 < band_to_cover /\
    forall k K, In (k, K) kernels ->
      exists (n : Z) (la : F),
        int_at res_df (nnans_name k) i = Some n /\ n < nans_tolerated /\
        float_at res_df (value_name k) i = Some la /\ isfinite la = true /\
        float_at res_df (pval_name k) i =
          Some (fsub (of_Z 1) (poisson_cdf o la)).

(** X14. When [score_tile] returns, the table it annotates has only pixels
    with [0 < bin2_id - bin1_id < band_to_cover] and, for every kernel, a
    count of not-a-number entries below [nans_tolerated], a finite
    [la_exp.k.value] and the p-value [1 - poisson.cdf(obs.raw, la_exp)]. *)
Theorem score_tile_rows {F : Type} {ops : FloatOps F} {minus : FloatMinus F}
    (poisson_cdf : Z -> F -> F) (clr : cooler) (cis_exp : expected_source)
    (tile_cij : string * (Z * Z) * (Z * Z)) (exp_v_name bal_v_name : string)
    (kernels : list (string * matrix F)) (nans_tolerated band_to_cover : Z)
    (balance_factor : option F) (out : DataFrame F) :
  score_tile poisson_cdf clr cis_exp tile_cij exp_v_name bal_v_name kernels
    nans_tolerated band_to_cover balance_factor = Ok out ->
  exists res_df,
    annotate clr res_df = Ok out /\
    forall i : nat, (i < nrows res_df)%nat ->
      scored_row poisson_cdf res_df kernels nans_tolerated band_to_cover i.
Proof.
  unfold score_tile, scored_pixels. destruct tile_cij as [[chrom tilei] tilej].
  destruct (cis_exp chrom exp_v_name) as [lazy_exp|e]; [|discriminate].
  cbn [bind].
  destruct (matrix_raw clr tilei tilej) as [observed|e]; [|discriminate].
  cbn [bind]. cbv zeta.
  destruct (bins_values clr tilei bal_v_name) as [w_i|e]; [|discriminate].
  cbn [bind].
  destruct (bins_values clr tilej bal_v_name) as [w_j|e]; [|discriminate].
  cbn [bind].
  destruct (get_adjusted_expected_tile_some_nans _ _ _ _ _ _) as [adjusted|e]
    eqn:Eadj; [|discriminate]. cbn [bind].
  destruct (is_inside_band adjusted band_to_cover) as [inside|e] eqn:Ein;
    [|discriminate]. cbn [bind].
  destruct (does_comply_nans adjusted kernels nans_tolerated) as [comply|e]
    eqn:Ecomply; [|discriminate]. cbn [bind].
  set (mask := zip_with andb inside comply).
  destruct (pval_loop poisson_cdf _ kernels) as [res_df|e] eqn:Epval;
    [|discriminate]. cbn [bind].
  intros Hout. exists (reset_index res_df). split; [exact Hout|].
  intros i Hi. rewrite nrows_reset_index in Hi.
  destruct (pval_loop_spec poisson_cdf _ _ _ Epval) as (Hidx & Hother & Hpvals).
  assert (Hi0 : (i < length (select mask (index adjusted)))%nat).
  { unfold nrows in Hi. rewrite Hidx in Hi. cbn [reset_index index] in Hi.
    rewrite length_map, length_seq in Hi. exact Hi. }
  destruct (select_lookup_lt _ _ _ Hi0) as [j Hj].
  pose proof (nth_true_Some _ _ _ Hj) as Hmask.
  apply lookup_zip_with_Some in Hmask as (a & b & Hab & Hinj & Hcj).
  symmetry in Hab. apply andb_true_iff in Hab as [-> ->].
  assert (Hj' : (j < nrows adjusted)%nat).
  { apply lookup_lt_is_Some_2 in Hi0 as [x Hx].
    rewrite select_lookup, Hj in Hx. cbn in Hx. now apply lookup_lt_Some in Hx. }
  destruct (returned_row_position _ _ _ _ _ _ _ Eadj)
    as (full & keep & Efull & Hadj & Hpos).
  destruct (Hpos j Hj')
    as (j0 & r & c & o & Hj0 & _ & _ & _ & H1 & H2 & H3 & Hlt & Hfin).
  destruct (scored_table_columns _ _ _ _ _ _ _ Efull) as [_ Hvalcol].
  (* the cells of the scored table are those of row [j] *)
  assert (Hint : forall name v,
            (forall k, name <> pval_name k) ->
            lookup_col name (columns adjusted) = Some (IntS v) ->
            int_at (reset_index res_df) name i = v !! j).
  { intros name v Hname Hv. unfold int_at. cbn [reset_index columns].
    rewrite Hother by (intros k _; apply Hname).
    cbn [reset_index select_rows columns]. rewrite lookup_select, Hv.
    cbn [fmap option_fmap option_map series_select].
    now rewrite select_lookup, Hj. }
  assert (Hfloat : forall name v,
            (forall k, name <> pval_name k) ->
            lookup_col name (columns adjusted) = Some (FloatS v) ->
            float_at (reset_index res_df) name i = v !! j).
  { intros name v Hname Hv. unfold float_at. cbn [reset_index columns].
    rewrite Hother by (intros k _; apply Hname).
    cbn [reset_index select_rows columns]. rewrite lookup_select, Hv.
    cbn [fmap option_fmap option_map series_select].
    now rewrite select_lookup, Hj. }
  (* the band *)
  unfold is_inside_band, getitem in Ein.
  destruct (lookup_col "bin1_id" (columns adjusted)) as [s1|] eqn:E1;
    [|discriminate].
  destruct (lookup_col "bin2_id" (columns adjusted)) as [s2|] eqn:E2;
    [|discriminate].
  cbn [bind] in Ein.
  destruct s1 as [x| | |]; try discriminate.
  destruct s2 as [y| | |]; try discriminate.
  injection Ein as <-.
  apply lookup_zip_with_Some in Hinj as (p & q & Hpq & Hp & Hq).
  symmetry in Hpq. apply Z.ltb_lt in Hpq.
  unfold int_at in H1, H2. rewrite E1 in H1. rewrite E2 in H2.
  rewrite Hp in H1. rewrite Hq in H2. injection H1 as ->. injection H2 as ->.
  (* the observed count *)
  unfold int_at in H3.
  destruct (lookup_col "obs.raw" (columns adjusted)) as [[ov| | |]|] eqn:E3;
    try discriminate.
  (* the counts of not-a-number entries *)
  unfold does_comply_nans in Ecomply.
  destruct (nnans_columns adjusted kernels) as [cols|e] eqn:Ecols; [|discriminate].
  cbn [bind] in Ecomply. injection Ecomply as <-.
  apply comply_fold_true in Hcj as [_ Hnn].
  exists (Z.of_nat r + fst tilei), (Z.of_nat c + fst tilej), o.
  split; [rewrite (Hint _ x) by (try exact E1; intros k; first_char_differs);
          exact Hp|].
  split; [rewrite (Hint _ y) by (try exact E2; intros k; first_char_differs);
          exact Hq|].
  split; [rewrite (Hint _ ov) by (try exact E3; intros k; first_char_differs);
          exact H3|].
  cbn [fst snd] in Hlt. split; [exact Hlt|]. split; [lia|].
  intros k K Hin.
  destruct (nnans_columns_spec _ _ _ Ecols k K Hin) as (nv & Hnv & Hincols).
  destruct (Hnn nv Hincols) as (n & Hn & Hntol).
  destruct (Hvalcol k K Hin) as [vfull Hvfull].
  destruct (Hfin k K vfull Hin Hvfull) as (la & Hla & Hfinla).
  assert (Hvadj : lookup_col (value_name k) (columns adjusted) =
                  Some (FloatS (select keep vfull))).
  { subst adjusted. cbn [reset_index select_rows columns].
    now rewrite lookup_select, Hvfull. }
  assert (Hlaj : select keep vfull !! j = Some la)
    by now rewrite select_lookup, Hj0.
  exists n, la.
  split; [rewrite (Hint _ nv) by (try exact Hnv; intros k'; apply not_eq_sym,
                                  pval_ne_nnans); exact Hn|].
  split; [exact Hntol|].
  split; [rewrite (Hfloat _ _ ltac:(intros k'; apply not_eq_sym, pval_ne_value)
                     Hvadj); exact Hlaj|].
  split; [exact Hfinla|].
  destruct (Hpvals k K Hin) as (o' & la' & Ho' & Hla' & Hp').
  unfold float_at. cbn [reset_index columns]. rewrite Hp'.
  cbn [reset_index select_rows columns] in Ho', Hla'.
  rewrite lookup_select, E3 in Ho'. rewrite lookup_select, Hvadj in Hla'.
  cbn [fmap option_fmap option_map series_select] in Ho', Hla'.
  injection Ho' as <-. injection Hla' as <-.
  apply lookup_zip_with_Some. exists o, la. split; [reflexivity|].
  split; rewrite select_lookup, Hj; cbn; assumption.
Qed.

Import Binary64.

(** A cooler with one 3 x 3 tile, a flat expected and a stand-in for the
    Poisson distribution function. *)
Definition toy_cooler : cooler (F := float) :=
  {| matrix_raw := fun _ _ => Ok flat_observed;
     bins_values := fun _ _ => Ok flat_weights;
     annotate := fun df => Ok df |}.

Definition toy_expected : expected_source (F := float) :=
  fun _ _ => Ok (fun _ _ => flat_expected).

Definition toy_cdf (k : Z) (mu : float) : float := (1 / (2 + mu))%float.

Lemma score_tile_rows_witness :
  exists out,
    score_tile toy_cdf toy_cooler toy_expected
      ("chr1"%string, (0, 3), (10, 13)) "balanced.avg" "weight"
      [("ones"%string, ones3)] 1 12 None = Ok out /\
    nrows out = 1%nat /\
    scored_row toy_cdf out [("ones"%string, ones3)] 1 12 0.
Proof.
  eexists. split; [vm_compute; reflexivity|]. split; [reflexivity|].
  match goal with |- scored_row _ ?d _ _ _ _ =>
    assert (Hrun : score_tile toy_cdf toy_cooler toy_expected
                     ("chr1"%string, (0, 3), (10, 13)) "balanced.avg" "weight"
                     [("ones"%string, ones3)] 1 12 None = Ok d)
      by (vm_compute; reflexivity)
  end.
  destruct (score_tile_rows toy_cdf toy_cooler toy_expected
              ("chr1"%string, (0, 3), (10, 13)) "balanced.avg" "weight"
              [("ones"%string, ones3)] 1 12 None _ Hrun)
    as (res_df & Hann & Hrows).
  cbn [toy_cooler annotate] in Hann. injection Hann as ->.
  apply Hrows. vm_compute. lia.
Defined.

End ScoreTile.
(** ** Pixels outside the intervals of the thresholds *)

Module Uncovered.
Import Frame Extract.

Section WithFloat.
Context {F : Type} {ops : FloatOps F}.

Lemma loc_all_raises (s : interval_series) (xs : list F) (j : nat) (x : F) :
  xs !! j = Some x ->
  (forall e, In e s -> contains (fst e) x = false) ->
  exists e, loc_all s xs = Raise e.
Proof.
  intros Hx Hout.
  destruct (loc_all s xs) as [ts|e] eqn:E; [|eauto].
  destruct (loc_all_lookup s xs ts E j) as [_ Hloc].
  destruct (Hloc x Hx) as [t Ht]. apply loc_Ok in Ht as [iv Hiv].
  assert (Hin : In (iv, t) (List.filter (fun e => contains (fst e) x) s))
    by (rewrite Hiv; now left).
  apply List.filter_In in Hin as [Hin Hc]. rewrite (Hout _ Hin) in Hc.
  discriminate.
Qed.

Lemma comply_loop_raises (scored_df : DataFrame F)
    (thresholds : gmap string interval_series) (kernels : list string)
    (k : string) (acc : list bool) :
  In k kernels ->
  (exists e, comply_fdr scored_df thresholds k = Raise e) ->
  exists e, comply_loop scored_df thresholds kernels acc = Raise e.
Proof.
  revert acc. induction kernels as [|k0 rest IH]; intros acc; [intros []|].
  intros [->|Hin] Hk; cbn [comply_loop].
  - destruct Hk as [e ->]. cbn [bind]. eauto.
  - destruct (comply_fdr scored_df thresholds k0); cbn [bind]; [|eauto].
    now apply IH.
Qed.

End WithFloat.

(** X15. [extract_scored_pixels] raises as soon as, for one of the kernels,
    the locally adjusted expected of one row lies in none of the intervals
    of that kernel's thresholds (a value above the last edge, or
    not-a-number): no table is returned, not even for the other rows. *)
Theorem extract_raises_outside_intervals {F : Type} {ops : FloatOps F}
    (scored_df : DataFrame F) (kernels : list string)
    (thresholds : gmap string (@interval_series F)) (k : string)
    (s : @interval_series F) (j : nat) (la : F) :
  In k kernels ->
  thresholds !! k = Some s ->
  float_at scored_df ("la_exp." +:+ k +:+ ".value") j = Some la ->
  (forall e, In e s -> contains (fst e) la = false) ->
  exists e, extract_scored_pixels scored_df kernels thresholds = Raise e.
Proof.
  intros Hin Hs Hla Hout. unfold extract_scored_pixels.
  destruct (comply_loop_raises scored_df thresholds kernels k
              (map (fun _ => true) (index scored_df)) Hin) as [e ->];
    [|cbn [bind]; eauto].
  unfold comply_fdr. destruct (getitem scored_df "obs.raw"); cbn [bind]; [|eauto].
  rewrite Hs. cbn [bind]. unfold float_at in Hla. unfold getitem.
  destruct (lookup_col _ (columns scored_df)) as [[ | v | | ]|]; try discriminate.
  cbn [bind as_floats].
  destruct (loc_all_raises s v j la Hla Hout) as [e ->]. cbn [bind]. eauto.
Qed.

Import Binary64.

(** Two pixels; the locally adjusted expected of the second is above the
    last edge of the thresholds of the donut kernel. *)
Definition pixel_above_edges : DataFrame float :=
  {| index := [0; 1];
     columns :=
       [("obs.raw"%string, IntS [50; 50]);
        ("la_exp.donut.value"%string, FloatS [of_Z 4; of_Z 11])] |}.

Lemma extract_raises_outside_intervals_witness :
  exists e,
    extract_scored_pixels pixel_above_edges ["donut"%string] donut_thresholds
      = Raise e.
Proof.
  apply (extract_raises_outside_intervals pixel_above_edges ["donut"%string]
           donut_thresholds "donut"%string
           [((PrimFloat.neg_infinity, of_Z 1), 4); ((of_Z 1, of_Z 10), 9)]
           1%nat (of_Z 11)).
  - now left.
  - reflexivity.
  - reflexivity.
  - intros e [<-|[<-|[]]]; vm_compute; reflexivity.
Defined.

End Uncovered.
(** ** Clustering of the pixels

    Of scikit-learn's [Birch] only what [clust_2D_pixels] reads is modelled:
    the labels and the centers of the subclusters that fitting gives.  The
    clustering itself is a parameter. *)

Module Cluster.
Import Frame.

Section WithFloat.
Context {F : Type} {ops : FloatOps F}.

Record birch : Type := mkBirch {
  labels_ : list Z;
  subcluster_centers_ : list (F * F)
}.

(** [.astype(np.float)] of a column.  A column of objects is outside the
    model: numpy converts the strings that spell a number and raises on the
    others, here all of them raise. *)
Definition astype_float (s : Series F) : result (list F) :=
  match s with
  | IntS v => Ok (map of_Z v)
  | FloatS v => Ok v
  | BoolS v => Ok (map (fun b : bool => of_Z (if b then 1 else 0)) v)
  | ObjS _ => Raise ValueError
  end.

(** [pixels_df[[bin1_id_name, bin2_id_name]].values.astype(np.float)]: one
    pair of coordinates per row. *)
Definition pixel_values (pixels_df : DataFrame F) (bin1_id_name bin2_id_name : string)
  : result (list (F * F)) :=
  let* xy := project pixels_df [bin1_id_name; bin2_id_name] in
  let* b1 := getitem xy bin1_id_name in
  let* b2 := getitem xy bin2_id_name in
  let* x := astype_float b1 in
  let* y := astype_float b2 in
  Ok (combine x y).

(** The sorted values of [np.unique], each once. *)
Fixpoint insert_unique (x : Z) (l : list Z) : list Z :=
  match l with
  | [] => [x]
  | y :: l' =>
      if x <? y then x :: l
      else if x =? y then l
      else y :: insert_unique x l'
  end.

Definition unique (ar : list Z) : list Z := fold_right insert_unique [] ar.

(** The position of the first entry equal to [x]. *)
Fixpoint position (x : Z) (l : list Z) : nat :=
  match l with
  | [] => 0
  | y :: l' => if y =? x then 0 else S (position x l')
  end.

(** [np.unique(ar, return_inverse=True, return_counts=True)] *)
Definition np_unique (ar : list Z) : list Z * list nat * list Z :=
  let uniq := unique ar in
  (uniq,
   map (fun x => position x uniq) ar,
   map (fun u => Z.of_nat (count_occ Z.eq_dec ar u)) uniq).

(** [a[idx]] for an array of positions. *)
Fixpoint take_at {A} (a : list A) (idx : list nat) : result (list A) :=
  match idx with
  | [] => Ok []
  | i :: rest =>
      match a !! i with
      | Some x =>
          let* more := take_at a rest in
          Ok (x :: more)
      | None => Raise IndexError
      end
  end.

(** One entry of an array by a Python index: a negative one counts from
    the end. *)
Definition item {A} (a : list A) (i : Z) : result A :=
  let n := Z.of_nat (length a) in
  let i' := if i <? 0 then i + n else i in
  if (0 <=? i') && (i' <? n) then
    match a !! Z.to_nat i' with
    | Some x => Ok x
    | None => Raise IndexError
    end
  else Raise IndexError.

(** [np.take(a, indices, axis=0)] *)
Fixpoint np_take {A} (a : list A) (indices : list Z) : result (list A) :=
  match indices with
  | [] => Ok []
  | i :: rest =>
      let* x := item a i in
      let* more := np_take a rest in
      Ok (x :: more)
  end.

(** [pd.DataFrame(rows, index=idx, columns=[a, b])] for rows of two
    entries. *)
Definition new_frame (rows : list (F * F)) (idx : list Z) (a b : string)
  : result (DataFrame F) :=
  if (length rows =? length idx)%nat then
    Ok {| index := idx;
          columns := [(a, FloatS (map fst rows)); (b, FloatS (map snd rows))] |}
  else Raise ValueError.

(** [df[name] = values] for an array: its length has to be that of the
    index. *)
Definition assign_values (df : DataFrame F) (name : string) (s : Series F)
  : result (DataFrame F) :=
  if (series_length s =? nrows df)%nat then Ok (setitem df name s)
  else Raise ValueError.

(** *** Labels and their counts *)

Lemma insert_unique_In (x y : Z) (l : list Z) :
  In y (insert_unique x l) <-> y = x \/ In y l.
Proof.
  induction l as [|z l IH]; cbn [insert_unique].
  - cbn. intuition.
  - destruct (x <? z); [cbn; intuition|].
    destruct (x =? z) eqn:E.
    + apply Z.eqb_eq in E as ->. cbn. intuition.
    + cbn [In]. rewrite IH. intuition.
Qed.

Lemma unique_In (y : Z) (ar : list Z) : In y (unique ar) <-> In y ar.
Proof.
  unfold unique. induction ar as [|x ar IH]; cbn [fold_right]; [reflexivity|].
  rewrite insert_unique_In, IH. cbn. intuition.
Qed.

Lemma position_lookup (x : Z) (l : list Z) :
  In x l -> l !! position x l = Some x.
Proof.
  induction l as [|y l IH]; [intros []|].
  cbn [position]. destruct (y =? x) eqn:E.
  - apply Z.eqb_eq in E as ->. reflexivity.
  - intros [->|Hin]; [rewrite Z.eqb_refl in E; discriminate|].
    cbn. now apply IH.
Qed.

Lemma take_at_lookup {A} (a : list A) (idx : list nat) (out : list A) :
  take_at a idx = Ok out ->
  length out = length idx /\
  forall i p, idx !! i = Some p -> out !! i = a !! p.
Proof.
  revert out. induction idx as [|p0 idx IH]; intros out; cbn [take_at].
  - intros [= <-]. split; [reflexivity|]. intros i p [=].
  - destruct (a !! p0) as [x|] eqn:Ex; [|discriminate].
    destruct (take_at a idx) as [more|e]; [|discriminate].
    cbn [bind]. intros [= <-]. destruct (IH more eq_refl) as [Hlen Hat].
    split; [cbn; now rewrite Hlen|].
    intros [|i] p; cbn; [intros [= <-]; now rewrite Ex|apply Hat].
Qed.

Lemma np_take_lookup {A} (a : list A) (indices : list Z) (out : list A) :
  np_take a indices = Ok out ->
  length out = length indices /\
  forall i l, indices !! i = Some l ->
    exists x, item a l = Ok x /\ out !! i = Some x.
Proof.
  revert out. induction indices as [|l0 indices IH]; intros out; cbn [np_take].
  - intros [= <-]. split; [reflexivity|]. intros i l [=].
  - destruct (item a l0) as [x|e] eqn:Ex; [|discriminate]. cbn [bind].
    destruct (np_take a indices) as [more|e]; [|discriminate].
    cbn [bind]. intros [= <-]. destruct (IH more eq_refl) as [Hlen Hat].
    split; [cbn; now rewrite Hlen|].
    intros [|i] l; cbn; [intros [= <-]; eauto|apply Hat].
Qed.

Lemma cluster_sizes_count (labels sizes : list Z) :
  take_at (snd (np_unique labels)) (snd (fst (np_unique labels))) = Ok sizes ->
  length sizes = length labels /\
  forall i l, labels !! i = Some l ->
    sizes !! i = Some (Z.of_nat (count_occ Z.eq_dec labels l)).
Proof.
  unfold np_unique. cbn [fst snd]. intros Ht.
  destruct (take_at_lookup _ _ _ Ht) as [Hlen Hat].
  rewrite length_map in Hlen. split; [exact Hlen|].
  intros i l Hl.
  rewrite (Hat i (position l (unique labels)))
    by (rewrite list_lookup_fmap, Hl; reflexivity).
  rewrite list_lookup_fmap, position_lookup; [reflexivity|].
  apply unique_In. eapply list_elem_of_In, list_elem_of_lookup_2, Hl.
Qed.

Lemma assign_values_Ok (df df' : DataFrame F) (name : string) (s : Series F) :
  assign_values df name s = Ok df' ->
  df' = setitem df name s /\ series_length s = nrows df.
Proof.
  unfold assign_values. destruct (series_length s =? nrows df)%nat eqn:E;
    [|discriminate].
  intros [= <-]. split; [reflexivity|]. now apply Nat.eqb_eq.
Qed.

Section Fitted.

(** [Birch(n_clusters=None, threshold=threshold_cluster,
    compute_labels=True)] fitted to the pixels. *)
Variable Birch_fit : Z -> list (F * F) -> result birch.

(** [clust_2D_pixels(pixels_df, threshold_cluster, bin1_id_name,
    bin2_id_name, clust_label_name, clust_size_name)] *)
Definition clust_2D_pixels (pixels_df : DataFrame F) (threshold_cluster : Z)
    (bin1_id_name bin2_id_name clust_label_name clust_size_name : string)
  : result (DataFrame F) :=
  let* pixels := pixel_values pixels_df bin1_id_name bin2_id_name in
  let pixel_idxs := index pixels_df in
  let* brc := Birch_fit threshold_cluster pixels in
  let clustered_labels := labels_ brc in
  let clustered_centroids := subcluster_centers_ brc in
  let '(_, inverse_idx, uniq_counts) := np_unique clustered_labels in
  let* cluster_sizes := take_at uniq_counts inverse_idx in
  let* centroids_per_pixel := np_take clustered_centroids clustered_labels in
  let* centroids_n_labels_df :=
    new_frame centroids_per_pixel pixel_idxs
              (String "c" bin1_id_name) (String "c" bin2_id_name) in
  let* centroids_n_labels_df :=
    assign_values centroids_n_labels_df clust_label_name (IntS clustered_labels) in
  assign_values centroids_n_labels_df clust_size_name (IntS cluster_sizes).

(** *** The loop of [clustering_step_local] *)

(** Python's [str] of a number. *)
Variable str_of_int : Z -> string.
Variable str_of_float : F -> string.

(** [.astype(str)] of a column. *)
Definition astype_str (s : Series F) : list string :=
  match s with
  | IntS v => map str_of_int v
  | FloatS v => map str_of_float v
  | BoolS v => map (fun b : bool => if b then "True" else "False")%string v
  | ObjS v => v
  end.

(** The rows with both ends on [chrom]. *)
Definition on_chrom (c1 c2 : Series F) (chrom : string) : list bool :=
  zip_with andb (map (fun x => String.eqb x chrom) (astype_str c1))
                (map (fun x => String.eqb x chrom) (astype_str c2)).

(** [(scores_df['chrom1'].astype(str)==str(chrom)) &
     (scores_df['chrom2'].astype(str)==str(chrom))] *)
Definition cis_mask (scores_df : DataFrame F) (chrom : string)
  : result (list bool) :=
  let* c1 := getitem scores_df "chrom1" in
  let* c2 := getitem scores_df "chrom2" in
  Ok (on_chrom c1 c2 chrom).

(** The list [pixel_clust_list] that the loop over the chromosomes
    builds. *)
Fixpoint pixel_clust_list (scores_df : DataFrame F)
    (expected_chroms : list string) (dots_clustering_radius : Z)
  : result (list (DataFrame F)) :=
  match expected_chroms with
  | [] => Ok []
  | chrom :: rest =>
      let* mask := cis_mask scores_df chrom in
      let df := select_rows mask scores_df in
      if (nrows df =? 0)%nat then
        pixel_clust_list scores_df rest dots_clustering_radius
      else
        let* pixel_clust :=
          clust_2D_pixels df dots_clustering_radius
                          "start1" "start2" "c_label" "c_size" in
        let* more := pixel_clust_list scores_df rest dots_clustering_radius in
        Ok (pixel_clust :: more)
  end.

Lemma clust_2D_pixels_index (pixels_df out : DataFrame F) (thr : Z)
    (b1 b2 lab size : string) :
  clust_2D_pixels pixels_df thr b1 b2 lab size = Ok out ->
  index out = index pixels_df.
Proof.
  unfold clust_2D_pixels.
  destruct (pixel_values pixels_df b1 b2) as [pixels|e]; [|discriminate].
  cbn [bind]. destruct (Birch_fit thr pixels) as [brc|e]; [|discriminate].
  cbn [bind]. unfold np_unique.
  destruct (take_at _ _) as [sizes|e]; [|discriminate]. cbn [bind].
  destruct (np_take _ _) as [cpp|e]; [|discriminate]. cbn [bind].
  unfold new_frame. destruct (length cpp =? _)%nat; [|discriminate].
  cbn [bind].
  destruct (assign_values _ lab _) as [df1|e] eqn:E1; [|discriminate].
  cbn [bind]. intros E2.
  apply assign_values_Ok in E1 as [-> _]. apply assign_values_Ok in E2 as [-> _].
  reflexivity.
Qed.

End Fitted.

End WithFloat.

(** X16. When [clust_2D_pixels] returns, with four distinct names for the
    columns it makes, the table has the index of the input and one label per
    row, the label [Birch] gave to that pixel; the size in [c_size] is the
    number of rows of the table that carry the row's label, and the centroid
    columns hold the center of the subcluster of that label. *)
Theorem cluster_size_counts_label {F : Type} {ops : FloatOps F}
    (Birch_fit : Z -> list (F * F) -> result (birch (F := F)))
    (pixels_df out : DataFrame F) (threshold_cluster : Z)
    (bin1_id_name bin2_id_name clust_label_name clust_size_name : string) :
  List.NoDup [String "c" bin1_id_name; String "c" bin2_id_name;
              clust_label_name; clust_size_name] ->
  clust_2D_pixels Birch_fit pixels_df threshold_cluster bin1_id_name
    bin2_id_name clust_label_name clust_size_name = Ok out ->
  exists (pixels : list (F * F)) (brc : birch) (sizes : list Z) (cx cy : list F),
    pixel_values pixels_df bin1_id_name bin2_id_name = Ok pixels /\
    Birch_fit threshold_cluster pixels = Ok brc /\
    index out = index pixels_df /\
    length (labels_ brc) = nrows pixels_df /\
    lookup_col clust_label_name (columns out) = Some (IntS (labels_ brc)) /\
    lookup_col clust_size_name (columns out) = Some (IntS sizes) /\
    lookup_col (String "c" bin1_id_name) (columns out) = Some (FloatS cx) /\
    lookup_col (String "c" bin2_id_name) (columns out) = Some (FloatS cy) /\
    forall (i : nat) (l : Z), labels_ brc !! i = Some l ->
      sizes !! i = Some (Z.of_nat (count_occ Z.eq_dec (labels_ brc) l)) /\
      exists c : F * F,
        item (subcluster_centers_ brc) l = Ok c /\
        cx !! i = Some (fst c) /\ cy !! i = Some (snd c).
Proof.
  intros Hnd Hrun. pose proof (clust_2D_pixels_index _ _ _ _ _ _ _ _ Hrun) as Hidx.
  revert Hrun. unfold clust_2D_pixels.
  destruct (pixel_values pixels_df _ _) as [pixels|e]; [|discriminate].
  cbn [bind].
  destruct (Birch_fit threshold_cluster pixels) as [brc|e] eqn:Ebrc;
    [|discriminate].
  cbn [bind].
  destruct (np_unique (labels_ brc)) as [[uniq inverse_idx] uniq_counts] eqn:Eu.
  destruct (take_at uniq_counts inverse_idx) as [sizes|e] eqn:Es; [|discriminate].
  cbn [bind].
  destruct (np_take _ _) as [cpp|e] eqn:Ec; [|discriminate]. cbn [bind].
  unfold new_frame. destruct (length cpp =? _)%nat eqn:El; [|discriminate].
  cbn [bind]. apply Nat.eqb_eq in El.
  destruct (assign_values _ clust_label_name _) as [df1|e] eqn:E1;
    [|discriminate].
  cbn [bind]. intros E2.
  apply assign_values_Ok in E1 as [-> Hl1]. apply assign_values_Ok in E2 as [-> _].
  unfold nrows in Hl1. cbn [series_length index] in Hl1.
  assert (Es' : take_at (snd (np_unique (labels_ brc)))
                        (snd (fst (np_unique (labels_ brc)))) = Ok sizes)
    by (rewrite Eu; exact Es).
  destruct (cluster_sizes_count _ _ Es') as [_ Hsizes].
  destruct (np_take_lookup _ _ _ Ec) as [_ Hcent].
  assert (Hd : String "c" bin1_id_name <> String "c" bin2_id_name /\
               String "c" bin1_id_name <> clust_label_name /\
               String "c" bin1_id_name <> clust_size_name /\
               String "c" bin2_id_name <> clust_label_name /\
               String "c" bin2_id_name <> clust_size_name /\
               clust_label_name <> clust_size_name).
  { rewrite !List.NoDup_cons_iff in Hnd. cbn [In] in Hnd. intuition congruence. }
  destruct Hd as (Hab & Hal & Has & Hbl & Hbs & Hls).
  exists pixels, brc, sizes, (map fst cpp), (map snd cpp).
  split; [reflexivity|]. split; [exact Ebrc|]. split; [exact Hidx|].
  split; [exact Hl1|].
  cbn [setitem columns].
  split.
  { rewrite lookup_assign_ne by congruence. apply lookup_assign_eq. }
  split; [apply lookup_assign_eq|].
  split.
  { rewrite !lookup_assign_ne by congruence. cbn [lookup_col].
    now rewrite String.eqb_refl. }
  split.
  { rewrite !lookup_assign_ne by congruence. cbn [lookup_col].
    apply String.eqb_neq in Hab. now rewrite Hab, String.eqb_refl. }
  intros i l Hl. split; [now apply Hsizes|].
  destruct (Hcent i l Hl) as (c & Hitem & Hc). exists c.
  split; [exact Hitem|]. rewrite !list_lookup_fmap, Hc. split; reflexivity.
Qed.

Import Binary64.

(** A stand-in for the clustering that splits the pixels at the coordinate
    100, and four pixels with three of them below. *)
Definition split_at_100 (threshold : Z) (pixels : list (float * float))
  : result (birch (F := float)) :=
  Ok {| labels_ := map (fun p => if fltb (fst p) (of_Z 100) then 0 else 1) pixels;
        subcluster_centers_ := [(of_Z 11, of_Z 21); (of_Z 200, of_Z 210)] |}.

Definition four_pixels : DataFrame float :=
  {| index := [0; 1; 2; 3];
     columns :=
       [("chrom1"%string, ObjS ["chr1"; "chr1"; "chr1"; "chr1"]%string);
        ("chrom2"%string, ObjS ["chr1"; "chr1"; "chr2"; "chr1"]%string);
        ("start1"%string, IntS [10; 12; 200; 11]);
        ("start2"%string, IntS [20; 21; 210; 22])] |}.

Lemma cluster_size_counts_label_witness :
  exists out,
    clust_2D_pixels split_at_100 four_pixels 2 "start1" "start2"
      "c_label" "c_size" = Ok out /\
    int_at out "c_size" 0 = Some 3 /\ int_at out "c_size" 2 = Some 1.
Proof.
  eexists. split; [vm_compute; reflexivity|].
  match goal with |- int_at ?d _ _ = _ /\ _ =>
    assert (Hrun : clust_2D_pixels split_at_100 four_pixels 2 "start1" "start2"
                     "c_label" "c_size" = Ok d)
      by (vm_compute; reflexivity)
  end.
  destruct (cluster_size_counts_label split_at_100 four_pixels _ 2
              "start1" "start2" "c_label" "c_size"
              ltac:(repeat constructor; cbn; intuition discriminate) Hrun)
    as (pixels & brc & sizes & cx & cy & Hp & Hb & _ & _ & _ & Hsize & _ & _ & Hrows).
  vm_compute in Hp. injection Hp as <-.
  unfold split_at_100 in Hb. injection Hb as <-.
  unfold int_at. rewrite Hsize.
  split; [apply (Hrows 0%nat 0)|apply (Hrows 2%nat 1)]; vm_compute; reflexivity.
Defined.

(** X17. The loop of [clustering_step_local] clusters each expected
    chromosome on its own: [pixel_clust_list] has one table for every
    expected chromosome that has pixels with both ends on it, in the order of
    [expected_chroms], and the index of that table holds the index labels of
    exactly those pixels; pixels between two chromosomes, and pixels of
    other chromosomes, are in none of the tables. *)
Theorem clusters_follow_chromosomes {F : Type} {ops : FloatOps F}
    (Birch_fit : Z -> list (F * F) -> result (birch (F := F)))
    (str_of_int : Z -> string) (str_of_float : F -> string)
    (scores_df : DataFrame F) (expected_chroms : list string)
    (dots_clustering_radius : Z) (c1 c2 : Series F)
    (clusters : list (DataFrame F)) :
  lookup_col "chrom1" (columns scores_df) = Some c1 ->
  lookup_col "chrom2" (columns scores_df) = Some c2 ->
  pixel_clust_list Birch_fit str_of_int str_of_float scores_df expected_chroms
    dots_clustering_radius = Ok clusters ->
  map index clusters =
    List.filter (fun ix => negb (length ix =? 0)%nat)
      (map (fun chrom =>
              select (on_chrom str_of_int str_of_float c1 c2 chrom)
                     (index scores_df))
           expected_chroms).
Proof.
  intros H1 H2. revert clusters.
  induction expected_chroms as [|chrom rest IH]; intros clusters;
    cbn [pixel_clust_list].
  - intros [= <-]. reflexivity.
  - unfold cis_mask, getitem. rewrite H1, H2. cbn [bind map List.filter].
    unfold nrows at 1. cbn [select_rows index].
    destruct (length (select _ (index scores_df)) =? 0)%nat eqn:En;
      cbn [negb]; [apply IH|].
    destruct (clust_2D_pixels _ _ _ _ _ _ _) as [pc|e] eqn:Epc; [|discriminate].
    cbn [bind].
    destruct (pixel_clust_list _ _ _ _ rest _) as [more|e]; [|discriminate].
    cbn [bind]. intros [= <-]. cbn [map]. f_equal; [|now apply IH].
    now apply clust_2D_pixels_index in Epc.
Qed.

Lemma clusters_follow_chromosomes_witness :
  exists clusters,
    pixel_clust_list split_at_100 (fun _ => ""%string) (fun _ => ""%string)
      four_pixels ["chr1"; "chr2"]%string 2 = Ok clusters /\
    map index clusters = [[0; 1; 3]].
Proof.
  eexists. split; [vm_compute; reflexivity|].
  match goal with |- map index ?l = _ =>
    assert (Hrun : pixel_clust_list split_at_100 (fun _ => ""%string)
                     (fun _ => ""%string) four_pixels ["chr1"; "chr2"]%string 2
                   = Ok l)
      by (vm_compute; reflexivity)
  end.
  rewrite (clusters_follow_chromosomes split_at_100 (fun _ => ""%string)
             (fun _ => ""%string) four_pixels ["chr1"; "chr2"]%string 2
             (ObjS ["chr1"; "chr1"; "chr1"; "chr1"]%string)
             (ObjS ["chr1"; "chr1"; "chr2"; "chr1"]%string) _
             eq_refl eq_refl Hrun).
  reflexivity.
Defined.

End Cluster.
